(** * bit-to-hub: the repository mirroring core of [GitManager]

    A shallow embedding of [src/lib/git.js] (class [GitManager]) and of the
    properties its specification states about the clone / push / scan /
    rewrite / retry pipeline.

    The JavaScript code talks to three outside parties: the file system
    ([fs/promises]), the [simple-git] wrapper and raw [git] child processes
    started with [spawn].  None of them is modelled by a fixed behaviour.
    Instead every function below is written against an environment [Env]
    which answers each outside call from the current state; theorems
    quantify over all environments, executable examples fix one.

    The later parts follow the callers and the neighbours of that class:
    the driver [BitToHubMigrator] of [src/index.js] and the listing
    methods of the API clients in [src/lib/github.js] and
    [src/lib/bitbucket.js]. *)

From Stdlib Require Import ZArith Ascii String List Bool Lia.
From Stdlib Require Import DecimalString DecimalNat.
From stdpp Require Import base gmap strings list.
Import ListNotations.

Local Open Scope string_scope.
Local Open Scope list_scope.
Local Open Scope Z_scope.

(** ** JavaScript string primitives used by the code *)

Module JsString.

(** ["\n"], [" "] and the double quote as characters and strings. *)
Definition LF : ascii := ascii_of_nat 10.
Definition SP : ascii := ascii_of_nat 32.
Definition dquote : string := String (ascii_of_nat 34) EmptyString.

(** A JavaScript string is truthy exactly when it is not empty. *)
Definition truthy (s : string) : bool :=
  match s with EmptyString => false | String _ _ => true end.

(** [s.startsWith(p)] *)
Fixpoint startsWith (p s : string) : bool :=
  match p, s with
  | EmptyString, _ => true
  | String a p', String b s' => Ascii.eqb a b && startsWith p' s'
  | String _ _, EmptyString => false
  end.

(** [s.includes(sub)]: [sub] occurs in [s] at some offset. *)
Fixpoint includes (sub s : string) : bool :=
  startsWith sub s ||
  match s with
  | EmptyString => false
  | String _ s' => includes sub s'
  end.

(** White space and line terminators removed by [trim] and skipped by
    [parseInt].  Strings are byte strings here and stand for the UTF-8
    encoding of the JavaScript string, so the members of the class take
    one byte (TAB, LF, VT, FF, CR and SPACE), two (U+00A0) or three
    (U+1680, U+2000 to U+200A, U+2028, U+2029, U+202F, U+205F, U+3000 and
    U+FEFF). *)
Definition is_space (c : ascii) : bool :=
  let n := nat_of_ascii c in
  ((9 <=? n)%nat && (n <=? 13)%nat) || (n =? 32)%nat.

Definition is_space2 (c c1 : ascii) : bool :=
  (nat_of_ascii c =? 194)%nat && (nat_of_ascii c1 =? 160)%nat.

Definition is_space3 (c c1 c2 : ascii) : bool :=
  let n := nat_of_ascii c in
  let n1 := nat_of_ascii c1 in
  let n2 := nat_of_ascii c2 in
  ((n =? 225)%nat && (n1 =? 154)%nat && (n2 =? 128)%nat)
  || ((n =? 226)%nat && (n1 =? 128)%nat
      && (((128 <=? n2)%nat && (n2 <=? 138)%nat)
          || (n2 =? 168)%nat || (n2 =? 169)%nat || (n2 =? 175)%nat))
  || ((n =? 226)%nat && (n1 =? 129)%nat && (n2 =? 159)%nat)
  || ((n =? 227)%nat && (n1 =? 128)%nat && (n2 =? 128)%nat)
  || ((n =? 239)%nat && (n1 =? 187)%nat && (n2 =? 191)%nat).

Fixpoint trimStart (s : string) : string :=
  match s with
  | String c s1 =>
      if is_space c then trimStart s1
      else match s1 with
           | String c1 s2 =>
               if is_space2 c c1 then trimStart s2
               else match s2 with
                    | String c2 s3 => if is_space3 c c1 c2 then trimStart s3 else s
                    | EmptyString => s
                    end
           | EmptyString => s
           end
  | EmptyString => EmptyString
  end.

(** [trimEnd] cuts where nothing but white space follows. *)
Fixpoint trimEnd (s : string) : string :=
  match s with
  | EmptyString => EmptyString
  | String c s' => if truthy (trimStart s) then String c (trimEnd s') else EmptyString
  end.

Definition trim (s : string) : string := trimEnd (trimStart s).

(** [s.split(sep)] for a one-character separator: always at least one
    piece, one more piece than there are separators. *)
Fixpoint split (sep : ascii) (s : string) : list string :=
  match s with
  | EmptyString => [EmptyString]
  | String c s' =>
      if Ascii.eqb c sep then EmptyString :: split sep s'
      else match split sep s' with
           | piece :: pieces => String c piece :: pieces
           | [] => [String c EmptyString]
           end
  end.

(** [pieces.join(sep)] *)
Fixpoint join (sep : string) (pieces : list string) : string :=
  match pieces with
  | [] => EmptyString
  | [p] => p
  | p :: rest => p ++ sep ++ join sep rest
  end.

(** Template-literal rendering of a non-negative integer such as
    [largeFiles.length]. *)
Definition ofNat (n : nat) : string := NilEmpty.string_of_uint (Nat.to_uint n).

(** *** [parseInt(s)] with no radix argument

    Leading white space is skipped, an optional sign is read, a [0x] or
    [0X] prefix selects radix 16, and the longest run of digits is
    converted.  [None] stands for [NaN].  The result is a double: the
    number read, rounded to 53 significant bits (to the nearest, ties to
    the even one), which is the number itself up to 2^53.  (For numerals
    of more than 20 digits the language lets an engine round the digits
    first, and beyond the largest double, a numeral of more than 308
    digits, the result is [Infinity]; such numerals are rounded here like
    all others.) *)
Definition digit_value (c : ascii) : option Z :=
  let n := Z.of_nat (nat_of_ascii c) in
  if (48 <=? n) && (n <=? 57) then Some (n - 48)
  else if (97 <=? n) && (n <=? 102) then Some (n - 87)
  else if (65 <=? n) && (n <=? 70) then Some (n - 55)
  else None.

Definition digit_in (radix : Z) (c : ascii) : option Z :=
  match digit_value c with
  | Some d => if d <? radix then Some d else None
  | None => None
  end.

(** Reads the longest digit prefix of [s]; [acc] is [None] until the
    first digit has been seen. *)
Fixpoint read_digits (radix : Z) (acc : option Z) (s : string) : option Z :=
  match s with
  | EmptyString => acc
  | String c s' =>
      match digit_in radix c with
      | Some d =>
          read_digits radix
            (Some (match acc with Some a => a * radix + d | None => d end)) s'
      | None => acc
      end
  end.

Definition strip_sign (s : string) : Z * string :=
  match s with
  | String c s' =>
      if Ascii.eqb c (ascii_of_nat 45) then (-1, s')
      else if Ascii.eqb c (ascii_of_nat 43) then (1, s')
      else (1, s)
  | EmptyString => (1, s)
  end.

Definition strip_radix (s : string) : Z * string :=
  match s with
  | String z (String x s') =>
      if Ascii.eqb z (ascii_of_nat 48)
         && (Ascii.eqb x (ascii_of_nat 120) || Ascii.eqb x (ascii_of_nat 88))
      then (16, s') else (10, s)
  | _ => (10, s)
  end.

(** The double nearest to a non-negative integer, a tie going to the even
    significand: the Number that [parseInt] makes of the value of its
    digits.  Two things are left out.  Past 20 significant digits an
    implementation may read the further digits as 0, and from 2^1024 on
    the Number is [Infinity]; a size in bytes reaches neither. *)
Definition toDouble (v : Z) : Z :=
  let bits := Z.log2 v + 1 in
  if bits <=? 53 then v
  else
    let shift := bits - 53 in
    let kept := Z.shiftr v shift in
    let rest := v - Z.shiftl kept shift in
    let half := Z.shiftl 1 (shift - 1) in
    let rounded :=
      if (half <? rest) || ((rest =? half) && Z.odd kept) then kept + 1 else kept in
    Z.shiftl rounded shift.

Definition parseInt (s : string) : option Z :=
  let '(sign, unsigned) := strip_sign (trimStart s) in
  let '(radix, digits) := strip_radix unsigned in
  match read_digits radix None digits with
  | Some v => Some (sign * toDouble v)
  | None => None
  end.

End JsString.

(** ** The pattern [/File (.+?) is \d+\.\d+ MB/g]

    [attemptPush] applies this pattern to the error text of a failed retry
    and logs every match.  The matcher below follows the backtracking order
    of the pattern: the lazy group takes one character that is not a line
    terminator and grows one character at a time until the rest of the
    pattern matches; both [\d+] are followed by a character that is not a
    digit, so they can only take a maximal run.

    Strings are byte strings here and stand for the UTF-8 encoding of the
    JavaScript string.  The group grows byte by byte; as the rest of the
    pattern starts with a space, it can only be found where a character
    begins. *)

Module FilePattern.
Import JsString.

Definition is_digit (c : ascii) : bool :=
  let n := nat_of_ascii c in ((48 <=? n)%nat && (n <=? 57)%nat).

(** The line terminators of one byte: LF and CR. *)
Definition is_line_terminator (c : ascii) : bool :=
  let n := nat_of_ascii c in ((n =? 10)%nat || (n =? 13)%nat).

(** [.] matches everything but a line terminator: LF, CR, U+2028 and
    U+2029, the last two being the bytes E2 80 A8 and E2 80 A9.
    [line_terminator_ahead s] tells whether [s] starts with one. *)
Definition line_terminator_ahead (s : string) : bool :=
  match s with
  | String c s' =>
      is_line_terminator c
      || match s' with
         | String c1 (String c2 _) =>
             (nat_of_ascii c =? 226)%nat && (nat_of_ascii c1 =? 128)%nat
             && ((nat_of_ascii c2 =? 168)%nat || (nat_of_ascii c2 =? 169)%nat)
         | _ => false
         end
  | EmptyString => false
  end.

(** No line terminator starts anywhere in [s]. *)
Fixpoint noLineTerminator (s : string) : bool :=
  match s with
  | EmptyString => true
  | String _ s' => negb (line_terminator_ahead s) && noLineTerminator s'
  end.

(** [literal p s]: the rest of [s] after the prefix [p]. *)
Fixpoint literal (p s : string) : option string :=
  match p, s with
  | EmptyString, _ => Some s
  | String a p', String b s' => if Ascii.eqb a b then literal p' s' else None
  | String _ _, EmptyString => None
  end.

Fixpoint skip_digits (s : string) : string :=
  match s with
  | String c s' => if is_digit c then skip_digits s' else s
  | EmptyString => EmptyString
  end.

(** [\d+] *)
Definition digits (s : string) : option string :=
  match s with
  | String c s' => if is_digit c then Some (skip_digits s') else None
  | EmptyString => None
  end.

Definition and_then {A B} (o : option A) (f : A -> option B) : option B :=
  match o with Some a => f a | None => None end.

(** [ is \d+\.\d+ MB] *)
Definition size_suffix (s : string) : option string :=
  and_then (literal " is " s) (fun s1 =>
  and_then (digits s1) (fun s2 =>
  and_then (literal "." s2) (fun s3 =>
  and_then (digits s3) (fun s4 =>
  literal " MB" s4)))).

(** [(.+?)] followed by the size suffix. *)
Fixpoint lazy_name (s : string) : option string :=
  match s with
  | EmptyString => None
  | String _ s' =>
      if line_terminator_ahead s then None
      else match size_suffix s' with
           | Some rest => Some rest
           | None => lazy_name s'
           end
  end.

(** A match anchored at the start of [s]: the matched text. *)
Definition match_here (s : string) : option string :=
  match and_then (literal "File " s) lazy_name with
  | Some rest => Some (substring 0 (String.length s - String.length rest) s)
  | None => None
  end.

(** All matches from left to right; after a match the search resumes
    behind it ([skip] counts the characters still covered by it). *)
Fixpoint scan (skip : nat) (s : string) : list string :=
  match s with
  | EmptyString => []
  | String _ s' =>
      match skip with
      | S k => scan k s'
      | O => match match_here s with
             | Some m => m :: scan (String.length m - 1) s'
             | None => scan 0 s'
             end
      end
  end.

(** [errorMessage.match(pattern)], with [null] read as no match. *)
Definition fileMatches (errorMessage : string) : list string := scan 0 errorMessage.

End FilePattern.

(** ** The outside world: file system, toolchain, log sinks *)

(** [fs/promises] calls made by the code.  [Mkdir] is always called with
    [{ recursive: true }] and [Rm] with [{ recursive: true, force: true }]. *)
Inductive FsOp :=
| Access (p : string)
| Mkdir (p : string)
| Rm (p : string).

(** [simple-git] calls.  [cwd] is the directory the wrapper was created
    for; [clone] runs from the process directory.  [simpleGit(repoPath)]
    itself is taken to only record the directory: the factory throws
    when the directory does not exist, so the functions are followed for
    a directory that is there, as the clone of [cloneRepository] is while
    [pushToGitHub] works on it. *)
Inductive GitCmd :=
| Clone (url dir : string) (opts : list string)
| RemoveRemote (cwd name : string)
| AddRemote (cwd name url : string)
| Push (cwd remote branch : string) (opts : list string)
| Branch (cwd : string) (opts : list string)
| Checkout (cwd what : string)
| Raw (cwd : string) (args : list string).

(** A [simple-git] promise is fulfilled with the command output or rejected
    with an error of which the code only reads [message]. *)
Inductive Outcome :=
| Fulfilled (output : string)
| Rejected (message : string).

(** What a child process started with [spawn] reports: that it could not
    be started, or that it ended, with the exit code ([None] for [null], a
    process ended by a signal) and everything it wrote to its two streams.
    A process that ended emits ['close'].  A process that could not be
    started emits ['error'] and, in the same turn, ['close'] with the
    negative error number as its code, so both handlers of such a process
    run, the ['error'] handler first.  Where the handlers only settle a
    promise, the second of them changes nothing; [removeLargeFiles],
    whose handlers both start the fallback, is followed through both
    (see [Async] below). *)
Inductive Exit :=
| SpawnError (message : string)
| Close (code : option Z) (stdout stderr : string).

(** Where a message ends up: the injected logger or the console. *)
Inductive Sink := LoggerInfo | LoggerWarning | ConsoleLog | ConsoleWarn.

Inductive Event :=
| FsEvent (op : FsOp) (failure : option string)
| GitEvent (cmd : GitCmd) (outcome : Outcome)
| SpawnEvent (command : string) (args : list string) (cwd : string) (exit : Exit)
| LogEvent (sink : Sink) (message : string).

(** The state threaded through the program: the paths that exist on disk
    and everything that happened so far, newest event first. *)
Record State := mkState {
  fs : gset string;
  history : list Event
}.

(** The environment decides every outside call from the current state.
    [fs_fault] makes a file-system call reject although it could have been
    served (permissions, busy files); [path_join] and [url_with_auth] stand
    for Node's [path.join] and for [new URL(url)] with the percent-encoded
    credentials set ([None] when the constructor throws).  [formatFileSize]
    is the method of that name: it rounds with [Math.log] and [Math.round]
    on doubles and only feeds a log line, so its text is left open.
    [resumes] is the order in which the toolchain answers when two runs of
    an async function wait for it at the same time: [true] lets the run
    that was started first go on, [false] the other one. *)
Record Env := mkEnv {
  path_join : string -> string -> string;
  url_with_auth : string -> string -> string -> option string;
  formatFileSize : Z -> string;
  fs_fault : State -> FsOp -> option string;
  git_run : State -> GitCmd -> Outcome;
  spawn_run : State -> string -> list string -> string -> Exit;
  resumes : State -> list bool
}.

(** ** Promises as a state-and-exception monad *)

Inductive Res (A : Type) :=
| Ok (value : A)
| Throw (message : string).
Arguments Ok {A} value.
Arguments Throw {A} message.

Definition M (A : Type) : Type := State -> Res A * State.

Definition ret {A} (a : A) : M A := fun s => (Ok a, s).

Definition throw {A} (message : string) : M A := fun s => (Throw message, s).

Definition bind {A B} (m : M A) (k : A -> M B) : M B :=
  fun s => match m s with
           | (Ok a, s') => k a s'
           | (Throw e, s') => (Throw e, s')
           end.

(** [try { m } catch (error) { handler(error.message) }] *)
Definition try_catch {A} (m : M A) (handler : string -> M A) : M A :=
  fun s => match m s with
           | (Ok a, s') => (Ok a, s')
           | (Throw e, s') => handler e s'
           end.

(** [try { m } finally { cleanup }]: the completion of [m] is kept unless
    the [finally] block itself throws. *)
Definition try_finally {A} (m : M A) (cleanup : M unit) : M A :=
  fun s => let '(r, s1) := m s in
           match cleanup s1 with
           | (Ok _, s2) => (r, s2)
           | (Throw e, s2) => (Throw e, s2)
           end.

Declare Scope js_scope.
Delimit Scope js_scope with js.
Notation "x <- m ;; k" := (bind m (fun x => k))
  (at level 100, m at next level, right associativity) : js_scope.
Notation "m ;; k" := (bind m (fun _ => k))
  (at level 100, right associativity) : js_scope.
Local Open Scope js_scope.

Fixpoint forEach {A} (items : list A) (body : A -> M unit) : M unit :=
  match items with
  | [] => ret tt
  | x :: rest => body x ;; forEach rest body
  end.

Definition record (e : Event) (s : State) : State :=
  mkState (fs s) (e :: history s).

(** [q] is [p] or lies below it. *)
Definition within (p q : string) : bool :=
  String.eqb p q || JsString.startsWith (p +:+ "/") q.

Definition remove_tree (p : string) (files : gset string) : gset string :=
  filter (fun q => within p q = false) files.

Section Primitives.
Context (env : Env).

(** [fs.access(p)] rejects when [p] does not exist. *)
Definition fs_access (p : string) : M unit := fun s =>
  let failure :=
    match fs_fault env s (Access p) with
    | Some e => Some e
    | None => if decide (p ∈ fs s) then None
              else Some ("ENOENT: no such file or directory, access " +:+ p)
    end in
  let s' := record (FsEvent (Access p) failure) s in
  match failure with
  | None => (Ok tt, s')
  | Some e => (Throw e, s')
  end.

(** [fs.mkdir(p, { recursive: true })] *)
Definition fs_mkdir (p : string) : M unit := fun s =>
  match fs_fault env s (Mkdir p) with
  | Some e => (Throw e, record (FsEvent (Mkdir p) (Some e)) s)
  | None => (Ok tt, mkState ({[ p ]} ∪ fs s) (FsEvent (Mkdir p) None :: history s))
  end.

(** [fs.rm(p, { recursive: true, force: true })]: a missing path is not
    an error; on success [p] and everything below it are gone. *)
Definition fs_rm (p : string) : M unit := fun s =>
  match fs_fault env s (Rm p) with
  | Some e => (Throw e, record (FsEvent (Rm p) (Some e)) s)
  | None => (Ok tt, mkState (remove_tree p (fs s)) (FsEvent (Rm p) None :: history s))
  end.

(** A [simple-git] call.  A successful clone creates its target. *)
Definition git (cmd : GitCmd) : M string := fun s =>
  let outcome := git_run env s cmd in
  let files :=
    match cmd, outcome with
    | Clone _ dir _, Fulfilled _ => {[ dir ]} ∪ fs s
    | _, _ => fs s
    end in
  let s' := mkState files (GitEvent cmd outcome :: history s) in
  match outcome with
  | Fulfilled out => (Ok out, s')
  | Rejected e => (Throw e, s')
  end.

(** [spawn(command, args, { cwd })], awaited until ['error'] or ['close']. *)
Definition spawn (command : string) (args : list string) (cwd : string) : M Exit :=
  fun s =>
    let exit := spawn_run env s command args cwd in
    (Ok exit, record (SpawnEvent command args cwd exit) s).

Definition emit (sink : Sink) (message : string) : M unit := fun s =>
  (Ok tt, record (LogEvent sink message) s).

End Primitives.

(** ** The class [GitManager] *)

(** [logger] tells whether a logger object was injected ([null] otherwise). *)
Record GitManager := mkGitManager {
  tempDir : string;
  logger : bool
}.

(** [{ path, size, hash }], one entry of the scanner's result. *)
Record LargeFile := mkLargeFile {
  path : string;
  size : Z;
  hash : string
}.

(** [100 * 1024 * 1024], the default [sizeLimit] of [findLargeFiles]. *)
Definition defaultSizeLimit : Z := 100 * 1024 * 1024.

(** The two texts [attemptPush] looks for in the error of a failed push. *)
Definition sizeLimitSignature : string := "exceeds GitHub's file size limit".
Definition largeFilesSignature : string := "GH001: Large files detected".

Definition isLargeFileError (errorMessage : string) : bool :=
  JsString.includes sizeLimitSignature errorMessage
  || JsString.includes largeFilesSignature errorMessage.

(** ** Async functions that are started twice

    [removeLargeFilesWithFilterBranch] is started from two event handlers
    of one and the same child process (see [removeLargeFiles]).  Two runs
    of an async function take turns: a run goes on until its next [await],
    which in this function is always a [simple-git] call, and is resumed
    when that call has settled.  To follow two runs side by side the
    function is written as a [Task]: what it logs next, which call it
    awaits next, and how it goes on from the answer.

    A call is entered in the history when it is issued, with the outcome
    it is going to have, as everywhere else. *)
Module Async.

Inductive Task (A : Type) :=
| Done (completion : Res A)
| Say (sink : Sink) (message : string) (next : Task A)
| Await (cmd : GitCmd) (next : Outcome -> Task A).
Arguments Done {A} completion.
Arguments Say {A} sink message next.
Arguments Await {A} cmd next.

(** Every call the task can come to issue satisfies [P]. *)
Fixpoint calls {A} (P : GitCmd -> Prop) (t : Task A) : Prop :=
  match t with
  | Done _ => True
  | Say _ _ next => calls P next
  | Await cmd next => P cmd /\ forall outcome, calls P (next outcome)
  end.

(** Every completion the task can come to satisfies [R]. *)
Fixpoint ends {A} (R : Res A -> Prop) (t : Task A) : Prop :=
  match t with
  | Done completion => R completion
  | Say _ _ next => ends R next
  | Await _ next => forall outcome, ends R (next outcome)
  end.

(** What a task leaves in the history: log lines, and calls. *)
Definition event (P : GitCmd -> Prop) (e : Event) : Prop :=
  match e with
  | GitEvent cmd _ => P cmd
  | LogEvent _ _ => True
  | _ => False
  end.

Section Running.
Context (env : Env).

(** A run that nothing interferes with: every [await] is resumed as soon
    as its call has settled. *)
Fixpoint run {A} (t : Task A) : M A :=
  match t with
  | Done completion => fun s => (completion, s)
  | Say sink message next => fun s => run next (record (LogEvent sink message) s)
  | Await cmd next => fun s => run (next (git_run env s cmd)) (snd (git env cmd s))
  end.

(** One turn: the run goes on until it has issued its next call and hands
    back what it will do with the answer, or it completes. *)
Fixpoint advance {A} (t : Task A) : State -> (Res A + Task A) * State :=
  match t with
  | Done completion => fun s => (inl completion, s)
  | Say sink message next => fun s => advance next (record (LogEvent sink message) s)
  | Await cmd next => fun s => (inr (next (git_run env s cmd)), snd (git env cmd s))
  end.

(** Calling an async function runs it up to its first [await]. *)
Definition start {A} (t : Task A) : M (Res A + Task A) :=
  fun s => let '(progress, s') := advance t s in (Ok progress, s').

(** Two runs that both wait for the toolchain, resumed in the given
    order until one of them completes; when the order is used up the
    first run is the one that goes on.  The result is the completion of
    the run that completes first. *)
Fixpoint race {A} (order : list bool) (first second : Task A) : M A :=
  match order with
  | [] => run first
  | true :: rest =>
      fun s => match advance first s with
               | (inl completion, s') => (completion, s')
               | (inr first', s') => race rest first' second s'
               end
  | false :: rest =>
      fun s => match advance second s with
               | (inl completion, s') => (completion, s')
               | (inr second', s') => race rest first second' s'
               end
  end.

(** [first.then(resolve).catch(reject)] and the same for [second], on one
    promise: the promise is settled by the run that completes first, the
    first one if both completed before their first [await].  The run that
    is overtaken is not stopped by this; what it still does happens beside
    the caller and is not followed here. *)
Definition settle {A} (first second : Res A + Task A) : M A :=
  fun s => match first, second with
           | inl completion, _ => (completion, s)
           | inr _, inl completion => (completion, s)
           | inr first', inr second' => race (resumes env s) first' second' s
           end.

End Running.

Definition ret {A} (a : A) : Task A := Done (Ok a).

Definition throw {A} (message : string) : Task A := Done (Throw message).

Fixpoint bind {A B} (t : Task A) (k : A -> Task B) : Task B :=
  match t with
  | Done (Ok a) => k a
  | Done (Throw e) => Done (Throw e)
  | Say sink message next => Say sink message (bind next k)
  | Await cmd next => Await cmd (fun outcome => bind (next outcome) k)
  end.

Fixpoint try_catch {A} (t : Task A) (handler : string -> Task A) : Task A :=
  match t with
  | Done (Ok a) => Done (Ok a)
  | Done (Throw e) => handler e
  | Say sink message next => Say sink message (try_catch next handler)
  | Await cmd next => Await cmd (fun outcome => try_catch (next outcome) handler)
  end.

Declare Scope task_scope.
Delimit Scope task_scope with task.
Notation "x <- m ;; k" := (bind m (fun x => k))
  (at level 100, m at next level, right associativity) : task_scope.
Notation "m ;; k" := (bind m (fun _ => k))
  (at level 100, right associativity) : task_scope.
Local Open Scope task_scope.

Fixpoint forEach {A} (items : list A) (body : A -> Task unit) : Task unit :=
  match items with
  | [] => ret tt
  | x :: rest => body x ;; forEach rest body
  end.

(** [await git. ...] *)
Definition git (cmd : GitCmd) : Task string :=
  Await cmd (fun outcome => match outcome with
                            | Fulfilled out => ret out
                            | Rejected e => throw e
                            end).

Definition log (this : GitManager) (message : string) : Task unit :=
  Say (if logger this then LoggerInfo else ConsoleLog) message (ret tt).

Definition logWarning (this : GitManager) (message : string) : Task unit :=
  Say (if logger this then LoggerWarning else ConsoleWarn) message (ret tt).

Section GitManager.
Context (this : GitManager).
Import JsString.

Definition removeLargeFilesWithFilterBranch (repoPath : string) (filePaths : list string)
  : Task bool :=
  try_catch
    (log this "Starting large file removal with git-filter-branch..." ;;
     let rmCommand :=
       join " && "
            (map (fun p => "git rm --cached --ignore-unmatch " +:+ dquote +:+ p +:+ dquote)
                 filePaths) in
     git (Raw repoPath ["filter-branch"; "--force"; "--index-filter"; rmCommand;
                        "--prune-empty"; "--tag-name-filter"; "cat"; "--"; "--all"]) ;;
     log this "Finished filter-branch. Now cleaning up refs/original/." ;;
     forEachRef <- git (Raw repoPath ["for-each-ref"; "--format=%(refname)";
                                      "refs/original/"]) ;;
     let originalRefs :=
       List.filter (fun ref => negb (String.eqb (trim ref) EmptyString))
                   (split LF forEachRef) in
     forEach originalRefs
             (fun ref =>
                try_catch (git (Raw repoPath ["update-ref"; "-d"; ref]) ;; ret tt)
                          (fun _ => logWarning this ("Could not delete original ref: " +:+ ref))) ;;
     log this "Successfully removed large files and original refs." ;;
     ret true)
    (fun e => throw ("Failed to remove large files with filter-branch: " +:+ e)).

End GitManager.

(** The fallback of the earlier revision (see [Earlier] below). *)
Module Earlier.
Section GitManager.
Context (this : GitManager) (branchNames : string -> list string).
Import JsString.

Definition removeLargeFilesWithFilterBranch (repoPath : string) (filePaths : list string)
  : Task bool :=
  try_catch
    (log this "Starting comprehensive large file removal..." ;;
     forEach filePaths
             (fun filePath =>
                log this ("Removing " +:+ filePath +:+ " from repository history...") ;;
                try_catch
                  (git (Raw repoPath
                            ["filter-branch"; "--force"; "--index-filter";
                             "git rm --cached --ignore-unmatch "
                               +:+ dquote +:+ filePath +:+ dquote;
                             "--prune-empty"; "--tag-name-filter"; "cat"; "--"; "--all"]) ;;
                   branches <- git (Branch repoPath ["-a"]) ;;
                   forEach (branchNames branches)
                           (fun branch =>
                              if startsWith "remotes/" branch || String.eqb branch "HEAD"
                              then ret tt
                              else
                                try_catch
                                  (git (Checkout repoPath branch) ;;
                                   git (Raw repoPath ["rm"; "--cached";
                                                      "--ignore-unmatch"; filePath]) ;;
                                   ret tt)
                                  (fun _ => ret tt)) ;;
                   log this ("Successfully removed " +:+ filePath))
                  (fun e => logWarning this ("Failed to remove " +:+ filePath
                                              +:+ ": " +:+ e))) ;;
     try_catch
       (git (Raw repoPath ["for-each-ref"; "--format=delete %(refname)";
                           "refs/original/"]) ;;
        git (Raw repoPath ["reflog"; "expire"; "--expire=now"; "--all"]) ;;
        git (Raw repoPath ["gc"; "--prune=now"; "--aggressive"]) ;;
        git (Raw repoPath ["repack"; "-ad"]) ;;
        log this "Completed comprehensive repository cleanup")
       (fun e => logWarning this ("Cleanup warning: " +:+ e)) ;;
     ret true)
    (fun e => throw ("Failed to remove large files: " +:+ e)).

End GitManager.
End Earlier.

End Async.

Section GitManager.
Context (env : Env) (this : GitManager).
Import JsString.

Definition log (message : string) : M unit :=
  if logger this then emit LoggerInfo message else emit ConsoleLog message.

Definition logWarning (message : string) : M unit :=
  if logger this then emit LoggerWarning message else emit ConsoleWarn message.

Definition ensureTempDir : M unit :=
  try_catch (fs_access env (tempDir this))
            (fun _ => fs_mkdir env (tempDir this)).

Definition addAuthToUrl (url username password : string) : M string :=
  match url_with_auth env url username password with
  | Some authenticated => ret authenticated
  | None => throw ("Invalid URL format: " +:+ url)
  end.

Definition cloneRepository (cloneUrl repoName username appPassword : string)
  : M string :=
  ensureTempDir ;;
  let repoPath := path_join env (tempDir this) repoName in
  try_catch (fs_access env repoPath ;; fs_rm env repoPath)
            (fun _ => ret tt) ;;
  authenticatedUrl <- addAuthToUrl cloneUrl username appPassword ;;
  try_catch (git env (Clone authenticatedUrl repoPath ["--bare"]) ;; ret repoPath)
            (fun e => throw ("Failed to clone repository " +:+ repoName +:+ ": " +:+ e)).

(** The [catch] block of [attemptPush]. *)
Definition attemptPush_catch (isRetry : bool) (errorMessage : string) : M bool :=
  if isLargeFileError errorMessage then
    if isRetry then
      logWarning "Large file error persists after cleanup. Extracting file names..." ;;
      forEach (FilePattern.fileMatches errorMessage)
              (fun m => logWarning ("Still problematic: " +:+ m)) ;;
      throw ("Large files still present after cleanup: " +:+ errorMessage)
    else
      log "Detected large file error, attempting to remove large files..." ;;
      ret false
  else throw ("Failed to push to GitHub: " +:+ errorMessage).

Definition attemptPush (repoPath authenticatedGithubUrl : string) (isRetry : bool)
  : M bool :=
  try_catch
    (try_catch (git env (RemoveRemote repoPath "github") ;; ret tt)
               (fun _ => ret tt) ;;
     git env (AddRemote repoPath "github" authenticatedGithubUrl) ;;
     git env (Push repoPath "github" "--mirror" ["--force"]) ;;
     ret true)
    (attemptPush_catch isRetry).

Definition cleanupRepository (repoPath : string) : M unit :=
  try_catch
    (log "Cleaning up repository..." ;;
     git env (Raw repoPath ["reflog"; "expire"; "--expire=now"; "--all"]) ;;
     git env (Raw repoPath ["gc"; "--prune=now"; "--aggressive"]) ;;
     log "Repository cleanup completed")
    (fun e => logWarning ("Git cleanup warning: " +:+ e)).

Definition getObjectSize (repoPath hash : string) : M Z :=
  exit <- spawn env "git" ["cat-file"; "-s"; hash] repoPath ;;
  match exit with
  | Close (Some 0) output _ =>
      ret (match parseInt (trim output) with Some n => n | None => 0 end)
  | Close _ _ _ => ret 0
  | SpawnError _ => ret 0
  end.

(** The [for] loop of [findLargeFiles]: one size lookup per line that
    carries a path, started in line order; a slot is [None] for [null]. *)
Fixpoint sizeLookups (repoPath : string) (sizeLimit : Z) (lines : list string)
  : M (list (option LargeFile)) :=
  match lines with
  | [] => ret []
  | line :: rest =>
      match split SP line with
      | hash :: ((_ :: _) as pathParts) =>
          let filePath := join " " pathParts in
          slot <- try_catch
                    (size <- getObjectSize repoPath hash ;;
                     if sizeLimit <=? size
                     then ret (Some (mkLargeFile filePath size hash))
                     else ret None)
                    (fun _ => ret None) ;;
          slots <- sizeLookups repoPath sizeLimit rest ;;
          ret (slot :: slots)
      | _ => sizeLookups repoPath sizeLimit rest
      end
  end.

Definition findLargeFiles (repoPath : string) (sizeLimit : Z) : M (list LargeFile) :=
  exit <- spawn env "git" ["rev-list"; "--objects"; "--all"] repoPath ;;
  match exit with
  | SpawnError e => throw e
  | Close (Some 0) output _ =>
      let lines := List.filter (fun line => truthy (trim line)) (split LF output) in
      results <- sizeLookups repoPath sizeLimit lines ;;
      ret (omap id results)
  | Close _ _ _ => throw "Failed to list git objects"
  end.

Definition removeLargeFilesWithFilterBranch (repoPath : string) (filePaths : list string)
  : M bool :=
  try_catch
    (log "Starting large file removal with git-filter-branch..." ;;
     let rmCommand :=
       join " && "
            (map (fun p => "git rm --cached --ignore-unmatch " +:+ dquote +:+ p +:+ dquote)
                 filePaths) in
     git env (Raw repoPath ["filter-branch"; "--force"; "--index-filter"; rmCommand;
                            "--prune-empty"; "--tag-name-filter"; "cat"; "--"; "--all"]) ;;
     log "Finished filter-branch. Now cleaning up refs/original/." ;;
     forEachRef <- git env (Raw repoPath ["for-each-ref"; "--format=%(refname)";
                                          "refs/original/"]) ;;
     let originalRefs :=
       List.filter (fun ref => negb (String.eqb (trim ref) EmptyString))
                   (split LF forEachRef) in
     forEach originalRefs
             (fun ref =>
                try_catch (git env (Raw repoPath ["update-ref"; "-d"; ref]) ;; ret tt)
                          (fun _ => logWarning ("Could not delete original ref: " +:+ ref))) ;;
     log "Successfully removed large files and original refs." ;;
     ret true)
    (fun e => throw ("Failed to remove large files with filter-branch: " +:+ e)).

Definition removeLargeFiles (repoPath : string) (largeFiles : list LargeFile) : M bool :=
  if (length largeFiles =? 0)%nat then ret true
  else
    log ("Removing " +:+ ofNat (length largeFiles)
         +:+ " large files from repository history...") ;;
    let filePaths := map path largeFiles in
    let args := ["filter-repo"; "--invert-paths"; "--force"]
                  ++ flat_map (fun p => ["--path"; p]) filePaths in
    exit <- spawn env "git" args repoPath ;;
    match exit with
    | Close (Some 0) _ _ =>
        log "Successfully removed large files using git-filter-repo." ;;
        ret true
    | Close _ _ _ =>
        logWarning "git-filter-repo failed, falling back to git-filter-branch." ;;
        removeLargeFilesWithFilterBranch repoPath filePaths
    | SpawnError _ =>
        logWarning "git-filter-repo not found, falling back to git-filter-branch." ;;
        fromError <- Async.start env (Async.removeLargeFilesWithFilterBranch
                                        this repoPath filePaths) ;;
        logWarning "git-filter-repo failed, falling back to git-filter-branch." ;;
        fromClose <- Async.start env (Async.removeLargeFilesWithFilterBranch
                                        this repoPath filePaths) ;;
        Async.settle env fromError fromClose
    end.

(** The [try] block of [pushToGitHub], entered after a first push that
    returned [false]. *)
Definition pushToGitHub_recover (repoPath authenticatedGithubUrl : string) : M unit :=
  largeFiles <- findLargeFiles repoPath defaultSizeLimit ;;
  if (0 <? length largeFiles)%nat then
    log ("Found " +:+ ofNat (length largeFiles) +:+ " large files:") ;;
    forEach largeFiles
            (fun file =>
               log ("  - " +:+ path file +:+ " ("
                    +:+ formatFileSize env (size file) +:+ ")")) ;;
    removeLargeFiles repoPath largeFiles ;;
    cleanupRepository repoPath ;;
    retrySuccess <- attemptPush repoPath authenticatedGithubUrl true ;;
    if retrySuccess then
      log "Successfully pushed after removing large files!" ;;
      ret tt
    else throw "Failed to push even after removing large files"
  else throw "Push failed but no large files found".

Definition pushToGitHub (repoPath githubCloneUrl githubToken githubUsername : string)
  : M unit :=
  authenticatedGithubUrl <- addAuthToUrl githubCloneUrl githubUsername githubToken ;;
  success <- attemptPush repoPath authenticatedGithubUrl false ;;
  if success then ret tt
  else
    log "Initial push failed, checking for large files..." ;;
    try_catch
      (pushToGitHub_recover repoPath authenticatedGithubUrl)
      (fun e => throw ("Failed to push to GitHub. Cleanup attempt failed: " +:+ e)).

(** The [finally] block of [mirrorRepository].  [repoPath] is the local
    variable declared before the [try]: [None] while it is [undefined]. *)
Definition removeWorkspace (repoPath : option string) : M unit :=
  match repoPath with
  | Some p =>
      if truthy p then
        try_catch (fs_rm env p)
                  (fun e => emit ConsoleWarn
                              ("Warning: Failed to cleanup temp directory " +:+ p
                               +:+ ": " +:+ e))
      else ret tt
  | None => ret tt
  end.

(** The [try] block assigns [repoPath] as soon as the clone has returned,
    so it is returned together with the completion; [catch] rethrows. *)
Definition mirrorRepository
           (bitbucketCloneUrl githubCloneUrl repoName : string)
           (bitbucketUsername bitbucketPassword githubToken githubUsername : string)
  : M bool :=
  fun s =>
    let '(completion, repoPath, s') :=
      match cloneRepository bitbucketCloneUrl repoName
                            bitbucketUsername bitbucketPassword s with
      | (Throw e, s1) => (Throw e, None, s1)
      | (Ok p, s1) =>
          let '(r, s2) :=
            (pushToGitHub p githubCloneUrl githubToken githubUsername ;; ret true) s1 in
          (r, Some p, s2)
      end in
    try_finally (fun s1 => (completion, s1)) (removeWorkspace repoPath) s'.

Definition cleanupTempDir : M unit :=
  try_catch (fs_rm env (tempDir this))
            (fun e => emit ConsoleWarn
                        ("Warning: Failed to cleanup temp directory: " +:+ e)).

End GitManager.

(** ** The earlier revision of the rewriter

    The repository also holds an earlier revision of the same class.  Its
    [removeLargeFiles] passes one negated glob to [filter-repo] and its
    fallback runs [filter-branch] once per path, walks the local branches,
    and ends with its own maintenance block, in which the backup
    references are listed with [--format=delete %(refname)] but the
    listing is not fed to anything.  [branchNames] stands for the parser
    behind [branches.all] of [simple-git]. *)

Module Earlier.
Section GitManager.
Context (env : Env) (this : GitManager) (branchNames : string -> list string).
Import JsString.

Definition removeLargeFilesWithFilterBranch (repoPath : string) (filePaths : list string)
  : M bool :=
  try_catch
    (log this "Starting comprehensive large file removal..." ;;
     forEach filePaths
             (fun filePath =>
                log this ("Removing " +:+ filePath +:+ " from repository history...") ;;
                try_catch
                  (git env (Raw repoPath
                                ["filter-branch"; "--force"; "--index-filter";
                                 "git rm --cached --ignore-unmatch "
                                   +:+ dquote +:+ filePath +:+ dquote;
                                 "--prune-empty"; "--tag-name-filter"; "cat"; "--"; "--all"]) ;;
                   branches <- git env (Branch repoPath ["-a"]) ;;
                   forEach (branchNames branches)
                           (fun branch =>
                              if startsWith "remotes/" branch || String.eqb branch "HEAD"
                              then ret tt
                              else
                                try_catch
                                  (git env (Checkout repoPath branch) ;;
                                   git env (Raw repoPath ["rm"; "--cached";
                                                          "--ignore-unmatch"; filePath]) ;;
                                   ret tt)
                                  (fun _ => ret tt)) ;;
                   log this ("Successfully removed " +:+ filePath))
                  (fun e => logWarning this ("Failed to remove " +:+ filePath
                                              +:+ ": " +:+ e))) ;;
     try_catch
       (git env (Raw repoPath ["for-each-ref"; "--format=delete %(refname)";
                               "refs/original/"]) ;;
        git env (Raw repoPath ["reflog"; "expire"; "--expire=now"; "--all"]) ;;
        git env (Raw repoPath ["gc"; "--prune=now"; "--aggressive"]) ;;
        git env (Raw repoPath ["repack"; "-ad"]) ;;
        log this "Completed comprehensive repository cleanup")
       (fun e => logWarning this ("Cleanup warning: " +:+ e)) ;;
     ret true)
    (fun e => throw ("Failed to remove large files: " +:+ e)).

Definition removeLargeFiles (repoPath : string) (largeFiles : list LargeFile) : M bool :=
  if (length largeFiles =? 0)%nat then ret true
  else
    log this ("Removing " +:+ ofNat (length largeFiles)
              +:+ " large files from repository history...") ;;
    let filePaths := map path largeFiles in
    exit <- spawn env "git"
                  ["filter-repo"; "--path-glob";
                   "!(" +:+ join "|" filePaths +:+ ")"; "--force"] repoPath ;;
    match exit with
    | Close (Some 0) _ _ =>
        log this "Successfully removed large files from repository history" ;;
        ret true
    | Close _ _ _ => removeLargeFilesWithFilterBranch repoPath filePaths
    | SpawnError _ =>
        fromError <- Async.start env (Async.Earlier.removeLargeFilesWithFilterBranch
                                        this branchNames repoPath filePaths) ;;
        fromClose <- Async.start env (Async.Earlier.removeLargeFilesWithFilterBranch
                                        this branchNames repoPath filePaths) ;;
        Async.settle env fromError fromClose
    end.

End GitManager.
End Earlier.

(** ** Reading the history *)

(** The sinks [log] and [logWarning] write to. *)
Definition infoSink (this : GitManager) : Sink :=
  if logger this then LoggerInfo else ConsoleLog.
Definition warnSink (this : GitManager) : Sink :=
  if logger this then LoggerWarning else ConsoleWarn.

(** The toolchain invocations that make up the recovery pipeline: the
    mirror push, the object enumeration of the scan, the [filter-repo]
    rewrite, its [filter-branch] fallback, and the two maintenance commands
    of [cleanupRepository]. *)
Inductive Step :=
| PushStep
| ScanStep
| RewriteStep
| FallbackStep
| ExpireStep
| GcStep.

#[global] Instance Step_eq_dec : EqDecision Step.
Proof. solve_decision. Defined.

Definition classify (e : Event) : option Step :=
  match e with
  | GitEvent (Push _ _ _ _) _ => Some PushStep
  | GitEvent (Raw _ (cmd :: _)) _ =>
      if String.eqb cmd "filter-branch" then Some FallbackStep
      else if String.eqb cmd "reflog" then Some ExpireStep
      else if String.eqb cmd "gc" then Some GcStep
      else None
  | SpawnEvent _ (cmd :: _) _ _ =>
      if String.eqb cmd "rev-list" then Some ScanStep
      else if String.eqb cmd "filter-repo" then Some RewriteStep
      else None
  | _ => None
  end.

(** The steps of a history, newest first like the history itself. *)
Fixpoint steps (h : list Event) : list Step :=
  match h with
  | [] => []
  | e :: h' =>
      match classify e with
      | Some st => st :: steps h'
      | None => steps h'
      end
  end.

Definition times (st : Step) (l : list Step) : nat := count_occ Step_eq_dec l st.

(** The [update-ref -d ref] calls of a history with their outcomes. *)
Definition deletion (e : Event) : option (string * Outcome) :=
  match e with
  | GitEvent (Raw _ [cmd; flag; ref]) outcome =>
      if String.eqb cmd "update-ref" && String.eqb flag "-d"
      then Some (ref, outcome) else None
  | _ => None
  end.

Fixpoint deletions (h : list Event) : list (string * Outcome) :=
  match h with
  | [] => []
  | e :: h' =>
      match deletion e with
      | Some d => d :: deletions h'
      | None => deletions h'
      end
  end.

(** The parsing steps of the scanner and of the fallback, named. *)
Definition objectLines (output : string) : list string :=
  List.filter (fun line => JsString.truthy (JsString.trim line))
              (JsString.split JsString.LF output).

Definition originalRefs (forEachRef : string) : list string :=
  List.filter (fun ref => negb (String.eqb (JsString.trim ref) EmptyString))
              (JsString.split JsString.LF forEachRef).

(** What one enumerated line stands for: the object name before the first
    space and the path after it; lines without a space carry no path. *)
Definition entry (line : string) : option (string * string) :=
  match JsString.split JsString.SP line with
  | hash :: ((_ :: _) as pathParts) => Some (hash, JsString.join " " pathParts)
  | _ => None
  end.

(** The size [getObjectSize] resolves with for a given exit of [cat-file]. *)
Definition sizeOfExit (exit : Exit) : Z :=
  match exit with
  | Close (Some 0) output _ =>
      match JsString.parseInt (JsString.trim output) with Some n => n | None => 0 end
  | _ => 0
  end.

(** A size lookup failed: the process could not be spawned or did not
    exit with code 0. *)
Definition lookupFailed (exit : Exit) : bool :=
  match exit with
  | Close (Some 0) _ _ => false
  | _ => true
  end.

Definition lookupEvent (repoPath : string) (obj : string * string) (exit : Exit) : Event :=
  SpawnEvent "git" ["cat-file"; "-s"; fst obj] repoPath exit.

(** The slot a lookup leaves in [results]. *)
Definition slotOf (sizeLimit : Z) (obj : string * string) (exit : Exit) : option LargeFile :=
  if sizeLimit <=? sizeOfExit exit
  then Some (mkLargeFile (snd obj) (sizeOfExit exit) (fst obj))
  else None.

Definition revListEvent (repoPath : string) (exit : Exit) : Event :=
  SpawnEvent "git" ["rev-list"; "--objects"; "--all"] repoPath exit.

(** The commands of the fallback and of the maintenance pass, named. *)
Definition filterBranchCommand (repoPath : string) (filePaths : list string) : GitCmd :=
  Raw repoPath
      ["filter-branch"; "--force"; "--index-filter";
       JsString.join " && "
         (map (fun p => "git rm --cached --ignore-unmatch "
                          +:+ JsString.dquote +:+ p +:+ JsString.dquote) filePaths);
       "--prune-empty"; "--tag-name-filter"; "cat"; "--"; "--all"].

Definition forEachRefCommand (repoPath : string) : GitCmd :=
  Raw repoPath ["for-each-ref"; "--format=%(refname)"; "refs/original/"].

Definition updateRefCommand (repoPath ref : string) : GitCmd :=
  Raw repoPath ["update-ref"; "-d"; ref].

Definition reflogExpireCommand (repoPath : string) : GitCmd :=
  Raw repoPath ["reflog"; "expire"; "--expire=now"; "--all"].

Definition gcCommand (repoPath : string) : GitCmd :=
  Raw repoPath ["gc"; "--prune=now"; "--aggressive"].

Definition pushCommand (repoPath : string) : GitCmd :=
  Push repoPath "github" "--mirror" ["--force"].

(** The [filter-branch] runs that a report of the [filter-repo] process
    leads to: none when it exited with code 0, one when it ended
    otherwise, two when it could not be started. *)
Definition fallbackRuns (exit : Exit) : list Step :=
  match exit with
  | Close (Some 0) _ _ => []
  | Close _ _ _ => [FallbackStep]
  | SpawnError _ => [FallbackStep; FallbackStep]
  end.


(** The calls of the fallback once [filter-branch] has been issued: the
    listing of the backup references and their deletion. *)
Definition refCleanup (repoPath : string) (cmd : GitCmd) : Prop :=
  cmd = forEachRefCommand repoPath \/ exists ref, cmd = updateRefCommand repoPath ref.

(** The ways the fallback can complete: it returns [true], or it throws
    its own error around the message of what went wrong. *)
Definition fallbackCompletion (completion : Res bool) : Prop :=
  completion = Ok true \/
  exists cause,
    completion = Throw ("Failed to remove large files with filter-branch: " +:+ cause).

(** What deleting one backup reference leaves in the history (newest
    first): the call, and a warning on top of it when it was rejected. *)
Definition deleteTrace (this : GitManager) (repoPath : string)
           (attempt : string * Outcome) : list Event :=
  match snd attempt with
  | Fulfilled _ => [GitEvent (updateRefCommand repoPath (fst attempt)) (snd attempt)]
  | Rejected _ =>
      [LogEvent (warnSink this) ("Could not delete original ref: " +:+ fst attempt);
       GitEvent (updateRefCommand repoPath (fst attempt)) (snd attempt)]
  end.

Fixpoint deleteTraces (this : GitManager) (repoPath : string)
         (attempts : list (string * Outcome)) : list Event :=
  match attempts with
  | [] => []
  | attempt :: rest => deleteTraces this repoPath rest ++ deleteTrace this repoPath attempt
  end.

Definition isLog (e : Event) : Prop :=
  match e with LogEvent _ _ => True | _ => False end.

(** [m] only ever adds events of kind [P] to the history. *)
Definition onlyAdds {A} (P : Event -> Prop) (m : M A) : Prop :=
  forall s, exists new, history (snd (m s)) = new ++ history s /\ Forall P new.

(** Events of the workspace: file-system calls and the clone. *)
Definition isWorkspaceEvent (e : Event) : Prop :=
  match e with
  | FsEvent _ _ => True
  | GitEvent (Clone _ _ _) _ => True
  | _ => False
  end.

(** Events of [ensureTempDir]: the base directory is probed or created. *)
Definition isBaseDirEvent (base : string) (e : Event) : Prop :=
  match e with
  | FsEvent (Access p) _ => p = base
  | FsEvent (Mkdir p) _ => p = base
  | _ => False
  end.

(** ** Scenarios

    Assumptions on the environment under which the pipeline properties are
    stated: what the toolchain answers whenever it is asked. *)

(** [git remote add github url] is accepted. *)
Definition remoteAccepted (env : Env) (repoPath url : string) : Prop :=
  forall st, exists out, git_run env st (AddRemote repoPath "github" url) = Fulfilled out.

(** Every mirror push is rejected, with a message satisfying [P]. *)
Definition pushRejected (env : Env) (repoPath : string) (P : string -> Prop) : Prop :=
  forall st, exists msg, git_run env st (pushCommand repoPath) = Rejected msg /\ P msg.

(** The scan finds at least one large file. *)
Definition scanFinds (env : Env) (repoPath : string) : Prop :=
  forall st, exists files,
    fst (findLargeFiles env repoPath defaultSizeLimit st) = Ok files /\ files <> [].

(** The scan runs and finds nothing. *)
Definition scanFindsNothing (env : Env) (repoPath : string) : Prop :=
  forall st, fst (findLargeFiles env repoPath defaultSizeLimit st) = Ok [].

(** The rewrite returns normally, by either strategy. *)
Definition rewriteSucceeds (env : Env) (this : GitManager) (repoPath : string) : Prop :=
  forall st files, exists b, fst (removeLargeFiles env this repoPath files st) = Ok b.

(** The two signatures as the specification words them, and the
    classification they would give. *)
Definition specSizeLimitSignature : string := "exceeds file size limit".
Definition specLargeFilesSignature : string := "large files detected".

Definition specIsLargeFileError (errorMessage : string) : bool :=
  JsString.includes specSizeLimitSignature errorMessage
  || JsString.includes specLargeFilesSignature errorMessage.

(** [sub] occurs in [s]. *)
Definition occursIn (sub s : string) : Prop :=
  exists pre post, s = pre +:+ sub +:+ post.

(** ** Example worlds *)

Module Worlds.

(** A toolchain following a fixed script.  [git clone] refuses a target
    that already exists; [new URL] accepts everything and the credentials
    are left out of the URL; [path.join] puts a slash between its
    arguments. *)
Definition scripted (pushAnswer : Outcome) (listing : Exit) (sizeOf : string -> Exit)
           (filterRepo : Exit) (raw : list string -> Outcome)
           (fault : FsOp -> option string) : Env :=
  mkEnv (fun dir name => dir +:+ "/" +:+ name)
        (fun url _ _ => Some url)
        (fun _ => "?")
        (fun _ op => fault op)
        (fun st cmd =>
           match cmd with
           | Clone _ dir _ =>
               if decide (dir ∈ fs st)
               then Rejected "fatal: destination path already exists and is not an empty directory."
               else Fulfilled EmptyString
           | Push _ _ _ _ => pushAnswer
           | Raw _ args => raw args
           | _ => Fulfilled EmptyString
           end)
        (fun _ _ args _ =>
           match args with
           | "rev-list" :: _ => listing
           | ["cat-file"; "-s"; h] => sizeOf h
           | "filter-repo" :: _ => filterRepo
           | _ => Close (Some 0) EmptyString EmptyString
           end)
        (fun _ => []).

Definition nl : string := String JsString.LF EmptyString.
Definition done : Exit := Close (Some 0) EmptyString EmptyString.
Definition noFault : FsOp -> option string := fun _ => None.
Definition rawOk : list string -> Outcome := fun _ => Fulfilled EmptyString.

Definition manager : GitManager := mkGitManager "temp" false.
Definition start : State := mkState ∅ [].

(** One 150 MiB blob at [assets/video.mp4] and one small file. *)
Definition oneLargeListing : Exit :=
  Close (Some 0) ("aaa1 assets/video.mp4" +:+ nl +:+ "bbb2 README.md" +:+ nl +:+ "ccc3" +:+ nl)
        EmptyString.
Definition oneLargeSizes (h : string) : Exit :=
  if String.eqb h "aaa1" then Close (Some 0) ("157286400" +:+ nl) EmptyString
  else Close (Some 0) ("1024" +:+ nl) EmptyString.

Definition githubRejection : string :=
  "remote: error: GH001: Large files detected. remote: error: File assets/video.mp4 is 150.00 MB; this exceeds GitHub's file size limit of 100.00 MB".

(** The destination keeps rejecting the push as too large. *)
Definition stubborn : Env :=
  scripted (Rejected githubRejection) oneLargeListing oneLargeSizes done rawOk noFault.

(** The push is rejected as too large but the scan finds only small files. *)
Definition falseAlarm : Env :=
  scripted (Rejected githubRejection) oneLargeListing
           (fun _ => Close (Some 0) ("1024" +:+ nl) EmptyString) done rawOk noFault.

(** The push is rejected for an unrelated reason. *)
Definition denied : Env :=
  scripted (Rejected "remote: Permission to demo.git denied to user.")
           oneLargeListing oneLargeSizes done rawOk noFault.

(** The push is rejected with the wording of the specification. *)
Definition specWording : Env :=
  scripted (Rejected "remote: error: File assets/video.mp4 exceeds file size limit")
           oneLargeListing oneLargeSizes done rawOk noFault.

(** Two versions of [assets/video.mp4], both above the limit. *)
Definition twoVersionsListing : Exit :=
  Close (Some 0) ("aaa1 assets/video.mp4" +:+ nl +:+ "bbb2 assets/video.mp4" +:+ nl)
        EmptyString.
Definition twoVersions : Env :=
  scripted (Rejected githubRejection) twoVersionsListing
           (fun _ => Close (Some 0) ("157286400" +:+ nl) EmptyString) done rawOk noFault.

(** The size of [bbb2] cannot be looked up: [cat-file] exits with 128. *)
Definition brokenLookup : Env :=
  scripted (Rejected githubRejection) twoVersionsListing
           (fun h => if String.eqb h "bbb2"
                     then Close (Some 128) EmptyString "fatal: git cat-file: could not get object info"
                     else Close (Some 0) ("157286400" +:+ nl) EmptyString)
           done rawOk noFault.

(** [filter-repo] is not usable, [filter-branch] leaves two backup
    references, and the second of them cannot be deleted. *)
Definition backupRefs : string :=
  "refs/original/refs/heads/main" +:+ nl +:+ "refs/original/refs/tags/v1" +:+ nl.

Definition fallbackRaw (args : list string) : Outcome :=
  match args with
  | "for-each-ref" :: _ => Fulfilled backupRefs
  | ["update-ref"; "-d"; ref] =>
      if String.eqb ref "refs/original/refs/tags/v1"
      then Rejected "error: cannot lock ref 'refs/original/refs/tags/v1'"
      else Fulfilled EmptyString
  | _ => Fulfilled EmptyString
  end.

Definition fallbackOnly : Env :=
  scripted (Rejected githubRejection) oneLargeListing oneLargeSizes
           (Close (Some 1) EmptyString "git: 'filter-repo' is not a git command.")
           fallbackRaw noFault.

(** Everything works. *)
Definition smooth : Env :=
  scripted (Fulfilled EmptyString) oneLargeListing oneLargeSizes done rawOk noFault.

(** Everything works except that nothing can be removed from disk. *)
Definition busy : Env :=
  scripted (Fulfilled EmptyString) oneLargeListing oneLargeSizes done rawOk
           (fun op => match op with
                      | Rm _ => Some "EBUSY: resource busy or locked"
                      | _ => None
                      end).

(** The job used in the examples: repository [demo] of a Bitbucket
    workspace, mirrored to GitHub through the workspace [temp/demo]. *)
Definition source : string := "https://bitbucket.org/team/demo.git".
Definition destination : string := "https://github.com/org/demo.git".

Definition mirrorDemo (env : Env) : M bool :=
  mirrorRepository env manager source destination "demo"
                   "user" "app-password" "token" "octocat".

Definition cloneDemo (env : Env) : M string :=
  cloneRepository env manager source "demo" "user" "app-password".

End Worlds.

(** File-system calls. *)
Definition isFsEvent (e : Event) : Prop :=
  match e with FsEvent _ _ => True | _ => False end.

(** ** Further scenarios *)

(** Every mirror push is accepted. *)
Definition pushAccepted (env : Env) (repoPath : string) : Prop :=
  forall st, exists out, git_run env st (pushCommand repoPath) = Fulfilled out.

(** The answer to a mirror push is decided by the pipeline steps taken so
    far: the remote sees the repository the earlier steps have left. *)
Definition pushAnswersBy (env : Env) (repoPath : string)
           (answer : list Step -> Outcome) : Prop :=
  forall st, git_run env st (pushCommand repoPath) = answer (steps (history st)).

(** A [filter-repo] run is among the steps taken. *)
Definition rewritten (taken : list Step) : bool :=
  existsb (fun st => bool_decide (st = RewriteStep)) taken.

(** The remote answers [before] until the history has been rewritten and
    [after] from then on. *)
Definition afterRewrite (before after : Outcome) (taken : list Step) : Outcome :=
  if rewritten taken then after else before.

(** The enumeration of the scan never exits with code 0. *)
Definition scanFails (env : Env) (repoPath : string) (e : string) : Prop :=
  forall st, fst (findLargeFiles env repoPath defaultSizeLimit st) = Throw e.

(** More example worlds. *)
Module MoreWorlds.

(** [base] with the mirror push answered from the steps taken so far. *)
Definition answering (answer : list Step -> Outcome) (base : Env) : Env :=
  mkEnv (path_join base) (url_with_auth base) (formatFileSize base) (fs_fault base)
        (fun st cmd =>
           match cmd with
           | Push _ _ _ _ => answer (steps (history st))
           | _ => git_run base st cmd
           end)
        (spawn_run base) (resumes base).

(** The destination accepts the push once the large file is gone. *)
Definition recovering : Env :=
  answering (afterRewrite (Rejected Worlds.githubRejection) (Fulfilled EmptyString))
            Worlds.stubborn.

(** After the rewrite the destination rejects the push for another reason. *)
Definition revoked : Env :=
  answering (afterRewrite (Rejected Worlds.githubRejection)
                          (Rejected "remote: Invalid username or token."))
            Worlds.stubborn.

(** The objects of the clone cannot be enumerated. *)
Definition unreadable : Env :=
  Worlds.scripted (Rejected Worlds.githubRejection)
                  (Close (Some 128) EmptyString "fatal: bad object HEAD")
                  Worlds.oneLargeSizes Worlds.done Worlds.rawOk Worlds.noFault.


(** Neither [filter-repo] nor [filter-branch] can be run. *)
Definition noRewriter : Env :=
  Worlds.scripted (Rejected Worlds.githubRejection) Worlds.oneLargeListing Worlds.oneLargeSizes
                  (SpawnError "spawn git ENOENT")
                  (fun args =>
                     match args with
                     | "filter-branch" :: _ => Rejected "fatal: filter-branch is not available"
                     | _ => Fulfilled EmptyString
                     end)
                  Worlds.noFault.

(** [base] with a fixed order in which two waiting runs are resumed. *)
Definition scheduled (order : list bool) (base : Env) : Env :=
  mkEnv (path_join base) (url_with_auth base) (formatFileSize base) (fs_fault base)
        (git_run base) (spawn_run base) (fun _ => order).

(** The [filter-repo] process cannot be started, [filter-branch] works as
    in [Worlds.fallbackOnly], and of the two runs of the fallback the one
    started second is answered faster: it is resumed first, then the
    other run once, then it alone. *)
Definition overtaken : Env :=
  scheduled [false; true; false; false; false]
            (Worlds.scripted (Rejected Worlds.githubRejection)
                             Worlds.oneLargeListing Worlds.oneLargeSizes
                             (SpawnError "spawn git EAGAIN")
                             Worlds.fallbackRaw Worlds.noFault).

(** The source cannot be cloned. *)
Definition unreachable : Env :=
  mkEnv (path_join Worlds.smooth) (url_with_auth Worlds.smooth) (formatFileSize Worlds.smooth)
        (fs_fault Worlds.smooth)
        (fun st cmd =>
           match cmd with
           | Clone _ _ _ => Rejected "fatal: unable to access the repository"
           | _ => git_run Worlds.smooth st cmd
           end)
        (spawn_run Worlds.smooth) (resumes Worlds.smooth).

(** The remote cannot be configured. *)
Definition remoteLocked : Env :=
  mkEnv (path_join Worlds.smooth) (url_with_auth Worlds.smooth) (formatFileSize Worlds.smooth)
        (fs_fault Worlds.smooth)
        (fun st cmd =>
           match cmd with
           | AddRemote _ _ _ => Rejected "error: could not lock config file config"
           | _ => git_run Worlds.smooth st cmd
           end)
        (spawn_run Worlds.smooth) (resumes Worlds.smooth).

(** [new URL] rejects every address. *)
Definition badAddress : Env :=
  mkEnv (path_join Worlds.smooth) (fun _ _ _ => None) (formatFileSize Worlds.smooth)
        (fs_fault Worlds.smooth) (git_run Worlds.smooth) (spawn_run Worlds.smooth)
        (resumes Worlds.smooth).

End MoreWorlds.

(** What a command prints for a list of lines: each followed by a line
    feed. *)
Fixpoint printedLines (lines : list string) : string :=
  match lines with
  | [] => EmptyString
  | line :: rest => line +:+ String JsString.LF (printedLines rest)
  end.

(** A line that survives the blank-line filter and is a single line. *)
Definition isLine (line : string) : Prop :=
  JsString.trim line <> EmptyString /\
  JsString.includes (String JsString.LF EmptyString) line = false.

(** Every character of [s] satisfies [p]. *)
Fixpoint allChars (p : ascii -> bool) (s : string) : bool :=
  match s with
  | EmptyString => true
  | String c s' => p c && allChars p s'
  end.

(** A decimal numeral: digits, at least one. *)
Definition isNumeral (d : string) : Prop :=
  d <> EmptyString /\ allChars FilePattern.is_digit d = true.

(** The texts the pattern [/File (.+?) is \d+\.\d+ MB/] stands for. *)
Definition reportedFile (m : string) : Prop :=
  exists name whole fraction,
    m = "File " +:+ name +:+ " is " +:+ whole +:+ "." +:+ fraction +:+ " MB" /\
    name <> EmptyString /\
    FilePattern.noLineTerminator name = true /\
    isNumeral whole /\ isNumeral fraction.


(** * The driver [BitToHubMigrator]

    [src/index.js] lists the repositories of a Bitbucket workspace,
    creates each on GitHub and mirrors it with [GitManager].  The two API
    clients are met here through the results of their methods, answered
    by an oracle like the toolchain is; the logger and the [ora] spinners
    are sinks whose calls are recorded in a journal. *)

(** What [BitbucketAPI] returns for a repository. *)
Module Bitbucket.
Record Repository := mkRepository {
  name : string;
  slug : string;
  fullName : string;
  description : string;
  isPrivate : bool;
  cloneUrl : string;
  language : string;
  size : Z;
  updatedOn : string;
  hasIssues : bool;
  hasWiki : bool
}.
End Bitbucket.

(** What [GitHubAPI] returns for a repository; [description] is only set
    by [getRepository] and may be [null] there. *)
Module GitHub.
Record Repository := mkRepository {
  name : string;
  fullName : string;
  description : option string;
  isPrivate : bool;
  cloneUrl : string;
  sshUrl : string;
  htmlUrl : string
}.
End GitHub.

Module Migrator.

(** How a call of the driver ends: it returns, it throws, or the process
    has been ended with [process.exit(code)]. *)
Inductive Completion (A : Type) :=
| Returned (value : A)
| Thrown (message : string)
| Exited (code : Z).
Arguments Returned {A} value.
Arguments Thrown {A} message.
Arguments Exited {A} code.

(** [this.stats] *)
Record Stats := mkStats {
  total : nat;
  success : nat;
  failed : nat;
  skipped : nat
}.

(** The methods of the logger that print one message. *)
Inductive Level := Info | Success | Warning | Error | Progress.

Inductive SpinnerAction := Start | Succeed | Fail.

(** The methods of the two API clients the driver calls. *)
Inductive Call :=
| BitbucketGetAllRepositories
| BitbucketGetRepository (repoName : string)
| GitHubRepositoryExists (repoName : string)
| GitHubCreateRepository (repoData : Bitbucket.Repository)
| GitHubGetRepository (repoName : string).

Inductive Entry :=
| Logged (level : Level) (message : string)
| Separator
| Summary (stats : Stats)
| Spinner (action : SpinnerAction) (text : string)
| Asked (call : Call).

(** The state of a run: the world of [GitManager], the counters, and the
    journal of what was logged and asked, newest entry first. *)
Record World := mkWorld {
  disk : State;
  stats : Stats;
  journal : list Entry
}.

(** The answers of the API clients, decided from the current state. *)
Record Clients := mkClients {
  bitbucket_getAllRepositories : World -> Res (list Bitbucket.Repository);
  bitbucket_getRepository : World -> string -> Res Bitbucket.Repository;
  github_repositoryExists : World -> string -> Res bool;
  github_createRepository : World -> Bitbucket.Repository -> Res GitHub.Repository;
  github_getRepository : World -> string -> Res GitHub.Repository
}.

(** The options [commander] hands to the constructor: [--dry-run] sets
    [dryRun], [--no-skip-existing] sets [skipExisting] to [false] (it is
    [true] otherwise, and [undefined] for the [list] command),
    [--temp-dir] sets [tempDir]. *)
Record Options := mkOptions {
  options_dryRun : bool;
  options_skipExisting : option bool;
  options_tempDir : option string
}.

(** The fields of the object and [process.env], which the methods read
    when they need a credential. *)
Record BitToHubMigrator := mkBitToHubMigrator {
  dryRun : bool;
  skipExisting : bool;
  tempDir : string;
  processEnv : gmap string string
}.

Definition D (A : Type) : Type := World -> Completion A * World.

Definition ret {A} (a : A) : D A := fun w => (Returned a, w).

Definition throw {A} (message : string) : D A := fun w => (Thrown message, w).

(** [process.exit(code)]: nothing of the program runs after it. *)
Definition exit {A} (code : Z) : D A := fun w => (Exited code, w).

Definition bind {A B} (m : D A) (k : A -> D B) : D B :=
  fun w => match m w with
           | (Returned a, w') => k a w'
           | (Thrown e, w') => (Thrown e, w')
           | (Exited c, w') => (Exited c, w')
           end.

Definition try_catch {A} (m : D A) (handler : string -> D A) : D A :=
  fun w => match m w with
           | (Thrown e, w') => handler e w'
           | completed => completed
           end.

Declare Scope driver_scope.
Delimit Scope driver_scope with driver.
Notation "x <- m ;; k" := (bind m (fun x => k))
  (at level 100, m at next level, right associativity) : driver_scope.
Notation "m ;; k" := (bind m (fun _ => k))
  (at level 100, right associativity) : driver_scope.
Local Open Scope driver_scope.

Definition note (e : Entry) (w : World) : World :=
  mkWorld (disk w) (stats w) (e :: journal w).

Definition logger (level : Level) (message : string) : D unit :=
  fun w => (Returned tt, note (Logged level message) w).

Definition separator : D unit := fun w => (Returned tt, note Separator w).

(** [this.logger.summary(this.stats)] *)
Definition summary : D unit := fun w => (Returned tt, note (Summary (stats w)) w).

Definition spinner (action : SpinnerAction) (text : string) : D unit :=
  fun w => (Returned tt, note (Spinner action text) w).

Definition setStats (f : Stats -> Stats) : D unit :=
  fun w => (Returned tt, mkWorld (disk w) (f (stats w)) (journal w)).

(** An awaited method of an API client. *)
Definition ask {A} (call : Call) (answer : World -> Res A) : D A :=
  fun w => match answer w with
           | Ok a => (Returned a, note (Asked call) w)
           | Throw e => (Thrown e, note (Asked call) w)
           end.

(** An awaited method of [this.git], run on the [GitManager] world. *)
Definition onDisk {A} (m : M A) : D A :=
  fun w => match m (disk w) with
           | (Ok a, s) => (Returned a, mkWorld s (stats w) (journal w))
           | (Throw e, s) => (Thrown e, mkWorld s (stats w) (journal w))
           end.

(** [process.env[key]] inside a template literal or handed to
    [encodeURIComponent]: an unset variable reads [undefined]. *)
Definition envText (processEnv : gmap string string) (key : string) : string :=
  match processEnv !! key with
  | Some value => value
  | None => "undefined"
  end.

(** [a || b] on strings *)
Definition orElse (a b : string) : string := if JsString.truthy a then a else b.

(** *** The constructor *)

Definition required : list string :=
  ["BITBUCKET_USERNAME"; "BITBUCKET_APP_PASSWORD"; "BITBUCKET_WORKSPACE";
   "GITHUB_TOKEN"; "GITHUB_USERNAME"].

(** [!process.env[key]]: unset or empty. *)
Definition unset (processEnv : gmap string string) (key : string) : bool :=
  match processEnv !! key with
  | Some value => negb (JsString.truthy value)
  | None => true
  end.

Definition validateEnvironment (processEnv : gmap string string) : D unit :=
  let missing := List.filter (unset processEnv) required in
  if (0 <? length missing)%nat then
    logger Error ("Missing required environment variables: " +:+ JsString.join ", " missing) ;;
    logger Info "Please check your .env file and ensure all variables are set." ;;
    exit 1
  else ret tt.

Definition constructor (options : Options) (processEnv : gmap string string)
  : D BitToHubMigrator :=
  let this :=
    mkBitToHubMigrator
      (options_dryRun options
       || bool_decide (processEnv !! "DRY_RUN" = Some "true"))
      (negb (bool_decide (options_skipExisting options = Some false))
       && negb (bool_decide (processEnv !! "SKIP_EXISTING" = Some "false")))
      (match options_tempDir options with
       | Some dir => orElse dir (orElse (default EmptyString (processEnv !! "TEMP_DIR")) "./temp")
       | None => orElse (default EmptyString (processEnv !! "TEMP_DIR")) "./temp"
       end)
      processEnv in
  validateEnvironment processEnv ;;
  ret this.

Section Methods.
Context (env : Env) (clients : Clients) (this : BitToHubMigrator).

(** [this.git = new GitManager(this.tempDir)]: no logger is injected. *)
Definition git : GitManager := mkGitManager (tempDir this) false.

Definition migrateRepository (repo : Bitbucket.Repository) : D unit :=
  exists_ <- ask (GitHubRepositoryExists (Bitbucket.name repo))
                 (fun w => github_repositoryExists clients w (Bitbucket.name repo)) ;;
  if skipExisting this && exists_ then
    logger Warning ("Repository " +:+ Bitbucket.name repo
                    +:+ " already exists on GitHub - skipping") ;;
    setStats (fun st => mkStats (total st) (success st) (failed st) (S (skipped st))) ;;
    ret tt
  else if dryRun this then
    logger Info ("[DRY RUN] Would migrate: " +:+ Bitbucket.name repo) ;;
    logger Info ("  - Description: "
                 +:+ orElse (Bitbucket.description repo) "No description") ;;
    logger Info ("  - Private: " +:+ (if Bitbucket.isPrivate repo then "Yes" else "No")) ;;
    logger Info ("  - Language: " +:+ Bitbucket.language repo) ;;
    ret tt
  else
    githubRepo <-
      (if negb exists_ then
         spinner Start ("Creating " +:+ Bitbucket.name repo +:+ " on GitHub...") ;;
         try_catch
           (created <- ask (GitHubCreateRepository repo)
                           (fun w => github_createRepository clients w repo) ;;
            spinner Succeed ("Created repository: " +:+ GitHub.fullName created) ;;
            ret created)
           (fun e =>
              spinner Fail ("Failed to create " +:+ Bitbucket.name repo) ;;
              throw e)
       else
         logger Info ("Repository " +:+ Bitbucket.name repo
                      +:+ " already exists, updating content...") ;;
         ask (GitHubGetRepository (Bitbucket.name repo))
             (fun w => github_getRepository clients w (Bitbucket.name repo))) ;;
    spinner Start "Mirroring repository content..." ;;
    try_catch
      (onDisk (mirrorRepository env git
                 (Bitbucket.cloneUrl repo) (GitHub.cloneUrl githubRepo) (Bitbucket.name repo)
                 (envText (processEnv this) "BITBUCKET_USERNAME")
                 (envText (processEnv this) "BITBUCKET_APP_PASSWORD")
                 (envText (processEnv this) "GITHUB_TOKEN")
                 (envText (processEnv this) "GITHUB_USERNAME")) ;;
       spinner Succeed ("Successfully mirrored: " +:+ Bitbucket.name repo) ;;
       logger Success ("✅ Migration completed: " +:+ GitHub.htmlUrl githubRepo))
      (fun e =>
         spinner Fail ("Failed to mirror " +:+ Bitbucket.name repo) ;;
         throw e).

Definition countSuccess : D unit :=
  setStats (fun st => mkStats (total st) (S (success st)) (failed st) (skipped st)).

Definition countFailed : D unit :=
  setStats (fun st => mkStats (total st) (success st) (S (failed st)) (skipped st)).

Definition setTotal (n : nat) : D unit :=
  setStats (fun st => mkStats n (success st) (failed st) (skipped st)).

(** The [for] loop of [migrateAll] from index [i] on; [count] is
    [repositories.length]. *)
Fixpoint migrateEach (count i : nat) (repositories : list Bitbucket.Repository) : D unit :=
  match repositories with
  | [] => ret tt
  | repo :: rest =>
      logger Progress ("[" +:+ JsString.ofNat (i + 1) +:+ "/" +:+ JsString.ofNat count
                       +:+ "] Processing: " +:+ Bitbucket.name repo) ;;
      try_catch
        (migrateRepository repo ;; countSuccess)
        (fun e =>
           logger Error ("Failed to migrate " +:+ Bitbucket.name repo +:+ ": " +:+ e) ;;
           countFailed) ;;
      separator ;;
      migrateEach count (S i) rest
  end.

Definition announceDryRun : D unit :=
  if dryRun this then
    logger Warning "DRY RUN MODE - No actual changes will be made" ;;
    separator
  else ret tt.

(** The [try] block of [migrateAll] once the repositories are known. *)
Definition migrateListed (repositories : list Bitbucket.Repository) : D unit :=
  spinner Succeed ("Found " +:+ JsString.ofNat (length repositories)
                   +:+ " repositories in Bitbucket workspace") ;;
  setTotal (length repositories) ;;
  migrateEach (length repositories) 0 repositories ;;
  onDisk (cleanupTempDir env git) ;;
  summary.

Definition migrateAll : D unit :=
  logger Info "🚀 Starting Bitbucket to GitHub migration..." ;;
  separator ;;
  announceDryRun ;;
  spinner Start "Fetching repositories from Bitbucket..." ;;
  try_catch
    (repositories <- ask BitbucketGetAllRepositories
                         (bitbucket_getAllRepositories clients) ;;
     migrateListed repositories)
    (fun e =>
       spinner Fail "Failed to fetch repositories from Bitbucket" ;;
       logger Error e ;;
       exit 1).

(** The [for ... of] loop of [migrateSpecific]. *)
Fixpoint migrateNamed (repoNames : list string) : D unit :=
  match repoNames with
  | [] => ret tt
  | repoName :: rest =>
      logger Progress ("Processing: " +:+ repoName) ;;
      try_catch
        (repo <- ask (BitbucketGetRepository repoName)
                     (fun w => bitbucket_getRepository clients w repoName) ;;
         migrateRepository repo ;;
         countSuccess)
        (fun e =>
           logger Error ("Failed to migrate " +:+ repoName +:+ ": " +:+ e) ;;
           countFailed) ;;
      separator ;;
      migrateNamed rest
  end.

Definition migrateSpecific (repoNames : list string) : D unit :=
  logger Info ("🎯 Migrating specific repositories: " +:+ JsString.join ", " repoNames) ;;
  separator ;;
  announceDryRun ;;
  setTotal (length repoNames) ;;
  migrateNamed repoNames ;;
  onDisk (cleanupTempDir env git) ;;
  summary.

End Methods.

End Migrator.

(** The repositories GitHub was asked about, newest first. *)
Definition existsCalls (j : list Migrator.Entry) : list string :=
  omap (fun entry =>
          match entry with
          | Migrator.Asked (Migrator.GitHubRepositoryExists repoName) => Some repoName
          | _ => None
          end) j.

(** The repositories that were to be created on GitHub, newest first. *)
Definition createCalls (j : list Migrator.Entry) : list Bitbucket.Repository :=
  omap (fun entry =>
          match entry with
          | Migrator.Asked (Migrator.GitHubCreateRepository repoData) => Some repoData
          | _ => None
          end) j.

(** Example workspaces for the driver. *)
Module Workspaces.

Definition bitbucketRepo (repoName : string) : Bitbucket.Repository :=
  Bitbucket.mkRepository repoName repoName ("team/" +:+ repoName) EmptyString true
                         ("https://bitbucket.org/team/" +:+ repoName +:+ ".git")
                         "Unknown" 0 "2024-05-01T10:00:00.000000+00:00" true false.

Definition githubRepo (repoName : string) : GitHub.Repository :=
  GitHub.mkRepository repoName ("org/" +:+ repoName) None true
                      ("https://github.com/org/" +:+ repoName +:+ ".git")
                      ("git@github.com:org/" +:+ repoName +:+ ".git")
                      ("https://github.com/org/" +:+ repoName).

(** Bitbucket answers the listing with [listing] and describes every
    repository it is asked for; GitHub has the repositories [onGitHub]
    names and creates any other. *)
Definition clients (listing : Res (list Bitbucket.Repository)) (onGitHub : string -> bool)
  : Migrator.Clients :=
  Migrator.mkClients (fun _ => listing)
                     (fun _ repoName => Ok (bitbucketRepo repoName))
                     (fun _ repoName => Ok (onGitHub repoName))
                     (fun _ repoData => Ok (githubRepo (Bitbucket.name repoData)))
                     (fun _ repoName => Ok (githubRepo repoName)).

(** Bitbucket describes no repository. *)
Definition unknown : Migrator.Clients :=
  Migrator.mkClients (fun _ => Ok [])
                     (fun _ repoName => Throw ("Failed to fetch repository " +:+ repoName
                                               +:+ ": Request failed with status code 404"))
                     (fun _ _ => Ok false)
                     (fun _ repoData => Ok (githubRepo (Bitbucket.name repoData)))
                     (fun _ repoName => Ok (githubRepo repoName)).

Definition credentials : gmap string string :=
  list_to_map [("BITBUCKET_USERNAME", "user"); ("BITBUCKET_APP_PASSWORD", "app-password");
               ("BITBUCKET_WORKSPACE", "team"); ("GITHUB_TOKEN", "token");
               ("GITHUB_USERNAME", "octocat")].

Definition migrator : Migrator.BitToHubMigrator :=
  Migrator.mkBitToHubMigrator false true "temp" credentials.

Definition rehearsal : Migrator.BitToHubMigrator :=
  Migrator.mkBitToHubMigrator true true "temp" credentials.

Definition twoRepositories : list Bitbucket.Repository :=
  [bitbucketRepo "demo"; bitbucketRepo "docs"].

Definition start : Migrator.World :=
  Migrator.mkWorld Worlds.start (Migrator.mkStats 0 0 0 0) [].

End Workspaces.

(** * The API clients

    [src/lib/github.js] and [src/lib/bitbucket.js] talk to the two
    services through [axios].  A request is answered by an oracle from the
    requests sent so far; of a response the code reads [data], of an error
    its [message].  The
    two listing methods loop until the service says there is nothing
    more, so they are run with a bound on the number of requests: [None]
    means that the loop was still running when the bound was reached.

    Both clients are created with a [baseURL] and asked for addresses
    that start with a slash.  For GitHub the requests are named by these
    addresses; for Bitbucket, where an address is also taken from a link
    of the service, by the full address [axios] makes of them. *)

Module Axios.

(** A rejected request: the code reads [error.message]. *)
Record Error := mkError {
  message : string
}.

Inductive Reply (D : Type) :=
| Responded (data : D)
| Failed (error : Error).
Arguments Responded {D} data.
Arguments Failed {D} error.

(** *** The address of a request

    A client created with a [baseURL] sends a request for [url] to [url]
    itself when [url] is absolute, that is, matches
    [/^([a-z][a-z\d+\-.]*:)?\/\//i], and otherwise to the two joined by
    one slash: [baseURL.replace(/\/?\/$/, '') + '/' +
    url.replace(/^\/+/, '')]. *)
Definition is_letter (c : ascii) : bool :=
  let n := nat_of_ascii c in
  ((65 <=? n)%nat && (n <=? 90)%nat) || ((97 <=? n)%nat && (n <=? 122)%nat).

Definition is_scheme_char (c : ascii) : bool :=
  let n := nat_of_ascii c in
  is_letter c || ((48 <=? n)%nat && (n <=? 57)%nat)
  || (n =? 43)%nat || (n =? 45)%nat || (n =? 46)%nat.

(** What follows [[a-z\d+\-.]*:] at the start of [s]. *)
Fixpoint after_scheme (s : string) : option string :=
  match s with
  | String c s' =>
      if (nat_of_ascii c =? 58)%nat then Some s'
      else if is_scheme_char c then after_scheme s' else None
  | EmptyString => None
  end.

Definition isAbsoluteURL (url : string) : bool :=
  JsString.startsWith "//" url
  || match url with
     | String c rest =>
         is_letter c
         && match after_scheme rest with
            | Some behind => JsString.startsWith "//" behind
            | None => false
            end
     | EmptyString => false
     end.

Fixpoint dropLeadingSlashes (s : string) : string :=
  match s with
  | String c s' => if (nat_of_ascii c =? 47)%nat then dropLeadingSlashes s' else s
  | EmptyString => EmptyString
  end.

(** [s.replace(/\/?\/$/, '')]: one slash or two at the end are removed. *)
Fixpoint dropFinalSlashes (s : string) : string :=
  match s with
  | EmptyString => EmptyString
  | String c s' =>
      if String.eqb s "/" || String.eqb s "//" then EmptyString
      else String c (dropFinalSlashes s')
  end.

Definition combineURLs (baseURL relativeURL : string) : string :=
  if JsString.truthy relativeURL
  then dropFinalSlashes baseURL +:+ "/" +:+ dropLeadingSlashes relativeURL
  else baseURL.

Definition buildFullPath (baseURL requestedURL : string) : string :=
  if JsString.truthy baseURL && negb (isAbsoluteURL requestedURL)
  then combineURLs baseURL requestedURL
  else requestedURL.

End Axios.

Module GitHubAPI.

(** A repository in a response of the GitHub API, as far as it is read;
    [description] may be [null]. *)
Record RepoData := mkRepoData {
  name : string;
  full_name : string;
  description : option string;
  private : bool;
  clone_url : string;
  ssh_url : string;
  html_url : string
}.

(** The requests sent so far, newest first. *)
Definition Log : Type := list string.

Record Server := mkServer {
  get_many : Log -> string -> Axios.Reply (list RepoData)
}.

(** [organization] is [null] unless the constructor was given one. *)
Record GitHubAPI := mkGitHubAPI {
  token : string;
  username : string;
  organization : option string
}.

Section Methods.
Context (server : Server) (this : GitHubAPI).

(** [this.organization || this.username] *)
Definition owner : string :=
  match organization this with
  | Some org => if JsString.truthy org then org else username this
  | None => username this
  end.

(** [this.organization ? `/orgs/${owner}/repos` : '/user/repos'] *)
Definition listUrl : string :=
  match organization this with
  | Some org => if JsString.truthy org then "/orgs/" +:+ owner +:+ "/repos" else "/user/repos"
  | None => "/user/repos"
  end.

Definition pageUrl (page : nat) : string :=
  listUrl +:+ "?per_page=100&page=" +:+ JsString.ofNat page.

(** The object built for each repository of a page. *)
Definition listed (repo : RepoData) : GitHub.Repository :=
  GitHub.mkRepository (name repo) (full_name repo)
                      (Some (match description repo with
                             | Some text => if JsString.truthy text then text else EmptyString
                             | None => EmptyString
                             end))
                      (private repo) (clone_url repo) (ssh_url repo) (html_url repo).

(** The [while (true)] loop of [getAllRepositories] inside its [try]. *)
Fixpoint fetchPages (bound page : nat) (repositories : list GitHub.Repository) (log : Log)
  : option (Res (list GitHub.Repository) * Log) :=
  match bound with
  | O => None
  | S bound' =>
      match get_many server log (pageUrl page) with
      | Axios.Responded data =>
          if (length data =? 0)%nat then Some (Ok repositories, pageUrl page :: log)
          else fetchPages bound' (S page) (repositories ++ map listed data)
                          (pageUrl page :: log)
      | Axios.Failed error =>
          Some (Throw ("Failed to fetch GitHub repositories: " +:+ Axios.message error),
                pageUrl page :: log)
      end
  end.

Definition getAllRepositories (bound : nat) (log : Log)
  : option (Res (list GitHub.Repository) * Log) :=
  fetchPages bound 1 [] log.

End Methods.
End GitHubAPI.

Module BitbucketAPI.

(** One entry of [links.clone]. *)
Record Link := mkLink {
  link_name : string;
  href : string
}.

(** A repository in a response of the Bitbucket API, as far as it is
    read; [description], [language] and [size] may be missing. *)
Record RepoData := mkRepoData {
  name : string;
  slug : string;
  full_name : string;
  description : option string;
  is_private : bool;
  links_clone : list Link;
  language : option string;
  size : option Z;
  updated_on : string;
  has_issues : bool;
  has_wiki : bool
}.

(** A page of the listing: [values] and, unless it is the last, [next]. *)
Record Page := mkPage {
  values : list RepoData;
  next : option string
}.

(** The addresses requested so far, newest first. *)
Definition Log : Type := list string.

(** [get_page] answers a request by its full address.  [pathAndSearch] is
    [new URL(link).pathname + new URL(link).search], [None] when the
    constructor throws; [typeError] is the message of the error raised
    for reading [href] of [undefined]. *)
Record Server := mkServer {
  get_page : Log -> string -> Axios.Reply Page;
  pathAndSearch : string -> option string;
  invalidUrl : string;
  typeError : string
}.

(** [this.baseURL], with which the client is created. *)
Definition baseURL : string := "https://api.bitbucket.org/2.0".

(** [this.client.get(url)] goes to this address. *)
Definition address (url : string) : string := Axios.buildFullPath baseURL url.

Record BitbucketAPI := mkBitbucketAPI {
  username : string;
  appPassword : string;
  workspace : string
}.

Section Methods.
Context (server : Server) (this : BitbucketAPI).

Definition textOr (value : option string) (fallback : string) : string :=
  match value with
  | Some text => if JsString.truthy text then text else fallback
  | None => fallback
  end.

(** The object built for a repository; [None] when [links.clone] has no
    entry named [https], where reading [href] throws. *)
Definition described (repo : RepoData) : option Bitbucket.Repository :=
  match List.find (fun link => String.eqb (link_name link) "https") (links_clone repo) with
  | Some link =>
      Some (Bitbucket.mkRepository
              (name repo) (slug repo) (full_name repo)
              (textOr (description repo) EmptyString)
              (is_private repo) (href link)
              (textOr (language repo) "Unknown")
              (match size repo with Some n => n | None => 0 end)
              (updated_on repo) (has_issues repo) (has_wiki repo))
  | None => None
  end.

(** [repositories.map(...)]: the first repository that cannot be
    described makes the whole mapping throw. *)
Fixpoint describeAll (repositories : list RepoData) : option (list Bitbucket.Repository) :=
  match repositories with
  | [] => Some []
  | repo :: rest =>
      match described repo with
      | Some first =>
          match describeAll rest with
          | Some others => Some (first :: others)
          | None => None
          end
      | None => None
      end
  end.

Definition failure (message : string) : string :=
  "Failed to fetch repositories from Bitbucket: " +:+ message.

(** The [while (url)] loop of [getAllRepositories] and what follows it,
    inside the [try]. *)
Fixpoint fetchPages (bound : nat) (url : string) (repositories : list RepoData) (log : Log)
  : option (Res (list Bitbucket.Repository) * Log) :=
  if JsString.truthy url then
    match bound with
    | O => None
    | S bound' =>
        match get_page server log (address url) with
        | Axios.Responded data =>
            let collected := repositories ++ values data in
            match next data with
            | Some link =>
                if JsString.truthy link then
                  match pathAndSearch server link with
                  | Some following =>
                      fetchPages bound' following collected (address url :: log)
                  | None => Some (Throw (failure (invalidUrl server)), address url :: log)
                  end
                else fetchPages bound' EmptyString collected (address url :: log)
            | None => fetchPages bound' EmptyString collected (address url :: log)
            end
        | Axios.Failed error =>
            Some (Throw (failure (Axios.message error)), address url :: log)
        end
    end
  else
    match describeAll repositories with
    | Some result => Some (Ok result, log)
    | None => Some (Throw (failure (typeError server)), log)
    end.

Definition getAllRepositories (bound : nat) (log : Log)
  : option (Res (list Bitbucket.Repository) * Log) :=
  fetchPages bound ("/repositories/" +:+ workspace this +:+ "?pagelen=100") [] log.

End Methods.
End BitbucketAPI.

(** Example services. *)
Module Services.

Definition hosted (repoName : string) : GitHubAPI.RepoData :=
  GitHubAPI.mkRepoData repoName ("org/" +:+ repoName) None true
                       ("https://github.com/org/" +:+ repoName +:+ ".git")
                       ("git@github.com:org/" +:+ repoName +:+ ".git")
                       ("https://github.com/org/" +:+ repoName).

(** Two pages of repositories, then an empty page. *)
Definition github : GitHubAPI.Server :=
  GitHubAPI.mkServer
    (fun _ url =>
       if String.eqb url "/orgs/org/repos?per_page=100&page=1"
       then Axios.Responded [hosted "demo"; hosted "docs"]
       else if String.eqb url "/orgs/org/repos?per_page=100&page=2"
            then Axios.Responded [hosted "tools"]
            else Axios.Responded []).

Definition githubClient : GitHubAPI.GitHubAPI :=
  GitHubAPI.mkGitHubAPI "token" "octocat" (Some "org").

Definition kept (repoName : string) (links : list BitbucketAPI.Link) : BitbucketAPI.RepoData :=
  BitbucketAPI.mkRepoData repoName repoName ("team/" +:+ repoName) None true links
                          None None "2024-05-01T10:00:00.000000+00:00" true false.

Definition bothLinks (repoName : string) : list BitbucketAPI.Link :=
  [BitbucketAPI.mkLink "ssh" ("git@bitbucket.org:team/" +:+ repoName +:+ ".git");
   BitbucketAPI.mkLink "https" ("https://bitbucket.org/team/" +:+ repoName +:+ ".git")].

(** A workspace of two pages as the service offers it: the first page
    links to the second by its full address.  Nothing is served below a
    doubled version prefix.  [second] is the content of the second page. *)
Definition notFound : Axios.Error := Axios.mkError "Request failed with status code 404".

Definition bitbucket (second : list BitbucketAPI.RepoData) : BitbucketAPI.Server :=
  BitbucketAPI.mkServer
    (fun _ requested =>
       if String.eqb requested "https://api.bitbucket.org/2.0/repositories/team?pagelen=100"
       then Axios.Responded
              (BitbucketAPI.mkPage
                 [kept "demo" (bothLinks "demo")]
                 (Some "https://api.bitbucket.org/2.0/repositories/team?pagelen=100&page=2"))
       else if String.eqb requested
                 "https://api.bitbucket.org/2.0/repositories/team?pagelen=100&page=2"
            then Axios.Responded (BitbucketAPI.mkPage second None)
            else Axios.Failed notFound)
    (fun link =>
       if String.eqb link "https://api.bitbucket.org/2.0/repositories/team?pagelen=100&page=2"
       then Some "/2.0/repositories/team?pagelen=100&page=2"
       else None)
    "Invalid URL"
    "Cannot read properties of undefined (reading 'href')".

(** A workspace that fits on one page. *)
Definition bitbucketSmall (only : list BitbucketAPI.RepoData) : BitbucketAPI.Server :=
  BitbucketAPI.mkServer
    (fun _ requested =>
       if String.eqb requested "https://api.bitbucket.org/2.0/repositories/team?pagelen=100"
       then Axios.Responded (BitbucketAPI.mkPage only None)
       else Axios.Failed notFound)
    (fun _ => None)
    "Invalid URL"
    "Cannot read properties of undefined (reading 'href')".

Definition bitbucketClient : BitbucketAPI.BitbucketAPI :=
  BitbucketAPI.mkBitbucketAPI "user" "app-password" "team".

End Services.

(** * Properties *)

(** ** Running the primitives *)

Section Running.
Context (env : Env) (this : GitManager).

Lemma log_run message s :
  log this message s = (Ok tt, record (LogEvent (infoSink this) message) s).
Proof. unfold log, infoSink. destruct (logger this); reflexivity. Qed.

Lemma logWarning_run message s :
  logWarning this message s = (Ok tt, record (LogEvent (warnSink this) message) s).
Proof. unfold logWarning, warnSink. destruct (logger this); reflexivity. Qed.

Lemma bind_ok {A B} (m : M A) (k : A -> M B) s a s1 :
  m s = (Ok a, s1) -> bind m k s = k a s1.
Proof. unfold bind. intros ->. reflexivity. Qed.

Lemma try_catch_bind {A B} (m : M A) (k : A -> M B) handler s :
  try_catch (bind m k) handler s =
  match m s with
  | (Ok a, s1) => try_catch (k a) handler s1
  | (Throw e, s1) => handler e s1
  end.
Proof. unfold try_catch, bind. destruct (m s) as [[a|e] s1]; reflexivity. Qed.

Lemma bind_run {A B} (m : M A) (k : A -> M B) s :
  bind m k s =
  match m s with
  | (Ok a, s1) => k a s1
  | (Throw e, s1) => (Throw e, s1)
  end.
Proof. reflexivity. Qed.

Lemma git_history cmd s :
  history (snd (git env cmd s)) = GitEvent cmd (git_run env s cmd) :: history s.
Proof. unfold git. destruct (git_run env s cmd); reflexivity. Qed.

Lemma steps_app h1 h2 : steps (h1 ++ h2) = steps h1 ++ steps h2.
Proof.
  induction h1 as [|e h1 IH]; simpl; [reflexivity|].
  destruct (classify e); simpl; rewrite IH; reflexivity.
Qed.

Lemma deletions_app h1 h2 : deletions (h1 ++ h2) = deletions h1 ++ deletions h2.
Proof.
  induction h1 as [|e h1 IH]; simpl; [reflexivity|].
  destruct (deletion e); simpl; rewrite IH; reflexivity.
Qed.

End Running.

(** ** Empty input to the rewriter *)

(** C10. [removeLargeFiles] called with an empty list returns [true] at
    once: the state it returns is the state it was given, so no process
    was spawned, nothing was logged and the repository was not touched.
    The earlier revision of the method has the same guard. *)
Theorem removeLargeFiles_empty_identity (env : Env) (this : GitManager)
        (repoPath : string) (s : State) :
  removeLargeFiles env this repoPath [] s = (Ok true, s) /\
  (forall branchNames,
      Earlier.removeLargeFiles env this branchNames repoPath [] s = (Ok true, s)).
Proof. split; [reflexivity | intros branchNames; reflexivity]. Qed.

(** ** Two runs side by side *)

Section SideBySide.
Context (env : Env).

Lemma bind_ext {A B} (m m' : M A) (k k' : A -> M B) s :
  (forall st, m st = m' st) -> (forall a st, k a st = k' a st) ->
  bind m k s = bind m' k' s.
Proof.
  intros Hm Hk. unfold bind. rewrite Hm. destruct (m' s) as [[a|e] s1]; [apply Hk|reflexivity].
Qed.

Lemma try_catch_ext {A} (m m' : M A) (handler handler' : string -> M A) s :
  (forall st, m st = m' st) -> (forall e st, handler e st = handler' e st) ->
  try_catch m handler s = try_catch m' handler' s.
Proof.
  intros Hm Hh. unfold try_catch. rewrite Hm.
  destruct (m' s) as [[a|e] s1]; [reflexivity|apply Hh].
Qed.

Lemma forEach_ext {A} (items : list A) (body body' : A -> M unit) :
  (forall x st, body x st = body' x st) ->
  forall s, forEach items body s = forEach items body' s.
Proof.
  intros Hbody. induction items as [|x items IH]; intros s; [reflexivity|].
  cbn [forEach]. apply bind_ext; [apply Hbody|intros _; exact IH].
Qed.

(** *** A run alone is the function as written *)

Lemma run_bind {A B} (t : Async.Task A) (k : A -> Async.Task B) :
  forall s,
    Async.run env (Async.bind t k) s
    = bind (Async.run env t) (fun a => Async.run env (k a)) s.
Proof.
  induction t as [[a|e]|sink message next IH|cmd next IH]; intros s;
    cbn [Async.bind Async.run]; try reflexivity.
  - rewrite IH. reflexivity.
  - rewrite IH. reflexivity.
Qed.

Lemma run_try_catch {A} (t : Async.Task A) (handler : string -> Async.Task A) :
  forall s,
    Async.run env (Async.try_catch t handler) s
    = try_catch (Async.run env t) (fun e => Async.run env (handler e)) s.
Proof.
  induction t as [[a|e]|sink message next IH|cmd next IH]; intros s;
    cbn [Async.try_catch Async.run]; try reflexivity.
  - rewrite IH. reflexivity.
  - rewrite IH. reflexivity.
Qed.

Lemma run_forEach {A} (items : list A) (body : A -> Async.Task unit) :
  forall s,
    Async.run env (Async.forEach items body) s
    = forEach items (fun x => Async.run env (body x)) s.
Proof.
  induction items as [|x items IH]; intros s; [reflexivity|].
  cbn [Async.forEach forEach]. rewrite run_bind. apply bind_ext; [reflexivity|].
  intros _ st. apply IH.
Qed.

Lemma run_git cmd s : Async.run env (Async.git cmd) s = git env cmd s.
Proof.
  unfold Async.git. cbn [Async.run]. unfold git.
  destruct (git_run env s cmd); reflexivity.
Qed.

Lemma run_log this message s : Async.run env (Async.log this message) s = log this message s.
Proof. unfold Async.log, log. destruct (logger this); reflexivity. Qed.

Lemma run_logWarning this message s :
  Async.run env (Async.logWarning this message) s = logWarning this message s.
Proof. unfold Async.logWarning, logWarning. destruct (logger this); reflexivity. Qed.

Ltac alone :=
  repeat first
         [ rewrite run_try_catch; apply try_catch_ext; intros
         | rewrite run_bind; apply bind_ext; intros
         | rewrite run_forEach; apply forEach_ext; intros
         | apply run_git
         | apply run_log
         | apply run_logWarning
         | reflexivity
         | match goal with
           | |- context [if ?b then _ else _] => destruct b
           end ].

(** Run alone, the task of the fallback is the fallback. *)
Lemma run_fallback this repoPath filePaths s :
  Async.run env (Async.removeLargeFilesWithFilterBranch this repoPath filePaths) s
  = removeLargeFilesWithFilterBranch env this repoPath filePaths s.
Proof.
  unfold Async.removeLargeFilesWithFilterBranch, removeLargeFilesWithFilterBranch.
  cbv zeta. alone.
Qed.

Lemma run_earlier_fallback this branchNames repoPath filePaths s :
  Async.run env (Async.Earlier.removeLargeFilesWithFilterBranch
                   this branchNames repoPath filePaths) s
  = Earlier.removeLargeFilesWithFilterBranch env this branchNames repoPath filePaths s.
Proof.
  unfold Async.Earlier.removeLargeFilesWithFilterBranch,
    Earlier.removeLargeFilesWithFilterBranch.
  alone.
Qed.

(** *** What a task leaves behind *)

Lemma calls_weaken {A} (P Q : GitCmd -> Prop) (t : Async.Task A) :
  (forall cmd, P cmd -> Q cmd) -> Async.calls P t -> Async.calls Q t.
Proof.
  intros HPQ. induction t as [r|sink message next IH|cmd next IH]; cbn [Async.calls]; auto.
  intros [Hcmd Hnext]. split; [apply HPQ, Hcmd|]. intros outcome. apply IH, Hnext.
Qed.

Lemma calls_bind {A B} P (t : Async.Task A) (k : A -> Async.Task B) :
  Async.calls P t -> (forall a, Async.calls P (k a)) -> Async.calls P (Async.bind t k).
Proof.
  intros Ht Hk. induction t as [[a|e]|sink message next IH|cmd next IH];
    cbn [Async.bind Async.calls] in *; auto.
  destruct Ht as [Hcmd Hnext]. split; [exact Hcmd|]. intros outcome. apply IH, Hnext.
Qed.

Lemma calls_try_catch {A} P (t : Async.Task A) handler :
  Async.calls P t -> (forall e, Async.calls P (handler e)) ->
  Async.calls P (Async.try_catch t handler).
Proof.
  intros Ht Hh. induction t as [[a|e]|sink message next IH|cmd next IH];
    cbn [Async.try_catch Async.calls] in *; auto.
  destruct Ht as [Hcmd Hnext]. split; [exact Hcmd|]. intros outcome. apply IH, Hnext.
Qed.

Lemma calls_forEach {A} P (items : list A) body :
  (forall x, Async.calls P (body x)) -> Async.calls P (Async.forEach items body).
Proof.
  intros Hbody. induction items as [|x items IH]; cbn [Async.forEach]; [exact I|].
  apply calls_bind; [apply Hbody|intros _; exact IH].
Qed.

Lemma calls_git P cmd : P cmd -> Async.calls P (Async.git cmd).
Proof. intros Hcmd. split; [exact Hcmd|]. intros [out|e]; exact I. Qed.

Lemma ends_weaken {A} (R R' : Res A -> Prop) (t : Async.Task A) :
  (forall r, R r -> R' r) -> Async.ends R t -> Async.ends R' t.
Proof.
  intros HR. induction t as [r|sink message next IH|cmd next IH]; cbn [Async.ends]; auto.
Qed.

Lemma ends_any {A} (t : Async.Task A) : Async.ends (fun _ => True) t.
Proof. induction t as [r|sink message next IH|cmd next IH]; cbn [Async.ends]; auto. Qed.

Lemma ends_bind {A B} (R' : Res A -> Prop) (R : Res B -> Prop)
      (t : Async.Task A) (k : A -> Async.Task B) :
  Async.ends R' t ->
  (forall a, R' (Ok a) -> Async.ends R (k a)) ->
  (forall e, R' (Throw e) -> R (Throw e)) ->
  Async.ends R (Async.bind t k).
Proof.
  intros Ht Hk He. induction t as [[a|e]|sink message next IH|cmd next IH];
    cbn [Async.bind Async.ends] in *; auto.
Qed.

Lemma ends_try_catch {A} (R' R : Res A -> Prop) (t : Async.Task A) handler :
  Async.ends R' t ->
  (forall a, R' (Ok a) -> R (Ok a)) ->
  (forall e, R' (Throw e) -> Async.ends R (handler e)) ->
  Async.ends R (Async.try_catch t handler).
Proof.
  intros Ht Ha Hh. induction t as [[a|e]|sink message next IH|cmd next IH];
    cbn [Async.try_catch Async.ends] in *; auto.
Qed.


Lemma ends_git (R : Res string -> Prop) cmd :
  (forall r, R r) -> Async.ends R (Async.git cmd).
Proof. intros HR [out|e]; apply HR. Qed.

Lemma advance_calls {A} (P : GitCmd -> Prop) (t : Async.Task A) :
  Async.calls P t ->
  forall s, exists new,
    history (snd (Async.advance env t s)) = new ++ history s /\
    Forall (Async.event P) new /\
    match fst (Async.advance env t s) with
    | inl _ => True
    | inr t' => Async.calls P t'
    end.
Proof.
  induction t as [r|sink message next IH|cmd next IH]; intros Ht s;
    cbn [Async.advance Async.calls] in *.
  - exists []. repeat split. constructor.
  - destruct (IH Ht (record (LogEvent sink message) s)) as (new & Hnew & Hall & Hnext).
    exists (new ++ [LogEvent sink message]). rewrite Hnew, <- app_assoc.
    split; [reflexivity|]. split; [|exact Hnext].
    apply Forall_app. split; [exact Hall|]. repeat constructor.
  - destruct Ht as [Hcmd Hnext]. exists [GitEvent cmd (git_run env s cmd)].
    cbn [fst snd]. rewrite git_history. split; [reflexivity|].
    split; [repeat constructor; exact Hcmd|apply Hnext].
Qed.

Lemma run_calls {A} (P : GitCmd -> Prop) (t : Async.Task A) :
  Async.calls P t -> onlyAdds (Async.event P) (Async.run env t).
Proof.
  induction t as [r|sink message next IH|cmd next IH]; intros Ht s;
    cbn [Async.run Async.calls] in *.
  - exists []. split; [reflexivity|constructor].
  - destruct (IH Ht (record (LogEvent sink message) s)) as (new & Hnew & Hall).
    exists (new ++ [LogEvent sink message]). rewrite Hnew, <- app_assoc.
    split; [reflexivity|]. apply Forall_app. split; [exact Hall|]. repeat constructor.
  - destruct Ht as [Hcmd Hnext].
    destruct (IH _ (Hnext (git_run env s cmd)) (snd (git env cmd s))) as (new & Hnew & Hall).
    exists (new ++ [GitEvent cmd (git_run env s cmd)]).
    rewrite Hnew, git_history, <- app_assoc. split; [reflexivity|].
    apply Forall_app. split; [exact Hall|]. repeat constructor. exact Hcmd.
Qed.

Lemma race_calls {A} (P : GitCmd -> Prop) order :
  forall first second : Async.Task A,
    Async.calls P first -> Async.calls P second ->
    onlyAdds (Async.event P) (Async.race env order first second).
Proof.
  induction order as [|turn order IH]; intros first second Hfirst Hsecond s;
    cbn [Async.race].
  - apply run_calls. exact Hfirst.
  - destruct turn.
    + destruct (advance_calls P first Hfirst s) as (new & Hnew & Hall & Hnext).
      destruct (Async.advance env first s) as [[r|first'] s1]; cbn [fst snd] in *.
      * exists new. split; assumption.
      * destruct (IH first' second Hnext Hsecond s1) as (new' & Hnew' & Hall').
        exists (new' ++ new). rewrite Hnew', Hnew, app_assoc. split; [reflexivity|].
        apply Forall_app. split; assumption.
    + destruct (advance_calls P second Hsecond s) as (new & Hnew & Hall & Hnext).
      destruct (Async.advance env second s) as [[r|second'] s1]; cbn [fst snd] in *.
      * exists new. split; assumption.
      * destruct (IH first second' Hfirst Hnext s1) as (new' & Hnew' & Hall').
        exists (new' ++ new). rewrite Hnew', Hnew, app_assoc. split; [reflexivity|].
        apply Forall_app. split; assumption.
Qed.

Lemma settle_calls {A} (P : GitCmd -> Prop) (first second : Res A + Async.Task A) :
  match first with inl _ => True | inr t => Async.calls P t end ->
  match second with inl _ => True | inr t => Async.calls P t end ->
  onlyAdds (Async.event P) (Async.settle env first second).
Proof.
  intros Hfirst Hsecond s. unfold Async.settle.
  destruct first as [r|first]; [exists []; split; [reflexivity|constructor]|].
  destruct second as [r|second]; [exists []; split; [reflexivity|constructor]|].
  apply race_calls; assumption.
Qed.

Lemma start_calls {A} (P : GitCmd -> Prop) (t : Async.Task A) :
  Async.calls P t ->
  forall s, exists new progress,
    Async.start env t s = (Ok progress, snd (Async.start env t s)) /\
    history (snd (Async.start env t s)) = new ++ history s /\
    Forall (Async.event P) new /\
    match progress with inl _ => True | inr t' => Async.calls P t' end.
Proof.
  intros Ht s. unfold Async.start.
  destruct (advance_calls P t Ht s) as (new & Hnew & Hall & Hnext).
  destruct (Async.advance env t s) as [progress s1]; cbn [fst snd] in *.
  exists new, progress. repeat split; assumption.
Qed.

Lemma advance_ends {A} (R : Res A -> Prop) (t : Async.Task A) :
  Async.ends R t ->
  forall s, match fst (Async.advance env t s) with
            | inl r => R r
            | inr t' => Async.ends R t'
            end.
Proof.
  induction t as [r|sink message next IH|cmd next IH]; intros Ht s;
    cbn [Async.advance Async.ends fst] in *; [exact Ht|apply IH, Ht|apply Ht].
Qed.

Lemma run_ends {A} (R : Res A -> Prop) (t : Async.Task A) :
  Async.ends R t -> forall s, R (fst (Async.run env t s)).
Proof.
  induction t as [r|sink message next IH|cmd next IH]; intros Ht s;
    cbn [Async.run Async.ends fst] in *; [exact Ht|apply IH, Ht|apply IH, Ht].
Qed.

Lemma race_ends {A} (R : Res A -> Prop) order :
  forall first second : Async.Task A,
    Async.ends R first -> Async.ends R second ->
    forall s, R (fst (Async.race env order first second s)).
Proof.
  induction order as [|turn order IH]; intros first second Hfirst Hsecond s;
    cbn [Async.race].
  - apply run_ends. exact Hfirst.
  - destruct turn.
    + pose proof (advance_ends R first Hfirst s) as Hnext.
      destruct (Async.advance env first s) as [[r|first'] s1]; cbn [fst] in *;
        [exact Hnext|apply IH; assumption].
    + pose proof (advance_ends R second Hsecond s) as Hnext.
      destruct (Async.advance env second s) as [[r|second'] s1]; cbn [fst] in *;
        [exact Hnext|apply IH; assumption].
Qed.


Lemma calls_any {A} (t : Async.Task A) : Async.calls (fun _ => True) t.
Proof.
  induction t as [r|sink message next IH|cmd next IH]; cbn [Async.calls]; auto.
Qed.

Lemma start_grows {A} (t : Async.Task A) : onlyAdds (fun _ => True) (Async.start env t).
Proof.
  intros s. destruct (start_calls (fun _ => True) t (calls_any t) s)
    as (new & progress & _ & Hnew & _).
  exists new. split; [exact Hnew|]. apply Forall_true. intros e. exact I.
Qed.

Lemma settle_grows {A} (first second : Res A + Async.Task A) :
  onlyAdds (fun _ => True) (Async.settle env first second).
Proof.
  intros s.
  destruct (settle_calls (fun _ => True) first second) with (s := s) as (new & Hnew & _).
  - destruct first; [exact I|apply calls_any].
  - destruct second; [exact I|apply calls_any].
  - exists new. split; [exact Hnew|]. apply Forall_true. intros e. exact I.
Qed.

Lemma event_no_steps (P : GitCmd -> Prop) new :
  (forall cmd outcome, P cmd -> classify (GitEvent cmd outcome) = None) ->
  Forall (Async.event P) new -> steps new = [].
Proof.
  intros HP. induction 1 as [|e new He _ IH]; [reflexivity|].
  cbn [steps]. destruct e as [op f|cmd o|c a w x|sink m]; cbn [Async.event] in He;
    try contradiction.
  - rewrite (HP cmd o He). exact IH.
  - exact IH.
Qed.

End SideBySide.

(** ** The scanner *)

Section Scanner.
Context (env : Env) (repoPath : string).

Lemma getObjectSize_run hash s :
  let exit := spawn_run env s "git" ["cat-file"; "-s"; hash] repoPath in
  getObjectSize env repoPath hash s =
  (Ok (sizeOfExit exit), record (SpawnEvent "git" ["cat-file"; "-s"; hash] repoPath exit) s).
Proof.
  unfold getObjectSize, bind, spawn; simpl.
  destruct (spawn_run env s "git" ["cat-file"; "-s"; hash] repoPath)
    as [e|[[| |]|] out err]; reflexivity.
Qed.

Lemma sizeLookups_cons sizeLimit line rest :
  sizeLookups env repoPath sizeLimit (line :: rest) =
  match entry line with
  | Some (hash, filePath) =>
      (slot <- try_catch
                 (size <- getObjectSize env repoPath hash ;;
                  if sizeLimit <=? size
                  then ret (Some (mkLargeFile filePath size hash))
                  else ret None)
                 (fun _ => ret None) ;;
       slots <- sizeLookups env repoPath sizeLimit rest ;;
       ret (slot :: slots))%js
  | None => sizeLookups env repoPath sizeLimit rest
  end.
Proof.
  unfold entry. cbn [sizeLookups].
  destruct (JsString.split JsString.SP line) as [|hash [|part parts]]; reflexivity.
Qed.

(** The lookups run in line order, one per line that carries a path, and
    none of them can make the loop stop. *)
Lemma sizeLookups_run sizeLimit lines :
  forall s, exists exits,
    length exits = length (omap entry lines) /\
    sizeLookups env repoPath sizeLimit lines s =
    (Ok (zip_with (slotOf sizeLimit) (omap entry lines) exits),
     mkState (fs s)
             (rev (zip_with (lookupEvent repoPath) (omap entry lines) exits)
                  ++ history s)).
Proof.
  induction lines as [|line lines IH]; intros s.
  - exists []. split; [reflexivity|]. destruct s; reflexivity.
  - rewrite sizeLookups_cons. cbn [omap list_omap].
    destruct (entry line) as [[hash filePath]|]; [|apply IH].
    set (exit := spawn_run env s "git" ["cat-file"; "-s"; hash] repoPath).
    destruct (IH (record (lookupEvent repoPath (hash, filePath) exit) s))
      as (exits & Hlen & Hrun).
    exists (exit :: exits). split; [simpl; congruence|].
    unfold bind at 1, try_catch, bind at 1.
    rewrite getObjectSize_run. fold exit.
    assert (Hslot : forall st,
               (if sizeLimit <=? sizeOfExit exit
                then ret (Some (mkLargeFile filePath (sizeOfExit exit) hash))
                else ret None) st = (Ok (slotOf sizeLimit (hash, filePath) exit), st)).
    { intros st. unfold slotOf; simpl.
      destruct (sizeLimit <=? sizeOfExit exit); reflexivity. }
    rewrite Hslot. unfold bind. unfold lookupEvent at 1 in Hrun. simpl fst in Hrun.
    rewrite Hrun. simpl. unfold ret. f_equal. f_equal.
    rewrite <- app_assoc. reflexivity.
Qed.

Lemma findLargeFiles_run sizeLimit s :
  let listing := spawn_run env s "git" ["rev-list"; "--objects"; "--all"] repoPath in
  let s1 := record (revListEvent repoPath listing) s in
  match listing with
  | SpawnError e => findLargeFiles env repoPath sizeLimit s = (Throw e, s1)
  | Close (Some 0) output _ =>
      let objs := omap entry (objectLines output) in
      exists exits,
        length exits = length objs /\
        findLargeFiles env repoPath sizeLimit s =
        (Ok (omap id (zip_with (slotOf sizeLimit) objs exits)),
         mkState (fs s) (rev (zip_with (lookupEvent repoPath) objs exits) ++ history s1))
  | Close _ _ _ =>
      findLargeFiles env repoPath sizeLimit s = (Throw "Failed to list git objects", s1)
  end.
Proof.
  intros listing s1. subst s1 listing.
  assert (Hstart : forall k : Exit -> M (list LargeFile),
             bind (spawn env "git" ["rev-list"; "--objects"; "--all"] repoPath) k s =
             k (spawn_run env s "git" ["rev-list"; "--objects"; "--all"] repoPath)
               (record (revListEvent repoPath
                          (spawn_run env s "git" ["rev-list"; "--objects"; "--all"] repoPath)) s))
    by reflexivity.
  unfold findLargeFiles. rewrite Hstart. clear Hstart.
  destruct (spawn_run env s "git" ["rev-list"; "--objects"; "--all"] repoPath)
    as [e|[[| |]|] output err]; try reflexivity.
  cbv zeta.
  set (s1 := record (revListEvent repoPath (Close (Some 0) output err)) s).
  destruct (sizeLookups_run sizeLimit (objectLines output) s1) as (exits & Hlen & Hrun).
  exists exits. split; [exact Hlen|].
  unfold bind. unfold objectLines in Hrun at 1. rewrite Hrun. reflexivity.
Qed.

End Scanner.

(** ** The steps of each function *)

Section Pipeline.
Context (env : Env) (this : GitManager).

Lemma git_other_run cmd s :
  match cmd with Clone _ _ _ => False | _ => True end ->
  git env cmd s =
  (match git_run env s cmd with Fulfilled out => Ok out | Rejected e => Throw e end,
   record (GitEvent cmd (git_run env s cmd)) s).
Proof.
  intros Hcmd. unfold git, record.
  destruct cmd; try contradiction; destruct (git_run env s _); reflexivity.
Qed.

Lemma steps_quiet h : Forall (fun e => classify e = None) h -> steps h = [].
Proof.
  induction 1 as [|e h He _ IH]; simpl; [reflexivity|]. rewrite He. exact IH.
Qed.


Lemma logs_no_steps h : Forall isLog h -> steps h = [].
Proof.
  intros H. apply steps_quiet. eapply Forall_impl; [exact H|].
  intros [] He; try contradiction; reflexivity.
Qed.

Lemma forEach_emit_run {A} (sink : Sink) (render : A -> string) (items : list A) :
  forall s,
    forEach items (fun x => emit sink (render x)) s =
    (Ok tt, mkState (fs s) (rev (map (fun x => LogEvent sink (render x)) items) ++ history s)).
Proof.
  induction items as [|x items IH]; intros s.
  - destruct s; reflexivity.
  - cbn [forEach]. unfold bind at 1, emit at 1. rewrite IH. simpl.
    rewrite <- app_assoc. reflexivity.
Qed.

Lemma forEach_log_run {A} (render : A -> string) (items : list A) s :
  forEach items (fun x => log this (render x)) s =
  (Ok tt, mkState (fs s)
                  (rev (map (fun x => LogEvent (infoSink this) (render x)) items)
                       ++ history s)).
Proof.
  unfold log, infoSink. destruct (logger this); apply forEach_emit_run.
Qed.

Lemma forEach_logWarning_run {A} (render : A -> string) (items : list A) s :
  forEach items (fun x => logWarning this (render x)) s =
  (Ok tt, mkState (fs s)
                  (rev (map (fun x => LogEvent (warnSink this) (render x)) items)
                       ++ history s)).
Proof.
  unfold logWarning, warnSink. destruct (logger this); apply forEach_emit_run.
Qed.

Lemma rendered_logs {A} (sink : Sink) (render : A -> string) (items : list A) :
  Forall isLog (rev (map (fun x => LogEvent sink (render x)) items)).
Proof.
  apply Forall_rev. apply Forall_map. apply Forall_true. intros x. exact I.
Qed.

(** *** [attemptPush] *)

Lemma attemptPush_catch_other isRetry e s :
  isLargeFileError e = false ->
  attemptPush_catch this isRetry e s = (Throw ("Failed to push to GitHub: " +:+ e), s).
Proof. unfold attemptPush_catch. intros ->. reflexivity. Qed.

Lemma attemptPush_catch_first e s :
  isLargeFileError e = true ->
  attemptPush_catch this false e s =
  (Ok false,
   record (LogEvent (infoSink this)
                    "Detected large file error, attempting to remove large files...") s).
Proof.
  unfold attemptPush_catch. intros ->. unfold bind. rewrite log_run. reflexivity.
Qed.

Lemma attemptPush_catch_retry e s :
  isLargeFileError e = true ->
  attemptPush_catch this true e s =
  (Throw ("Large files still present after cleanup: " +:+ e),
   mkState (fs s)
           (rev (map (fun m => LogEvent (warnSink this) ("Still problematic: " +:+ m))
                     (FilePattern.fileMatches e))
                ++ LogEvent (warnSink this)
                     "Large file error persists after cleanup. Extracting file names..."
                :: history s)).
Proof.
  unfold attemptPush_catch. intros ->. unfold bind at 1. rewrite logWarning_run.
  unfold bind. rewrite forEach_logWarning_run. reflexivity.
Qed.

(** The [try] block of [attemptPush] unfolded along the answers of the
    toolchain: a rejected [removeRemote] is ignored, a rejected [addRemote]
    or [push] reaches the [catch] block with its message. *)
Lemma attemptPush_run repoPath url isRetry s :
  let remove := RemoveRemote repoPath "github" in
  let add := AddRemote repoPath "github" url in
  let s1 := record (GitEvent remove (git_run env s remove)) s in
  let s2 := record (GitEvent add (git_run env s1 add)) s1 in
  let s3 := record (GitEvent (pushCommand repoPath) (git_run env s2 (pushCommand repoPath))) s2 in
  attemptPush env this repoPath url isRetry s =
  match git_run env s1 add with
  | Rejected e => attemptPush_catch this isRetry e s2
  | Fulfilled _ =>
      match git_run env s2 (pushCommand repoPath) with
      | Rejected e => attemptPush_catch this isRetry e s3
      | Fulfilled _ => (Ok true, s3)
      end
  end.
Proof.
  intros remove add s1 s2 s3. subst s3 s2 s1.
  assert (Hswallow :
            try_catch (git env remove ;; ret tt) (fun _ => ret tt) s =
            (Ok tt, record (GitEvent remove (git_run env s remove)) s)).
  { unfold try_catch, bind. rewrite (git_other_run remove s) by exact I.
    destruct (git_run env s remove); reflexivity. }
  unfold attemptPush. fold remove add. unfold try_catch at 1.
  rewrite (bind_ok _ _ _ _ _ Hswallow).
  unfold bind at 1. rewrite (git_other_run add) by exact I.
  destruct (git_run env _ add) as [out|e]; [|reflexivity].
  unfold bind at 1. fold (pushCommand repoPath).
  rewrite (git_other_run (pushCommand repoPath)) by exact I.
  destruct (git_run env _ (pushCommand repoPath)) as [out'|e]; reflexivity.
Qed.

(** *** [cleanupRepository] *)

Lemma cleanupRepository_run repoPath s :
  let s0 := record (LogEvent (infoSink this) "Cleaning up repository...") s in
  let expire := reflogExpireCommand repoPath in
  let s1 := record (GitEvent expire (git_run env s0 expire)) s0 in
  let gc := gcCommand repoPath in
  let s2 := record (GitEvent gc (git_run env s1 gc)) s1 in
  cleanupRepository env this repoPath s =
  (Ok tt,
   match git_run env s0 expire with
   | Rejected e => record (LogEvent (warnSink this) ("Git cleanup warning: " +:+ e)) s1
   | Fulfilled _ =>
       match git_run env s1 gc with
       | Rejected e => record (LogEvent (warnSink this) ("Git cleanup warning: " +:+ e)) s2
       | Fulfilled _ => record (LogEvent (infoSink this) "Repository cleanup completed") s2
       end
   end).
Proof.
  intros s0 expire s1 gc s2. subst s2 s1 s0.
  unfold cleanupRepository. fold expire gc. unfold try_catch.
  unfold bind at 1. rewrite log_run.
  unfold bind at 1. rewrite (git_other_run expire) by exact I.
  destruct (git_run env _ expire) as [out|e]; [|rewrite logWarning_run; reflexivity].
  unfold bind at 1. rewrite (git_other_run gc) by exact I.
  destruct (git_run env _ gc) as [out'|e]; [|rewrite logWarning_run; reflexivity].
  rewrite log_run. reflexivity.
Qed.

(** *** The [filter-branch] fallback *)

Lemma deleteRefs_run repoPath refs :
  forall s, exists outcomes,
    length outcomes = length refs /\
    forEach refs
            (fun ref =>
               try_catch (git env (Raw repoPath ["update-ref"; "-d"; ref]) ;; ret tt)
                         (fun _ => logWarning this ("Could not delete original ref: " +:+ ref))) s =
    (Ok tt, mkState (fs s) (deleteTraces this repoPath (zip refs outcomes) ++ history s)).
Proof.
  induction refs as [|ref refs IH]; intros s.
  - exists []. split; [reflexivity|]. destruct s; reflexivity.
  - set (o := git_run env s (updateRefCommand repoPath ref)).
    set (s1 := mkState (fs s) (deleteTrace this repoPath (ref, o) ++ history s)).
    destruct (IH s1) as (outcomes & Hlen & Hrun).
    exists (o :: outcomes). split; [simpl; congruence|].
    cbn [forEach]. unfold bind at 1. unfold try_catch at 1. unfold bind at 1.
    fold (updateRefCommand repoPath ref).
    rewrite (git_other_run (updateRefCommand repoPath ref)) by exact I. fold o.
    assert (Hone :
              (let (r, s') :=
                 (let (r0, s') :=
                    (match o with Fulfilled out => Ok out | Rejected e => Throw e end,
                     record (GitEvent (updateRefCommand repoPath ref) o) s) in
                  match r0 with
                  | Ok _ => ret tt s'
                  | Throw e => (Throw e, s')
                  end) in
               match r with
               | Ok a => (Ok a, s')
               | Throw _ => logWarning this ("Could not delete original ref: " +:+ ref) s'
               end) = (Ok tt, s1)).
    { unfold s1, deleteTrace. simpl snd. simpl fst.
      destruct o; [reflexivity|]. rewrite logWarning_run. reflexivity. }
    rewrite Hone. cbv beta iota. rewrite Hrun. unfold s1. simpl.
    rewrite <- app_assoc. reflexivity.
Qed.

Lemma removeLargeFilesWithFilterBranch_run repoPath filePaths s :
  let s0 := record (LogEvent (infoSink this)
                             "Starting large file removal with git-filter-branch...") s in
  let fb := filterBranchCommand repoPath filePaths in
  let s1 := record (GitEvent fb (git_run env s0 fb)) s0 in
  let s2 := record (LogEvent (infoSink this)
                             "Finished filter-branch. Now cleaning up refs/original/.") s1 in
  let fer := forEachRefCommand repoPath in
  let s3 := record (GitEvent fer (git_run env s2 fer)) s2 in
  match git_run env s0 fb with
  | Rejected e =>
      removeLargeFilesWithFilterBranch env this repoPath filePaths s =
      (Throw ("Failed to remove large files with filter-branch: " +:+ e), s1)
  | Fulfilled _ =>
      match git_run env s2 fer with
      | Rejected e =>
          removeLargeFilesWithFilterBranch env this repoPath filePaths s =
          (Throw ("Failed to remove large files with filter-branch: " +:+ e), s3)
      | Fulfilled listing =>
          exists outcomes,
            length outcomes = length (originalRefs listing) /\
            removeLargeFilesWithFilterBranch env this repoPath filePaths s =
            (Ok true,
             mkState (fs s)
                     (LogEvent (infoSink this)
                               "Successfully removed large files and original refs."
                      :: deleteTraces this repoPath (zip (originalRefs listing) outcomes)
                      ++ history s3))
      end
  end.
Proof.
  intros s0 fb s1 s2 fer s3. subst s3 fer s2 s1 fb s0.
  unfold filterBranchCommand, forEachRefCommand.
  unfold removeLargeFilesWithFilterBranch. cbv zeta.
  rewrite try_catch_bind, log_run.
  rewrite try_catch_bind, git_other_run by exact I.
  destruct (git_run env _ (Raw repoPath ("filter-branch" :: _))) as [out|e]; [|reflexivity].
  rewrite try_catch_bind, log_run.
  rewrite try_catch_bind, git_other_run by exact I.
  destruct (git_run env _ (Raw repoPath ("for-each-ref" :: _))) as [listing|e]; [|reflexivity].
  match goal with
  | |- context [history ?st] =>
      destruct (deleteRefs_run repoPath (originalRefs listing) st) as (outcomes & Hlen & Hrun)
  end.
  exists outcomes. split; [exact Hlen|].
  rewrite try_catch_bind. unfold originalRefs in Hrun at 1. rewrite Hrun.
  rewrite try_catch_bind, log_run. reflexivity.
Qed.

(** The fallback started from an event handler: it logs, issues
    [filter-branch] and waits; what is left is the clean-up of the backup
    references. *)
Lemma start_fallback repoPath filePaths s :
  let s0 := record (LogEvent (infoSink this)
                             "Starting large file removal with git-filter-branch...") s in
  let fb := filterBranchCommand repoPath filePaths in
  exists rest,
    Async.start env (Async.removeLargeFilesWithFilterBranch this repoPath filePaths) s
    = (Ok (inr rest), record (GitEvent fb (git_run env s0 fb)) s0) /\
    Async.calls (refCleanup repoPath) rest /\
    Async.ends fallbackCompletion rest.
Proof.
  intros s0 fb. subst s0 fb.
  unfold Async.start, Async.removeLargeFilesWithFilterBranch, filterBranchCommand.
  cbv zeta.
  cbn [Async.try_catch Async.bind Async.log Async.git Async.ret Async.advance].
  rewrite git_other_run by exact I. cbn [snd]. unfold infoSink.
  eexists. split; [reflexivity|]. split.
  - repeat first
           [ exact I
           | solve [left; reflexivity | right; eexists; reflexivity]
           | apply calls_try_catch; [|intros ?]
           | apply calls_bind; [|intros ?]
           | apply calls_forEach; intros ?
           | progress cbn [Async.calls Async.log Async.logWarning Async.ret Async.throw]
           | match goal with
             | |- _ /\ _ => split
             | |- forall _, _ => intros ?
             | |- Async.calls _ (match ?o with _ => _ end) => destruct o
             end ].
  - apply (ends_try_catch (fun r => r = Ok true \/ exists e, r = Throw e)).
    + repeat first
             [ solve [left; reflexivity | right; eexists; reflexivity]
             | apply (ends_bind (fun _ => True)); [apply ends_any|intros ? _|intros ? _]
             | progress cbn [Async.ends Async.ret Async.throw]
             | match goal with
               | |- forall _, _ => intros ?
               end ].
    + intros a [Ha|[e He]]; [left; exact Ha|discriminate He].
    + intros e _. right. exists e. reflexivity.
Qed.

(** *** [removeLargeFiles] *)

Lemma removeLargeFiles_run repoPath file files s :
  let largeFiles := file :: files in
  let filePaths := map path largeFiles in
  let args := ["filter-repo"; "--invert-paths"; "--force"]
                ++ flat_map (fun p => ["--path"; p]) filePaths in
  let s0 := record (LogEvent (infoSink this)
                             ("Removing " +:+ JsString.ofNat (length largeFiles)
                              +:+ " large files from repository history...")) s in
  let s1 := record (SpawnEvent "git" args repoPath (spawn_run env s0 "git" args repoPath)) s0 in
  removeLargeFiles env this repoPath largeFiles s =
  match spawn_run env s0 "git" args repoPath with
  | Close (Some 0) _ _ =>
      (Ok true,
       record (LogEvent (infoSink this)
                        "Successfully removed large files using git-filter-repo.") s1)
  | Close _ _ _ =>
      removeLargeFilesWithFilterBranch env this repoPath filePaths
        (record (LogEvent (warnSink this)
                          "git-filter-repo failed, falling back to git-filter-branch.") s1)
  | SpawnError _ =>
      (fromError <- Async.start env (Async.removeLargeFilesWithFilterBranch
                                       this repoPath filePaths) ;;
       logWarning this "git-filter-repo failed, falling back to git-filter-branch." ;;
       fromClose <- Async.start env (Async.removeLargeFilesWithFilterBranch
                                       this repoPath filePaths) ;;
       Async.settle env fromError fromClose)%js
        (record (LogEvent (warnSink this)
                          "git-filter-repo not found, falling back to git-filter-branch.") s1)
  end.
Proof.
  intros largeFiles filePaths args s0 s1. subst s1 s0.
  unfold removeLargeFiles. change ((length largeFiles =? 0)%nat) with false.
  cbv iota zeta. fold filePaths args.
  rewrite bind_run, log_run. rewrite bind_run. unfold spawn at 1.
  destruct (spawn_run env _ "git" args repoPath) as [e|[[| |]|] out err];
    rewrite bind_run, ?log_run, ?logWarning_run; reflexivity.
Qed.

(** When the process could not be started both handlers have run: each
    has logged its warning and started the fallback, and the promise is
    settled by the run that completes first. *)
Lemma removeLargeFiles_unspawned repoPath file files s e :
  let largeFiles := file :: files in
  let filePaths := map path largeFiles in
  let args := ["filter-repo"; "--invert-paths"; "--force"]
                ++ flat_map (fun p => ["--path"; p]) filePaths in
  let s0 := record (LogEvent (infoSink this)
                             ("Removing " +:+ JsString.ofNat (length largeFiles)
                              +:+ " large files from repository history...")) s in
  spawn_run env s0 "git" args repoPath = SpawnError e ->
  exists fromError fromClose first second started,
    removeLargeFiles env this repoPath largeFiles s
    = Async.race env (resumes env started) fromError fromClose started /\
    Async.calls (refCleanup repoPath) fromError /\
    Async.calls (refCleanup repoPath) fromClose /\
    Async.ends fallbackCompletion fromError /\
    Async.ends fallbackCompletion fromClose /\
    history started
    = [GitEvent (filterBranchCommand repoPath filePaths) second;
       LogEvent (infoSink this) "Starting large file removal with git-filter-branch...";
       LogEvent (warnSink this) "git-filter-repo failed, falling back to git-filter-branch.";
       GitEvent (filterBranchCommand repoPath filePaths) first;
       LogEvent (infoSink this) "Starting large file removal with git-filter-branch...";
       LogEvent (warnSink this) "git-filter-repo not found, falling back to git-filter-branch.";
       SpawnEvent "git" args repoPath (SpawnError e)]
      ++ history s0.
Proof.
  intros largeFiles filePaths args s0 Hexit. subst s0.
  pose proof (removeLargeFiles_run repoPath file files s) as Hrun. cbv zeta in Hrun.
  fold largeFiles filePaths args in Hrun. rewrite Hexit in Hrun. rewrite Hrun. clear Hrun.
  rewrite bind_run.
  match goal with
  | |- context [Async.start env _ ?st] =>
      destruct (start_fallback repoPath filePaths st) as (fromError & -> & Hc1 & He1)
  end.
  rewrite bind_run, logWarning_run. rewrite bind_run.
  match goal with
  | |- context [Async.start env _ ?st] =>
      destruct (start_fallback repoPath filePaths st) as (fromClose & -> & Hc2 & He2)
  end.
  exists fromError, fromClose. eexists _, _, _.
  split; [reflexivity|]. repeat (split; [assumption|]). reflexivity.
Qed.

(** *** Steps added by each function *)

Lemma lookups_quiet repoPath objs :
  forall exits,
    Forall (fun e => classify e = None) (zip_with (lookupEvent repoPath) objs exits).
Proof.
  induction objs as [|obj objs IH]; intros [|exit exits]; simpl; constructor.
  - reflexivity.
  - apply IH.
Qed.

Lemma findLargeFiles_steps repoPath sizeLimit s :
  steps (history (snd (findLargeFiles env repoPath sizeLimit s))) =
  ScanStep :: steps (history s).
Proof.
  pose proof (findLargeFiles_run env repoPath sizeLimit s) as Hrun. cbv zeta in Hrun.
  destruct (spawn_run env s "git" ["rev-list"; "--objects"; "--all"] repoPath)
    as [e|[[| |]|] output err]; try (rewrite Hrun; reflexivity).
  destruct Hrun as (exits & _ & ->). simpl snd. simpl history.
  rewrite steps_app, steps_quiet; [reflexivity|].
  apply Forall_rev, lookups_quiet.
Qed.

Lemma deleteTraces_steps repoPath attempts :
  steps (deleteTraces this repoPath attempts) = [].
Proof.
  induction attempts as [|[ref o] attempts IH]; simpl; [reflexivity|].
  rewrite steps_app, IH. unfold deleteTrace; simpl. destruct o; reflexivity.
Qed.

Lemma removeLargeFilesWithFilterBranch_steps repoPath filePaths s :
  steps (history (snd (removeLargeFilesWithFilterBranch env this repoPath filePaths s))) =
  FallbackStep :: steps (history s).
Proof.
  pose proof (removeLargeFilesWithFilterBranch_run repoPath filePaths s) as Hrun.
  cbv zeta in Hrun.
  destruct (git_run env _ (filterBranchCommand repoPath filePaths)) as [out|e];
    [|rewrite Hrun; reflexivity].
  destruct (git_run env _ (forEachRefCommand repoPath)) as [listing|e];
    [|rewrite Hrun; reflexivity].
  destruct Hrun as (outcomes & _ & ->). simpl snd. simpl history.
  change (steps (LogEvent ?a ?b :: ?h)) with (steps h).
  rewrite steps_app, deleteTraces_steps. reflexivity.
Qed.

Lemma refCleanup_no_steps repoPath new :
  Forall (Async.event (refCleanup repoPath)) new -> steps new = [].
Proof.
  apply event_no_steps. intros cmd outcome [-> | [ref ->]]; reflexivity.
Qed.

Lemma removeLargeFiles_steps_by_exit repoPath file files s :
  let largeFiles := file :: files in
  let args := ["filter-repo"; "--invert-paths"; "--force"]
                ++ flat_map (fun p => ["--path"; p]) (map path largeFiles) in
  let s0 := record (LogEvent (infoSink this)
                             ("Removing " +:+ JsString.ofNat (length largeFiles)
                              +:+ " large files from repository history...")) s in
  steps (history (snd (removeLargeFiles env this repoPath largeFiles s))) =
  fallbackRuns (spawn_run env s0 "git" args repoPath) ++ RewriteStep :: steps (history s).
Proof.
  intros largeFiles args s0. subst s0 args largeFiles.
  destruct (spawn_run env _ "git" _ repoPath) as [e|code out err] eqn:Hexit.
  - destruct (removeLargeFiles_unspawned repoPath file files s e Hexit)
      as (fromError & fromClose & first & second & started & -> & Hc1 & Hc2 & _ & _ & Hstarted).
    destruct (race_calls env (refCleanup repoPath) (resumes env started)
                         fromError fromClose Hc1 Hc2 started) as (new & -> & Hnew).
    rewrite steps_app, (refCleanup_no_steps repoPath new Hnew), Hstarted. reflexivity.
  - pose proof (removeLargeFiles_run repoPath file files s) as Hrun. cbv zeta in Hrun.
    rewrite Hexit in Hrun. rewrite Hrun.
    destruct code as [[| |]|]; try (rewrite removeLargeFilesWithFilterBranch_steps);
      reflexivity.
Qed.

Lemma fallbackRuns_cases exit :
  fallbackRuns exit = [] \/ fallbackRuns exit = [FallbackStep]
  \/ fallbackRuns exit = [FallbackStep; FallbackStep].
Proof. destruct exit as [e|[[| |]|] out err]; cbn; auto. Qed.

Lemma removeLargeFiles_steps repoPath file files s :
  exists fallback,
    (fallback = [] \/ fallback = [FallbackStep]
     \/ fallback = [FallbackStep; FallbackStep]) /\
    steps (history (snd (removeLargeFiles env this repoPath (file :: files) s))) =
    fallback ++ RewriteStep :: steps (history s).
Proof.
  eexists. split; [apply fallbackRuns_cases|]. apply removeLargeFiles_steps_by_exit.
Qed.

Lemma cleanupRepository_steps repoPath s :
  fst (cleanupRepository env this repoPath s) = Ok tt /\
  exists maintenance,
    (maintenance = [ExpireStep] \/ maintenance = [GcStep; ExpireStep]) /\
    steps (history (snd (cleanupRepository env this repoPath s))) =
    maintenance ++ steps (history s).
Proof.
  rewrite cleanupRepository_run. split; [reflexivity|]. simpl snd.
  destruct (git_run env _ (reflogExpireCommand repoPath)) as [out|e].
  - exists [GcStep; ExpireStep]. split; [right; reflexivity|].
    destruct (git_run env _ (gcCommand repoPath)); reflexivity.
  - exists [ExpireStep]. split; [left; reflexivity|]. reflexivity.
Qed.

(** *** Events of the workspace functions *)

Lemma onlyAdds_ret {A} P (a : A) : onlyAdds P (ret a).
Proof. intros s. exists []. split; [reflexivity|constructor]. Qed.

Lemma onlyAdds_throw {A} P e : onlyAdds P (@throw A e).
Proof. intros s. exists []. split; [reflexivity|constructor]. Qed.

Lemma onlyAdds_bind {A B} P (m : M A) (k : A -> M B) :
  onlyAdds P m -> (forall a, onlyAdds P (k a)) -> onlyAdds P (bind m k).
Proof.
  intros Hm Hk s. unfold bind. destruct (Hm s) as (new1 & H1 & F1).
  destruct (m s) as [[a|e] s1]; simpl in H1.
  - destruct (Hk a s1) as (new2 & H2 & F2). exists (new2 ++ new1).
    rewrite H2, H1, app_assoc. split; [reflexivity|]. apply Forall_app; split; assumption.
  - exists new1. split; assumption.
Qed.

Lemma onlyAdds_catch {A} P (m : M A) handler :
  onlyAdds P m -> (forall e, onlyAdds P (handler e)) -> onlyAdds P (try_catch m handler).
Proof.
  intros Hm Hh s. unfold try_catch. destruct (Hm s) as (new1 & H1 & F1).
  destruct (m s) as [[a|e] s1]; simpl in H1.
  - exists new1. split; assumption.
  - destruct (Hh e s1) as (new2 & H2 & F2). exists (new2 ++ new1).
    rewrite H2, H1, app_assoc. split; [reflexivity|]. apply Forall_app; split; assumption.
Qed.

Lemma onlyAdds_fs_access p : onlyAdds isWorkspaceEvent (fs_access env p).
Proof.
  intros s. unfold fs_access.
  destruct (fs_fault env s (Access p)); [|destruct (decide _)];
    eexists [_]; (split; [reflexivity|repeat constructor]).
Qed.

Lemma onlyAdds_fs_mkdir p : onlyAdds isWorkspaceEvent (fs_mkdir env p).
Proof.
  intros s. unfold fs_mkdir.
  destruct (fs_fault env s (Mkdir p)); eexists [_]; (split; [reflexivity|repeat constructor]).
Qed.

Lemma onlyAdds_fs_rm p : onlyAdds isWorkspaceEvent (fs_rm env p).
Proof.
  intros s. unfold fs_rm.
  destruct (fs_fault env s (Rm p)); eexists [_]; (split; [reflexivity|repeat constructor]).
Qed.

Lemma cloneRepository_events cloneUrl repoName username appPassword :
  onlyAdds isWorkspaceEvent (cloneRepository env this cloneUrl repoName username appPassword).
Proof.
  unfold cloneRepository, ensureTempDir, addAuthToUrl.
  repeat first
         [ apply onlyAdds_bind; [|intros ?]
         | apply onlyAdds_catch; [|intros ?]
         | apply onlyAdds_fs_access
         | apply onlyAdds_fs_mkdir
         | apply onlyAdds_fs_rm
         | apply onlyAdds_ret
         | apply onlyAdds_throw ].
  - destruct (url_with_auth env cloneUrl username appPassword);
      [apply onlyAdds_ret | apply onlyAdds_throw].
  - intros s. rewrite git_history. eexists [_]. split; [reflexivity|repeat constructor].
Qed.

Lemma workspace_events_no_steps h : Forall isWorkspaceEvent h -> steps h = [].
Proof.
  intros H. apply steps_quiet. eapply Forall_impl; [exact H|].
  intros [op f|[] o| |] He; try contradiction; reflexivity.
Qed.

Lemma cloneRepository_steps cloneUrl repoName username appPassword s :
  steps (history (snd (cloneRepository env this cloneUrl repoName username appPassword s))) =
  steps (history s).
Proof.
  destruct (cloneRepository_events cloneUrl repoName username appPassword s)
    as (new & -> & Hnew).
  rewrite steps_app, workspace_events_no_steps by exact Hnew. reflexivity.
Qed.

End Pipeline.

(** ** The transfer engine *)

Section Transfer.
Context (env : Env) (this : GitManager).

Lemma attemptPush_rejected repoPath url isRetry (P : string -> Prop) s :
  remoteAccepted env repoPath url ->
  pushRejected env repoPath P ->
  exists msg s3,
    P msg /\
    attemptPush env this repoPath url isRetry s = attemptPush_catch this isRetry msg s3 /\
    steps (history s3) = PushStep :: steps (history s).
Proof.
  intros Hadd Hpush. rewrite attemptPush_run. cbv zeta.
  match goal with
  | |- context [git_run env ?st (AddRemote repoPath "github" url)] =>
      destruct (Hadd st) as [out ->]
  end.
  match goal with
  | |- context [git_run env ?st (pushCommand repoPath)] =>
      destruct (Hpush st) as (msg & -> & Hmsg)
  end.
  eexists msg, _. split; [exact Hmsg|]. split; reflexivity.
Qed.

Lemma removeWorkspace_run p s :
  JsString.truthy p = true ->
  removeWorkspace env (Some p) s =
  (Ok tt,
   match fs_fault env s (Rm p) with
   | None => mkState (remove_tree p (fs s)) (FsEvent (Rm p) None :: history s)
   | Some e =>
       record (LogEvent ConsoleWarn
                        ("Warning: Failed to cleanup temp directory " +:+ p +:+ ": " +:+ e))
              (record (FsEvent (Rm p) (Some e)) s)
   end).
Proof.
  intros Hp. unfold removeWorkspace. rewrite Hp. unfold try_catch, fs_rm.
  destruct (fs_fault env s (Rm p)); reflexivity.
Qed.

Lemma removeWorkspace_steps repoPath s :
  fst (removeWorkspace env repoPath s) = Ok tt /\
  steps (history (snd (removeWorkspace env repoPath s))) = steps (history s).
Proof.
  destruct repoPath as [p|]; [|split; reflexivity].
  destruct (JsString.truthy p) eqn:Hp.
  - rewrite removeWorkspace_run by exact Hp. split; [reflexivity|].
    destruct (fs_fault env s (Rm p)); reflexivity.
  - unfold removeWorkspace. rewrite Hp. split; reflexivity.
Qed.

Lemma removeWorkspace_history repoPath s :
  exists removal,
    history (snd (removeWorkspace env repoPath s)) = removal ++ history s /\
    steps removal = [].
Proof.
  destruct repoPath as [p|]; [|exists []; split; reflexivity].
  destruct (JsString.truthy p) eqn:Hp.
  - rewrite removeWorkspace_run by exact Hp. cbn [snd].
    destruct (fs_fault env s (Rm p)).
    + eexists [_; _]. split; reflexivity.
    + eexists [_]. split; reflexivity.
  - unfold removeWorkspace. rewrite Hp. exists []. split; reflexivity.
Qed.

(** A rejected push with what it leaves in the history: the rejection on
    top of the two calls that set up the remote. *)
Lemma attemptPush_rejected_event repoPath url isRetry (P : string -> Prop) s :
  remoteAccepted env repoPath url ->
  pushRejected env repoPath P ->
  exists msg setup,
    P msg /\
    attemptPush env this repoPath url isRetry s
    = attemptPush_catch this isRetry msg
        (mkState (fs s)
                 (GitEvent (pushCommand repoPath) (Rejected msg) :: setup ++ history s)) /\
    steps setup = [].
Proof.
  intros Hadd Hpush. rewrite attemptPush_run. cbv zeta.
  match goal with
  | |- context [git_run env ?st (AddRemote repoPath "github" url)] =>
      destruct (Hadd st) as [out ->]
  end.
  match goal with
  | |- context [git_run env ?st (pushCommand repoPath)] =>
      destruct (Hpush st) as (msg & -> & Hmsg)
  end.
  exists msg. eexists [_; _]. split; [exact Hmsg|]. split; reflexivity.
Qed.

(** After a clone that returned [repoPath], [mirrorRepository] is the push
    pipeline followed by the [finally] block. *)
Lemma mirrorRepository_after_clone
      bitbucketCloneUrl githubCloneUrl repoName
      bitbucketUsername bitbucketPassword githubToken githubUsername s repoPath s1 :
  cloneRepository env this bitbucketCloneUrl repoName bitbucketUsername bitbucketPassword s
  = (Ok repoPath, s1) ->
  let pushed := pushToGitHub env this repoPath githubCloneUrl githubToken githubUsername s1 in
  mirrorRepository env this bitbucketCloneUrl githubCloneUrl repoName
                   bitbucketUsername bitbucketPassword githubToken githubUsername s =
  (match fst pushed with Ok _ => Ok true | Throw e => Throw e end,
   snd (removeWorkspace env (Some repoPath) (snd pushed))).
Proof.
  intros Hclone pushed. subst pushed. unfold mirrorRepository. rewrite Hclone.
  rewrite bind_run.
  destruct (pushToGitHub env this repoPath githubCloneUrl githubToken githubUsername s1)
    as [[[]|e] s2]; unfold try_finally, ret; cbv beta iota; cbn [fst snd];
    destruct (removeWorkspace_steps (Some repoPath) s2) as [Hok _];
    destruct (removeWorkspace env (Some repoPath) s2) as [r s3];
    cbn [fst] in Hok; subst r; reflexivity.
Qed.

Lemma mirrorRepository_steps_after_clone
      bitbucketCloneUrl githubCloneUrl repoName
      bitbucketUsername bitbucketPassword githubToken githubUsername s repoPath s1 :
  cloneRepository env this bitbucketCloneUrl repoName bitbucketUsername bitbucketPassword s
  = (Ok repoPath, s1) ->
  forall added,
    steps (history (snd (pushToGitHub env this repoPath githubCloneUrl
                                      githubToken githubUsername s1)))
    = added ++ steps (history s1) ->
    steps (history (snd (mirrorRepository env this bitbucketCloneUrl githubCloneUrl repoName
                                          bitbucketUsername bitbucketPassword
                                          githubToken githubUsername s)))
    = added ++ steps (history s).
Proof.
  intros Hclone added Hadded.
  rewrite (mirrorRepository_after_clone _ _ _ _ _ _ _ _ _ _ Hclone). cbv zeta. cbn [snd].
  destruct (removeWorkspace_steps (Some repoPath)
              (snd (pushToGitHub env this repoPath githubCloneUrl githubToken
                                 githubUsername s1))) as [_ ->].
  rewrite Hadded.
  pose proof (cloneRepository_steps env this bitbucketCloneUrl repoName
                                    bitbucketUsername bitbucketPassword s) as Hc.
  rewrite Hclone in Hc. simpl in Hc. rewrite Hc. reflexivity.
Qed.

(** *** The push pipeline in the three failure scenarios *)

Lemma pushToGitHub_unrelated repoPath githubCloneUrl githubToken githubUsername url msg s :
  url_with_auth env githubCloneUrl githubUsername githubToken = Some url ->
  remoteAccepted env repoPath url ->
  pushRejected env repoPath (fun m => m = msg) ->
  isLargeFileError msg = false ->
  exists s',
    pushToGitHub env this repoPath githubCloneUrl githubToken githubUsername s
    = (Throw ("Failed to push to GitHub: " +:+ msg), s') /\
    steps (history s') = [PushStep] ++ steps (history s).
Proof.
  intros Hurl Hadd Hpush Hmsg. unfold pushToGitHub.
  rewrite bind_run. unfold addAuthToUrl. rewrite Hurl. unfold ret at 1.
  rewrite bind_run.
  destruct (attemptPush_rejected repoPath url false _ s Hadd Hpush)
    as (m & s3 & Hm & -> & Hsteps). subst m.
  rewrite attemptPush_catch_other by exact Hmsg.
  exists s3. split; [reflexivity|exact Hsteps].
Qed.

Lemma pushToGitHub_false_alarm repoPath githubCloneUrl githubToken githubUsername url s :
  url_with_auth env githubCloneUrl githubUsername githubToken = Some url ->
  remoteAccepted env repoPath url ->
  pushRejected env repoPath (fun m => isLargeFileError m = true) ->
  scanFindsNothing env repoPath ->
  exists s',
    pushToGitHub env this repoPath githubCloneUrl githubToken githubUsername s
    = (Throw "Failed to push to GitHub. Cleanup attempt failed: Push failed but no large files found",
       s') /\
    steps (history s') = [ScanStep; PushStep] ++ steps (history s).
Proof.
  intros Hurl Hadd Hpush Hscan. unfold pushToGitHub.
  rewrite bind_run. unfold addAuthToUrl. rewrite Hurl. unfold ret at 1.
  rewrite bind_run.
  destruct (attemptPush_rejected repoPath url false _ s Hadd Hpush)
    as (m & s3 & Hm & -> & Hsteps).
  rewrite attemptPush_catch_first by exact Hm. cbv iota.
  rewrite bind_run, log_run. unfold pushToGitHub_recover. rewrite try_catch_bind.
  match goal with
  | |- context [findLargeFiles env repoPath defaultSizeLimit ?st] =>
      pose proof (Hscan st) as Hnone;
      pose proof (findLargeFiles_steps env repoPath defaultSizeLimit st) as Hfound;
      destruct (findLargeFiles env repoPath defaultSizeLimit st) as [r s4]
  end.
  cbn [fst snd] in Hnone, Hfound. subst r. cbn [length Nat.ltb Nat.leb].
  exists s4. split; [reflexivity|]. rewrite Hfound. simpl. rewrite Hsteps. reflexivity.
Qed.

Lemma pushToGitHub_stubborn repoPath githubCloneUrl githubToken githubUsername url s :
  url_with_auth env githubCloneUrl githubUsername githubToken = Some url ->
  remoteAccepted env repoPath url ->
  pushRejected env repoPath (fun m => isLargeFileError m = true) ->
  scanFinds env repoPath ->
  rewriteSucceeds env this repoPath ->
  exists msg between before s',
    isLargeFileError msg = true /\
    pushToGitHub env this repoPath githubCloneUrl githubToken githubUsername s
    = (Throw ("Failed to push to GitHub. Cleanup attempt failed: "
                +:+ "Large files still present after cleanup: " +:+ msg), s') /\
    history s'
    = rev (map (fun m => LogEvent (warnSink this) ("Still problematic: " +:+ m))
               (FilePattern.fileMatches msg))
          ++ LogEvent (warnSink this)
               "Large file error persists after cleanup. Extracting file names..."
          :: GitEvent (pushCommand repoPath) (Rejected msg) :: before /\
    steps before = between ++ RewriteStep :: ScanStep :: PushStep :: steps (history s) /\
    Forall (fun st => st = FallbackStep \/ st = ExpireStep \/ st = GcStep) between.
Proof.
  intros Hurl Hadd Hpush Hscan Hrewrite. unfold pushToGitHub.
  rewrite bind_run. unfold addAuthToUrl. rewrite Hurl. unfold ret at 1.
  rewrite bind_run.
  destruct (attemptPush_rejected repoPath url false _ s Hadd Hpush)
    as (m1 & s3 & Hm1 & -> & Hsteps1).
  rewrite attemptPush_catch_first by exact Hm1. cbv iota.
  rewrite bind_run, log_run. unfold pushToGitHub_recover. rewrite try_catch_bind.
  match goal with
  | |- context [findLargeFiles env repoPath defaultSizeLimit ?st] =>
      destruct (Hscan st) as (files & Hfiles & Hsome);
      pose proof (findLargeFiles_steps env repoPath defaultSizeLimit st) as Hfound;
      destruct (findLargeFiles env repoPath defaultSizeLimit st) as [r s4]
  end.
  cbn [fst snd] in Hfiles, Hfound. subst r.
  destruct files as [|file files]; [contradiction|]. cbn [length Nat.ltb Nat.leb].
  rewrite try_catch_bind, log_run. rewrite try_catch_bind, forEach_log_run.
  rewrite try_catch_bind.
  match goal with
  | |- context [removeLargeFiles env this repoPath (file :: files) ?st] =>
      destruct (Hrewrite st (file :: files)) as (b & Hb);
      destruct (removeLargeFiles_steps env this repoPath file files st)
        as (fallback & Hfallback & Hrewritten);
      destruct (removeLargeFiles env this repoPath (file :: files) st) as [r s5]
  end.
  cbn [fst snd] in Hb, Hrewritten. subst r.
  rewrite try_catch_bind.
  destruct (cleanupRepository_steps env this repoPath s5)
    as (Hclean & maintenance & Hmaintenance & Hcleaned).
  destruct (cleanupRepository env this repoPath s5) as [r s6].
  cbn [fst snd] in Hclean, Hcleaned. subst r.
  rewrite try_catch_bind.
  destruct (attemptPush_rejected_event repoPath url true _ s6 Hadd Hpush)
    as (m2 & setup & Hm2 & -> & Hsetup).
  rewrite attemptPush_catch_retry by exact Hm2.
  exists m2, (maintenance ++ fallback), (setup ++ history s6). eexists.
  split; [exact Hm2|]. split; [reflexivity|]. cbn [history]. split; [reflexivity|]. split.
  - rewrite steps_app, Hsetup, Hcleaned, Hrewritten. cbn [history record app].
    rewrite steps_app, (logs_no_steps _ (rendered_logs _ _ _)). cbn [app steps classify].
    rewrite Hfound. cbn [history record steps classify]. rewrite Hsteps1.
    rewrite <- !app_assoc. reflexivity.
  - apply Forall_app. split.
    + destruct Hmaintenance as [-> | ->];
        repeat (apply List.Forall_cons; [auto|]); apply List.Forall_nil.
    + destruct Hfallback as [-> | [-> | ->]];
        repeat (apply List.Forall_cons; [auto|]); apply List.Forall_nil.
Qed.

End Transfer.

(** ** Claims about the retry protocol *)

Section RetryProtocol.
Context (env : Env) (this : GitManager).
Context (bitbucketCloneUrl githubCloneUrl repoName : string).
Context (bitbucketUsername bitbucketPassword githubToken githubUsername : string).

#[local] Abbreviation mirror :=
  (mirrorRepository env this bitbucketCloneUrl githubCloneUrl repoName
                    bitbucketUsername bitbucketPassword githubToken githubUsername).
#[local] Abbreviation clone :=
  (cloneRepository env this bitbucketCloneUrl repoName bitbucketUsername bitbucketPassword).

Lemma steps_exactly (between : list Step) (rest : list Step) :
  Forall (fun st => st = FallbackStep \/ st = ExpireStep \/ st = GcStep) between ->
  let run := PushStep :: between ++ RewriteStep :: ScanStep :: PushStep :: rest in
  times PushStep run = (2 + times PushStep rest)%nat /\
  times ScanStep run = (1 + times ScanStep rest)%nat /\
  times RewriteStep run = (1 + times RewriteStep rest)%nat.
Proof.
  intros Hbetween run. subst run.
  assert (Hnone : times PushStep between = 0%nat /\ times ScanStep between = 0%nat
                  /\ times RewriteStep between = 0%nat).
  { induction Hbetween as [|st between Hst _ IH]; [repeat split|].
    destruct IH as (IH1 & IH2 & IH3). unfold times in *.
    destruct Hst as [-> | [-> | ->]]; cbn [count_occ];
      repeat (destruct (Step_eq_dec _ _); try discriminate); auto. }
  destruct Hnone as (H1 & H2 & H3). unfold times in *.
  cbn [count_occ]. rewrite !count_occ_app. cbn [count_occ].
  repeat (destruct (Step_eq_dec _ _); try discriminate; try congruence).
  rewrite H1, H2, H3. repeat split; lia.
Qed.

(** C1. When every push is rejected with a large-object signature, the
    scan finds large files and the rewrite returns, [mirrorRepository]
    runs push, scan, rewrite, push in this order and nothing of them a
    further time: two pushes, one scan, one rewrite.  The newest push in
    its history is the retry, rejected with a message [msg] that carries
    a signature; [mirrorRepository] then fails, and its error carries
    just this [msg], the toolchain's text that names the files still too
    large; every file match in [msg] has been logged as a warning after
    that push. *)
Theorem stubborn_push_retried_once (s s1 : State) (repoPath url : string) :
  clone s = (Ok repoPath, s1) ->
  url_with_auth env githubCloneUrl githubUsername githubToken = Some url ->
  remoteAccepted env repoPath url ->
  pushRejected env repoPath (fun m => isLargeFileError m = true) ->
  scanFinds env repoPath ->
  rewriteSucceeds env this repoPath ->
  exists msg between after before,
    history (snd (mirror s))
    = after ++ GitEvent (pushCommand repoPath) (Rejected msg) :: before /\
    steps after = [] /\
    steps before = between ++ RewriteStep :: ScanStep :: PushStep :: steps (history s) /\
    isLargeFileError msg = true /\
    fst (mirror s)
    = Throw ("Failed to push to GitHub. Cleanup attempt failed: "
               +:+ "Large files still present after cleanup: " +:+ msg) /\
    (forall m, In m (FilePattern.fileMatches msg) ->
               In (LogEvent (warnSink this) ("Still problematic: " +:+ m)) after) /\
    steps (history (snd (mirror s)))
    = PushStep :: between ++ RewriteStep :: ScanStep :: PushStep :: steps (history s) /\
    Forall (fun st => st = FallbackStep \/ st = ExpireStep \/ st = GcStep) between /\
    times PushStep (steps (history (snd (mirror s))))
    = (2 + times PushStep (steps (history s)))%nat /\
    times ScanStep (steps (history (snd (mirror s))))
    = (1 + times ScanStep (steps (history s)))%nat /\
    times RewriteStep (steps (history (snd (mirror s))))
    = (1 + times RewriteStep (steps (history s)))%nat.
Proof.
  intros Hclone Hurl Hadd Hpush Hscan Hrewrite.
  destruct (pushToGitHub_stubborn env this repoPath githubCloneUrl githubToken githubUsername
                                  url s1 Hurl Hadd Hpush Hscan Hrewrite)
    as (msg & between & before & s2 & Hmsg & Hrun & Hhistory & Hbefore & Hbetween).
  pose proof (cloneRepository_steps env this bitbucketCloneUrl repoName
                                    bitbucketUsername bitbucketPassword s) as Hc.
  rewrite Hclone in Hc. cbn [snd] in Hc. rewrite Hc in Hbefore.
  destruct (removeWorkspace_history env (Some repoPath) s2) as (removal & Hremoval & Hquiet).
  set (warnings := rev (map (fun m => LogEvent (warnSink this) ("Still problematic: " +:+ m))
                            (FilePattern.fileMatches msg))) in *.
  set (notice := LogEvent (warnSink this)
                          "Large file error persists after cleanup. Extracting file names...")
    in *.
  assert (Hfinal : history (snd (mirror s))
                   = (removal ++ warnings ++ [notice])
                       ++ GitEvent (pushCommand repoPath) (Rejected msg) :: before).
  { rewrite (mirrorRepository_after_clone env this _ _ _ _ _ _ _ _ _ _ Hclone).
    cbv zeta. rewrite Hrun. cbn [snd]. rewrite Hremoval, Hhistory.
    rewrite <- !app_assoc. reflexivity. }
  assert (Hafter : steps (removal ++ warnings ++ [notice]) = []).
  { rewrite !steps_app, Hquiet. unfold warnings.
    rewrite (logs_no_steps _ (rendered_logs _ _ _)). reflexivity. }
  assert (Hall : steps (history (snd (mirror s)))
                 = PushStep :: between ++ RewriteStep :: ScanStep :: PushStep
                            :: steps (history s)).
  { rewrite Hfinal, steps_app, Hafter. cbn [app steps classify pushCommand].
    rewrite Hbefore. reflexivity. }
  exists msg, between, (removal ++ warnings ++ [notice]), before.
  split; [exact Hfinal|]. split; [exact Hafter|]. split; [exact Hbefore|].
  split; [exact Hmsg|]. split.
  { rewrite (mirrorRepository_after_clone env this _ _ _ _ _ _ _ _ _ _ Hclone).
    cbv zeta. rewrite Hrun. reflexivity. }
  split.
  { intros m Hin. apply in_or_app. right. apply in_or_app. left. unfold warnings.
    apply -> in_rev.
    apply (in_map (fun m0 => LogEvent (warnSink this) ("Still problematic: " +:+ m0))).
    exact Hin. }
  split; [exact Hall|]. split; [exact Hbetween|].
  rewrite Hall. exact (steps_exactly between (steps (history s)) Hbetween).
Qed.

(** C6. When the push is rejected with a large-object signature but the
    scan returns an empty list, [mirrorRepository] fails after one push
    and one scan: no rewrite, no fallback, no maintenance, no second push. *)
Theorem empty_scan_stops_recovery (s s1 : State) (repoPath url : string) :
  clone s = (Ok repoPath, s1) ->
  url_with_auth env githubCloneUrl githubUsername githubToken = Some url ->
  remoteAccepted env repoPath url ->
  pushRejected env repoPath (fun m => isLargeFileError m = true) ->
  scanFindsNothing env repoPath ->
  fst (mirror s)
  = Throw "Failed to push to GitHub. Cleanup attempt failed: Push failed but no large files found" /\
  steps (history (snd (mirror s))) = ScanStep :: PushStep :: steps (history s).
Proof.
  intros Hclone Hurl Hadd Hpush Hscan.
  destruct (pushToGitHub_false_alarm env this repoPath githubCloneUrl githubToken githubUsername
                                     url s1 Hurl Hadd Hpush Hscan)
    as (s2 & Hrun & Hsteps).
  split.
  - rewrite (mirrorRepository_after_clone env this _ _ _ _ _ _ _ _ _ _ Hclone).
    cbv zeta. rewrite Hrun. reflexivity.
  - apply (mirrorRepository_steps_after_clone env this _ _ _ _ _ _ _ _ _ _ Hclone
             [ScanStep; PushStep]).
    rewrite Hrun. exact Hsteps.
Qed.

(** C7. When the push is rejected with a message that carries neither
    signature, [mirrorRepository] fails with that push error after the one
    push: no scan, no rewrite, no second push. *)
Theorem unrelated_push_failure_is_final (s s1 : State) (repoPath url msg : string) :
  clone s = (Ok repoPath, s1) ->
  url_with_auth env githubCloneUrl githubUsername githubToken = Some url ->
  remoteAccepted env repoPath url ->
  pushRejected env repoPath (fun m => m = msg) ->
  isLargeFileError msg = false ->
  fst (mirror s) = Throw ("Failed to push to GitHub: " +:+ msg) /\
  steps (history (snd (mirror s))) = PushStep :: steps (history s).
Proof.
  intros Hclone Hurl Hadd Hpush Hmsg.
  destruct (pushToGitHub_unrelated env this repoPath githubCloneUrl githubToken githubUsername
                                   url msg s1 Hurl Hadd Hpush Hmsg)
    as (s2 & Hrun & Hsteps).
  split.
  - rewrite (mirrorRepository_after_clone env this _ _ _ _ _ _ _ _ _ _ Hclone).
    cbv zeta. rewrite Hrun. reflexivity.
  - apply (mirrorRepository_steps_after_clone env this _ _ _ _ _ _ _ _ _ _ Hclone [PushStep]).
    rewrite Hrun. exact Hsteps.
Qed.

End RetryProtocol.

Lemma stubborn_push_retried_once_witness :
  exists between after before,
    history (snd (Worlds.mirrorDemo Worlds.stubborn Worlds.start))
    = after ++ GitEvent (pushCommand "temp/demo") (Rejected Worlds.githubRejection)
            :: before /\
    steps after = [] /\
    steps before = between ++ [RewriteStep; ScanStep; PushStep] /\
    fst (Worlds.mirrorDemo Worlds.stubborn Worlds.start)
    = Throw ("Failed to push to GitHub. Cleanup attempt failed: "
               +:+ "Large files still present after cleanup: "
               +:+ Worlds.githubRejection) /\
    In (LogEvent ConsoleWarn "Still problematic: File assets/video.mp4 is 150.00 MB") after /\
    times PushStep (steps (history (snd (Worlds.mirrorDemo Worlds.stubborn Worlds.start))))
    = 2%nat /\
    times ScanStep (steps (history (snd (Worlds.mirrorDemo Worlds.stubborn Worlds.start))))
    = 1%nat /\
    times RewriteStep (steps (history (snd (Worlds.mirrorDemo Worlds.stubborn Worlds.start))))
    = 1%nat.
Proof.
  destruct (stubborn_push_retried_once
              Worlds.stubborn Worlds.manager Worlds.source Worlds.destination "demo"
              "user" "app-password" "token" "octocat"
              Worlds.start (snd (Worlds.cloneDemo Worlds.stubborn Worlds.start))
              "temp/demo" Worlds.destination)
    as (msg & between & after & before & Hhistory & Hafter & Hbefore & _ & Hthrown
        & Hlogged & _ & _ & Hpushes & Hscans & Hrewrites).
  - reflexivity.
  - reflexivity.
  - intros st. eexists. reflexivity.
  - intros st. eexists. split; reflexivity.
  - intros st. eexists. split; [vm_compute; reflexivity|discriminate].
  - intros st [|file files]; eexists; vm_compute; reflexivity.
  - assert (Hrun : fst (Worlds.mirrorDemo Worlds.stubborn Worlds.start)
                   = Throw ("Failed to push to GitHub. Cleanup attempt failed: "
                              +:+ "Large files still present after cleanup: "
                              +:+ Worlds.githubRejection))
      by (vm_compute; reflexivity).
    unfold Worlds.mirrorDemo in *. rewrite Hthrown in Hrun.
    injection Hrun as Hmsg. change (msg = Worlds.githubRejection) in Hmsg. subst msg.
    exists between, after, before.
    split; [exact Hhistory|]. split; [exact Hafter|]. split; [exact Hbefore|].
    split; [exact Hthrown|]. split.
    + apply (Hlogged "File assets/video.mp4 is 150.00 MB").
      vm_compute. left. reflexivity.
    + split; [exact Hpushes|]. split; [exact Hscans|exact Hrewrites].
Defined.

Lemma empty_scan_stops_recovery_witness :
  fst (Worlds.mirrorDemo Worlds.falseAlarm Worlds.start)
  = Throw "Failed to push to GitHub. Cleanup attempt failed: Push failed but no large files found" /\
  steps (history (snd (Worlds.mirrorDemo Worlds.falseAlarm Worlds.start)))
  = [ScanStep; PushStep].
Proof.
  apply (empty_scan_stops_recovery
           Worlds.falseAlarm Worlds.manager Worlds.source Worlds.destination "demo"
           "user" "app-password" "token" "octocat"
           Worlds.start (snd (Worlds.cloneDemo Worlds.falseAlarm Worlds.start))
           "temp/demo" Worlds.destination).
  - reflexivity.
  - reflexivity.
  - intros st. eexists. reflexivity.
  - intros st. eexists. split; reflexivity.
  - intros st. vm_compute. reflexivity.
Defined.

Lemma unrelated_push_failure_is_final_witness :
  fst (Worlds.mirrorDemo Worlds.denied Worlds.start)
  = Throw "Failed to push to GitHub: remote: Permission to demo.git denied to user." /\
  steps (history (snd (Worlds.mirrorDemo Worlds.denied Worlds.start))) = [PushStep].
Proof.
  apply (unrelated_push_failure_is_final
           Worlds.denied Worlds.manager Worlds.source Worlds.destination "demo"
           "user" "app-password" "token" "octocat"
           Worlds.start (snd (Worlds.cloneDemo Worlds.denied Worlds.start))
           "temp/demo" Worlds.destination
           "remote: Permission to demo.git denied to user.").
  - reflexivity.
  - reflexivity.
  - intros st. eexists. reflexivity.
  - intros st. eexists. split; reflexivity.
  - reflexivity.
Defined.

(** ** Classification of a failed push *)

Section Classification.
Import JsString.

Lemma startsWith_spec p : forall s,
  startsWith p s = true <-> exists post, s = p +:+ post.
Proof.
  induction p as [|a p IH]; intros s; simpl.
  - split; [intros _; exists s; reflexivity | reflexivity].
  - destruct s as [|b s]; simpl.
    + split; [discriminate | intros [post H]; discriminate].
    + rewrite andb_true_iff, IH. split.
      * intros [Hab [post ->]]. apply Ascii.eqb_eq in Hab. subst b. exists post. reflexivity.
      * intros [post H]. injection H as -> ->. split; [apply Ascii.eqb_refl | exists post; reflexivity].
Qed.

(** [includes] is the substring test. *)
Lemma includes_spec sub : forall s,
  includes sub s = true <-> exists pre post, s = pre +:+ sub +:+ post.
Proof.
  induction s as [|c s IH]; simpl; rewrite orb_true_iff, startsWith_spec.
  - split.
    + intros [[post H] | H]; [|discriminate]. exists EmptyString, post. exact H.
    + intros (pre & post & H). left.
      destruct pre as [|x pre]; [|discriminate]. exists post. exact H.
  - rewrite IH. split.
    + intros [[post H] | (pre & post & H)].
      * exists EmptyString, post. exact H.
      * exists (String c pre), post. simpl. rewrite H. reflexivity.
    + intros (pre & post & H). destruct pre as [|x pre].
      * left. exists post. exact H.
      * right. simpl in H. injection H as -> ->. exists pre, post. reflexivity.
Qed.

Lemma isLargeFileError_spec msg :
  isLargeFileError msg = true <->
  (exists pre post, msg = pre +:+ "exceeds GitHub's file size limit" +:+ post) \/
  (exists pre post, msg = pre +:+ "GH001: Large files detected" +:+ post).
Proof.
  unfold isLargeFileError. rewrite orb_true_iff, !includes_spec. reflexivity.
Qed.

End Classification.

(** ** History only grows *)

Section Growth.
Context (env : Env) (this : GitManager).

#[local] Abbreviation grows := (onlyAdds (fun _ => True)).

Lemma grows_git cmd : grows (git env cmd).
Proof.
  intros s. rewrite git_history. eexists [_]. split; [reflexivity|repeat constructor].
Qed.

Lemma grows_spawn command args cwd : grows (spawn env command args cwd).
Proof. intros s. eexists [_]. split; [reflexivity|repeat constructor]. Qed.

Lemma grows_log message : grows (log this message).
Proof.
  intros s. rewrite log_run. eexists [_]. split; [reflexivity|repeat constructor].
Qed.

Lemma grows_logWarning message : grows (logWarning this message).
Proof.
  intros s. rewrite logWarning_run. eexists [_]. split; [reflexivity|repeat constructor].
Qed.

Lemma onlyAdds_forEach {A} P (items : list A) body :
  (forall x, onlyAdds P (body x)) -> onlyAdds P (forEach items body).
Proof.
  intros Hbody. induction items as [|x items IH]; cbn [forEach].
  - apply onlyAdds_ret.
  - apply onlyAdds_bind; [apply Hbody | intros _; exact IH].
Qed.

Lemma grows_forEach {A} (items : list A) body :
  (forall x, grows (body x)) -> grows (forEach items body).
Proof. apply onlyAdds_forEach. Qed.




Ltac grow :=
  first
         [ apply onlyAdds_bind; [|intros ?]
         | apply onlyAdds_catch; [|intros ?]
         | apply grows_forEach; intros ?
         | apply onlyAdds_ret
         | apply onlyAdds_throw
         | apply grows_git
         | apply grows_spawn
         | apply grows_log
         | apply grows_logWarning
         | match goal with
           | |- onlyAdds _ (if ?b then _ else _) => destruct b
           | |- onlyAdds _ (match ?x with _ => _ end) => destruct x
           end ].

Lemma grows_attemptPush repoPath url isRetry :
  grows (attemptPush env this repoPath url isRetry).
Proof. unfold attemptPush, attemptPush_catch. repeat grow. Qed.

Lemma grows_cleanupRepository repoPath : grows (cleanupRepository env this repoPath).
Proof. unfold cleanupRepository. repeat grow. Qed.

Lemma grows_fallback repoPath filePaths :
  grows (removeLargeFilesWithFilterBranch env this repoPath filePaths).
Proof. unfold removeLargeFilesWithFilterBranch. repeat grow. Qed.

Lemma grows_removeLargeFiles repoPath files :
  grows (removeLargeFiles env this repoPath files).
Proof.
  unfold removeLargeFiles.
  repeat first [apply grows_fallback | apply start_grows | apply settle_grows | grow].
Qed.

(** [removeLargeFiles] on a non-empty list starts by logging the count
    and spawning [filter-repo] with one [--path] per record. *)
Lemma removeLargeFiles_history repoPath file files st :
  exists exit rest,
    history (snd (removeLargeFiles env this repoPath (file :: files) st))
    = rest ++ SpawnEvent "git"
                 (["filter-repo"; "--invert-paths"; "--force"]
                    ++ flat_map (fun p => ["--path"; p]) (map path (file :: files)))
                 repoPath exit
           :: LogEvent (infoSink this)
                 ("Removing " +:+ JsString.ofNat (length (file :: files))
                  +:+ " large files from repository history...")
           :: history st.
Proof.
  unfold removeLargeFiles. change ((length (file :: files) =? 0)%nat) with false.
  cbv iota zeta. rewrite bind_run, log_run. rewrite bind_run. unfold spawn at 1.
  match goal with
  | |- context [spawn_run env ?st0 "git" ?args repoPath] =>
      exists (spawn_run env st0 "git" args repoPath);
      generalize (spawn_run env st0 "git" args repoPath)
  end.
  intros exit.
  match goal with
  | |- context [history (snd (?k ?st1))] => assert (Hgrow : grows k)
  end.
  { repeat first [apply grows_fallback | apply start_grows | apply settle_grows | grow]. }
  match goal with
  | |- context [history (snd (?k ?st1))] => destruct (Hgrow st1) as (new & -> & _)
  end.
  exists new. reflexivity.
Qed.

(** Once the first push has been rejected as too large, the scan is the
    next step of [pushToGitHub], whatever happens afterwards. *)
Lemma pushToGitHub_scans repoPath githubCloneUrl githubToken githubUsername url s :
  url_with_auth env githubCloneUrl githubUsername githubToken = Some url ->
  remoteAccepted env repoPath url ->
  pushRejected env repoPath (fun m => isLargeFileError m = true) ->
  exists later,
    steps (history (snd (pushToGitHub env this repoPath githubCloneUrl
                                      githubToken githubUsername s)))
    = later ++ ScanStep :: PushStep :: steps (history s).
Proof.
  intros Hurl Hadd Hpush. unfold pushToGitHub.
  rewrite bind_run. unfold addAuthToUrl. rewrite Hurl. unfold ret at 1.
  rewrite bind_run.
  destruct (attemptPush_rejected env this repoPath url false _ s Hadd Hpush)
    as (m & s3 & Hm & -> & Hsteps).
  rewrite attemptPush_catch_first by exact Hm. cbv iota.
  rewrite bind_run, log_run. unfold pushToGitHub_recover. rewrite try_catch_bind.
  match goal with
  | |- context [findLargeFiles env repoPath defaultSizeLimit ?st] =>
      pose proof (findLargeFiles_steps env repoPath defaultSizeLimit st) as Hfound;
      destruct (findLargeFiles env repoPath defaultSizeLimit st) as [[files|e] s4]
  end; cbn [snd history record steps classify] in Hfound; rewrite Hsteps in Hfound.
  - match goal with
    | |- context [try_catch ?m ?h s4] =>
        assert (Hgrow : grows (try_catch m h))
    end.
    { repeat first
             [ apply grows_removeLargeFiles
             | apply grows_cleanupRepository
             | apply grows_attemptPush
             | grow ]. }
    destruct (Hgrow s4) as (new & -> & _).
    exists (steps new). rewrite steps_app, Hfound. reflexivity.
  - exists []. exact Hfound.
Qed.


End Growth.


(** C3 (amended).  A rejected first push is classified as a recoverable
    large-object failure exactly when its message contains
    ["exceeds GitHub's file size limit"] or ["GH001: Large files detected"]
    (the code's two texts, matched with their case); every other message
    is rethrown as a push error.  A message containing either text makes
    [pushToGitHub] start the scan right after the first push. *)
Theorem push_failure_classification
        (env : Env) (this : GitManager)
        (repoPath githubCloneUrl githubToken githubUsername url msg : string) (s : State) :
  url_with_auth env githubCloneUrl githubUsername githubToken = Some url ->
  remoteAccepted env repoPath url ->
  pushRejected env repoPath (fun m => m = msg) ->
  (fst (attemptPush env this repoPath url false s) = Ok false <->
   occursIn "exceeds GitHub's file size limit" msg \/
   occursIn "GH001: Large files detected" msg) /\
  (fst (attemptPush env this repoPath url false s) <> Ok false ->
   fst (attemptPush env this repoPath url false s)
   = Throw ("Failed to push to GitHub: " +:+ msg)) /\
  (occursIn "exceeds GitHub's file size limit" msg \/
   occursIn "GH001: Large files detected" msg ->
   exists later,
     steps (history (snd (pushToGitHub env this repoPath githubCloneUrl
                                       githubToken githubUsername s)))
     = later ++ ScanStep :: PushStep :: steps (history s)).
Proof.
  intros Hurl Hadd Hpush.
  destruct (attemptPush_rejected env this repoPath url false _ s Hadd Hpush)
    as (m & s3 & -> & Hrun & _).
  pose proof (isLargeFileError_spec msg) as Hspec. unfold occursIn.
  destruct (isLargeFileError msg) eqn:Hlarge.
  - rewrite attemptPush_catch_first in Hrun by exact Hlarge. rewrite Hrun. cbn [fst].
    split; [split; [intros _; apply Hspec; reflexivity | reflexivity]|].
    split; [intros Hne; contradiction|].
    intros _. apply (pushToGitHub_scans env this repoPath githubCloneUrl githubToken
                                        githubUsername url s Hurl Hadd).
    intros st. destruct (Hpush st) as (m' & Hm' & ->). exists msg. split; assumption.
  - rewrite attemptPush_catch_other in Hrun by exact Hlarge. rewrite Hrun. cbn [fst].
    split; [split; [discriminate | intros H; apply Hspec in H; discriminate]|].
    split; [reflexivity|].
    intros H. apply Hspec in H. discriminate.
Qed.

Lemma push_failure_classification_witness :
  (fst (attemptPush Worlds.stubborn Worlds.manager "temp/demo" Worlds.destination false
                    Worlds.start) = Ok false <->
   occursIn "exceeds GitHub's file size limit" Worlds.githubRejection \/
   occursIn "GH001: Large files detected" Worlds.githubRejection) /\
  (fst (attemptPush Worlds.stubborn Worlds.manager "temp/demo" Worlds.destination false
                    Worlds.start) <> Ok false ->
   fst (attemptPush Worlds.stubborn Worlds.manager "temp/demo" Worlds.destination false
                    Worlds.start)
   = Throw ("Failed to push to GitHub: " +:+ Worlds.githubRejection)) /\
  (occursIn "exceeds GitHub's file size limit" Worlds.githubRejection \/
   occursIn "GH001: Large files detected" Worlds.githubRejection ->
   exists later,
     steps (history (snd (pushToGitHub Worlds.stubborn Worlds.manager "temp/demo"
                                       Worlds.destination "token" "octocat" Worlds.start)))
     = later ++ ScanStep :: PushStep :: steps (history Worlds.start)).
Proof.
  apply (push_failure_classification
           Worlds.stubborn Worlds.manager "temp/demo" Worlds.destination "token" "octocat"
           Worlds.destination Worlds.githubRejection Worlds.start).
  - reflexivity.
  - intros st. eexists. reflexivity.
  - intros st. eexists. split; reflexivity.
Defined.

(** C3, as worded.  A rejection that contains the specification's text
    ["exceeds file size limit"] is not taken for a large-object failure:
    the push error is rethrown and no scan is started.  And GitHub's own
    rejection text, which the code does take for one, contains neither of
    the specification's two texts. *)
Lemma spec_signatures_not_the_codes :
  specIsLargeFileError "remote: error: File assets/video.mp4 exceeds file size limit" = true /\
  fst (attemptPush Worlds.specWording Worlds.manager "temp/demo" Worlds.destination false
                   Worlds.start)
  = Throw ("Failed to push to GitHub: "
             +:+ "remote: error: File assets/video.mp4 exceeds file size limit") /\
  steps (history (snd (Worlds.mirrorDemo Worlds.specWording Worlds.start))) = [PushStep] /\
  specIsLargeFileError Worlds.githubRejection = false /\
  fst (attemptPush Worlds.stubborn Worlds.manager "temp/demo" Worlds.destination false
                   Worlds.start)
  = Ok false.
Proof. vm_compute. repeat split. Qed.

(** ** Claims about the scanner *)

Lemma slots_origin sizeLimit objs :
  forall exits f,
    In f (omap id (zip_with (slotOf sizeLimit) objs exits)) ->
    exists i obj exit,
      objs !! i = Some obj /\ exits !! i = Some exit /\ slotOf sizeLimit obj exit = Some f.
Proof.
  induction objs as [|obj objs IH]; intros [|exit exits] f Hin; try contradiction.
  cbn [zip_with omap list_omap] in Hin.
  destruct (slotOf sizeLimit obj exit) as [g|] eqn:Hslot; cbn [id] in Hin.
  - destruct Hin as [-> | Hin].
    + exists 0%nat, obj, exit. repeat split; assumption.
    + destruct (IH exits f Hin) as (i & o & x & Ho & Hx & Hs).
      exists (S i), o, x. repeat split; assumption.
  - destruct (IH exits f Hin) as (i & o & x & Ho & Hx & Hs).
    exists (S i), o, x. repeat split; assumption.
Qed.

Lemma failed_lookup_leaves_no_slot sizeLimit obj exit :
  0 < sizeLimit -> lookupFailed exit = true -> slotOf sizeLimit obj exit = None.
Proof.
  intros Hlimit Hfailed. unfold slotOf.
  assert (Hzero : sizeOfExit exit = 0).
  { destruct exit as [e|[[| |]|] out err]; try reflexivity. discriminate. }
  rewrite Hzero. destruct (Z.leb_spec sizeLimit 0); [lia|reflexivity].
Qed.

(** C4 (amended).  When the enumeration succeeds, the scanner returns one
    record for every enumerated line that carries a path and whose size
    lookup answered at least the limit, in enumeration order and without
    merging records of equal path; [removeLargeFiles] then hands every
    record's path to [filter-repo], one [--path] argument per record. *)
Theorem scanner_keeps_every_large_entry
        (env : Env) (this : GitManager) (repoPath : string) (sizeLimit : Z) (s : State)
        (output err : string) :
  spawn_run env s "git" ["rev-list"; "--objects"; "--all"] repoPath
  = Close (Some 0) output err ->
  let objs := omap entry (objectLines output) in
  (exists exits,
      length exits = length objs /\
      fst (findLargeFiles env repoPath sizeLimit s)
      = Ok (omap id (zip_with (slotOf sizeLimit) objs exits)) /\
      history (snd (findLargeFiles env repoPath sizeLimit s))
      = rev (zip_with (lookupEvent repoPath) objs exits)
            ++ revListEvent repoPath (Close (Some 0) output err) :: history s) /\
  (forall file files st,
      exists exit rest,
        history (snd (removeLargeFiles env this repoPath (file :: files) st))
        = rest ++ SpawnEvent "git"
                     (["filter-repo"; "--invert-paths"; "--force"]
                        ++ flat_map (fun p => ["--path"; p]) (map path (file :: files)))
                     repoPath exit
               :: LogEvent (infoSink this)
                     ("Removing " +:+ JsString.ofNat (length (file :: files))
                      +:+ " large files from repository history...")
               :: history st).
Proof.
  intros Hlisting objs. split.
  - pose proof (findLargeFiles_run env repoPath sizeLimit s) as Hrun. cbv zeta in Hrun.
    rewrite Hlisting in Hrun. destruct Hrun as (exits & Hlen & ->).
    exists exits. split; [exact Hlen|]. split; reflexivity.
  - intros file files st. apply removeLargeFiles_history.
Qed.

Lemma scanner_keeps_every_large_entry_witness :
  exists exits,
    length exits = 2%nat /\
    fst (findLargeFiles Worlds.twoVersions "temp/demo" defaultSizeLimit Worlds.start)
    = Ok (omap id (zip_with (slotOf defaultSizeLimit)
                            [("aaa1", "assets/video.mp4"); ("bbb2", "assets/video.mp4")]
                            exits)) /\
    history (snd (findLargeFiles Worlds.twoVersions "temp/demo" defaultSizeLimit Worlds.start))
    = rev (zip_with (lookupEvent "temp/demo")
                    [("aaa1", "assets/video.mp4"); ("bbb2", "assets/video.mp4")] exits)
          ++ [revListEvent "temp/demo" Worlds.twoVersionsListing].
Proof.
  apply (scanner_keeps_every_large_entry
           Worlds.twoVersions Worlds.manager "temp/demo" defaultSizeLimit Worlds.start
           ("aaa1 assets/video.mp4" +:+ Worlds.nl +:+ "bbb2 assets/video.mp4" +:+ Worlds.nl)
           EmptyString).
  reflexivity.
Defined.

(** C4, as worded.  Two versions of one file, both above the limit, are
    two objects enumerated under the same path; the scanner returns a
    record for each, so the same path occurs twice in its result. *)
Lemma scanner_returns_equal_paths :
  fst (findLargeFiles Worlds.twoVersions "temp/demo" defaultSizeLimit Worlds.start)
  = Ok [mkLargeFile "assets/video.mp4" 157286400 "aaa1";
        mkLargeFile "assets/video.mp4" 157286400 "bbb2"] /\
  ~ List.NoDup (map path [mkLargeFile "assets/video.mp4" 157286400 "aaa1";
                          mkLargeFile "assets/video.mp4" 157286400 "bbb2"]).
Proof.
  split; [vm_compute; reflexivity|].
  cbn [map path]. intros Hnodup. inversion Hnodup as [|x l Hnotin _]; subst.
  apply Hnotin. left. reflexivity.
Qed.

(** C8.  With a positive size limit: when the enumeration cannot be
    spawned or does not exit with code 0 the scan fails, before any size
    lookup; when it exits with code 0 the scan returns normally whatever
    the lookups answer, and every record it returns stems from a lookup
    that did not fail, so an object whose lookup failed is left out. *)
Theorem scan_failure_handling
        (env : Env) (repoPath : string) (sizeLimit : Z) (s : State) :
  0 < sizeLimit ->
  (forall e,
      spawn_run env s "git" ["rev-list"; "--objects"; "--all"] repoPath = SpawnError e ->
      findLargeFiles env repoPath sizeLimit s
      = (Throw e, record (revListEvent repoPath (SpawnError e)) s)) /\
  (forall code output err,
      spawn_run env s "git" ["rev-list"; "--objects"; "--all"] repoPath
      = Close code output err ->
      code <> Some 0 ->
      findLargeFiles env repoPath sizeLimit s
      = (Throw "Failed to list git objects",
         record (revListEvent repoPath (Close code output err)) s)) /\
  (forall output err,
      spawn_run env s "git" ["rev-list"; "--objects"; "--all"] repoPath
      = Close (Some 0) output err ->
      let objs := omap entry (objectLines output) in
      exists exits,
        length exits = length objs /\
        fst (findLargeFiles env repoPath sizeLimit s)
        = Ok (omap id (zip_with (slotOf sizeLimit) objs exits)) /\
        history (snd (findLargeFiles env repoPath sizeLimit s))
        = rev (zip_with (lookupEvent repoPath) objs exits)
              ++ revListEvent repoPath (Close (Some 0) output err) :: history s /\
        (forall i obj exit,
            objs !! i = Some obj -> exits !! i = Some exit ->
            lookupFailed exit = true -> slotOf sizeLimit obj exit = None) /\
        (forall f,
            In f (omap id (zip_with (slotOf sizeLimit) objs exits)) ->
            exists i obj exit,
              objs !! i = Some obj /\ exits !! i = Some exit /\
              lookupFailed exit = false /\
              f = mkLargeFile (snd obj) (sizeOfExit exit) (fst obj))).
Proof.
  intros Hlimit.
  pose proof (findLargeFiles_run env repoPath sizeLimit s) as Hrun. cbv zeta in Hrun.
  split; [|split].
  - intros e He. rewrite He in Hrun. exact Hrun.
  - intros code output err Hc Hcode. rewrite Hc in Hrun.
    destruct code as [[| |]|]; try exact Hrun. contradiction.
  - intros output err Hc objs. rewrite Hc in Hrun. destruct Hrun as (exits & Hlen & Hrun).
    exists exits. rewrite Hrun. cbn [fst snd history].
    repeat split; try assumption.
    + intros i obj exit _ _. apply failed_lookup_leaves_no_slot. exact Hlimit.
    + intros f Hin.
      destruct (slots_origin sizeLimit objs exits f Hin) as (i & obj & exit & Ho & Hx & Hs).
      exists i, obj, exit. repeat split; try assumption.
      * destruct (lookupFailed exit) eqn:Hfailed; [|reflexivity].
        rewrite (failed_lookup_leaves_no_slot sizeLimit obj exit Hlimit Hfailed) in Hs.
        discriminate.
      * unfold slotOf in Hs. destruct (sizeLimit <=? sizeOfExit exit); [|discriminate].
        injection Hs as <-. reflexivity.
Qed.

Lemma scan_failure_handling_witness :
  exists exits,
    length exits = 2%nat /\
    fst (findLargeFiles Worlds.brokenLookup "temp/demo" defaultSizeLimit Worlds.start)
    = Ok (omap id (zip_with (slotOf defaultSizeLimit)
                            [("aaa1", "assets/video.mp4"); ("bbb2", "assets/video.mp4")]
                            exits)) /\
    fst (findLargeFiles Worlds.brokenLookup "temp/demo" defaultSizeLimit Worlds.start)
    = Ok [mkLargeFile "assets/video.mp4" 157286400 "aaa1"].
Proof.
  destruct (scan_failure_handling Worlds.brokenLookup "temp/demo" defaultSizeLimit
                                  Worlds.start) as (_ & _ & Hscan).
  - reflexivity.
  - destruct (Hscan ("aaa1 assets/video.mp4" +:+ Worlds.nl
                       +:+ "bbb2 assets/video.mp4" +:+ Worlds.nl) EmptyString)
      as (exits & Hlen & Hresult & _).
    + reflexivity.
    + exists exits. split; [exact Hlen|]. split; [exact Hresult|].
      vm_compute. reflexivity.
Defined.

(** ** Claims about the rewriter *)

Section Rewriter.
Context (env : Env) (this : GitManager) (repoPath : string).

Lemma deleteTraces_deletions attempts :
  rev (deletions (deleteTraces this repoPath attempts)) = attempts.
Proof.
  induction attempts as [|[ref o] attempts IH]; [reflexivity|].
  cbn [deleteTraces]. rewrite deletions_app, rev_app_distr, IH.
  unfold deleteTrace; cbn [fst snd]. destruct o; reflexivity.
Qed.





End Rewriter.




(** The fallback of the example world, run: both backup references are
    tried, the second deletion is rejected and logged, the rewrite
    returns [true]. *)
Example fallback_example :
  let run := removeLargeFilesWithFilterBranch Worlds.fallbackOnly Worlds.manager "temp/demo"
                                              ["assets/video.mp4"] Worlds.start in
  fst run = Ok true /\
  rev (deletions (history (snd run)))
  = [("refs/original/refs/heads/main", Fulfilled EmptyString);
     ("refs/original/refs/tags/v1",
      Rejected "error: cannot lock ref 'refs/original/refs/tags/v1'")] /\
  In (LogEvent ConsoleWarn "Could not delete original ref: refs/original/refs/tags/v1")
     (history (snd run)).
Proof. vm_compute. repeat split. right. left. reflexivity. Qed.

(** A rewriter that cannot be started sets off the fallback twice, once
    from each handler of the process.  In the example world the run
    started second is answered first and settles the promise: the
    history rewrite has been issued twice by then, and the other run has
    gone no further than listing the backup references. *)
Example two_fallback_runs_example :
  let run := removeLargeFiles MoreWorlds.overtaken Worlds.manager "temp/demo"
               [mkLargeFile "assets/video.mp4" 157286400 "a1"] Worlds.start in
  fst run = Ok true /\
  steps (history (snd run)) = [FallbackStep; FallbackStep; RewriteStep] /\
  rev (deletions (history (snd run)))
  = [("refs/original/refs/heads/main", Fulfilled EmptyString);
     ("refs/original/refs/tags/v1",
      Rejected "error: cannot lock ref 'refs/original/refs/tags/v1'")].
Proof. vm_compute. repeat split. Qed.

(** ** Claims about the workspace *)

Section Workspace.
Context (env : Env) (this : GitManager).

Lemma elem_of_remove_tree p q files :
  q ∈ remove_tree p files <-> q ∈ files /\ within p q = false.
Proof. unfold remove_tree. rewrite elem_of_filter. tauto. Qed.

Lemma within_refl p : within p p = true.
Proof. unfold within. rewrite String.eqb_refl. reflexivity. Qed.

Lemma removed_tree_is_gone p q files : within p q = true -> q ∉ remove_tree p files.
Proof. intros Hin Hq. apply elem_of_remove_tree in Hq as [_ Hout]. congruence. Qed.

Lemma cleanupTempDir_run s :
  cleanupTempDir env this s =
  (Ok tt,
   match fs_fault env s (Rm (tempDir this)) with
   | None => mkState (remove_tree (tempDir this) (fs s))
                     (FsEvent (Rm (tempDir this)) None :: history s)
   | Some e =>
       record (LogEvent ConsoleWarn ("Warning: Failed to cleanup temp directory: " +:+ e))
              (record (FsEvent (Rm (tempDir this)) (Some e)) s)
   end).
Proof.
  unfold cleanupTempDir, try_catch, fs_rm.
  destruct (fs_fault env s (Rm (tempDir this))); reflexivity.
Qed.

(** The three stages of [cloneRepository] after each other. *)
Lemma cloneRepository_run cloneUrl repoName username appPassword s :
  let repoPath := path_join env (tempDir this) repoName in
  cloneRepository env this cloneUrl repoName username appPassword s =
  match ensureTempDir env this s with
  | (Throw e, s0) => (Throw e, s0)
  | (Ok _, s0) =>
      let s1 := snd (try_catch (fs_access env repoPath ;; fs_rm env repoPath)
                               (fun _ => ret tt) s0) in
      match url_with_auth env cloneUrl username appPassword with
      | None => (Throw ("Invalid URL format: " +:+ cloneUrl), s1)
      | Some url =>
          match git_run env s1 (Clone url repoPath ["--bare"]) with
          | Fulfilled out =>
              (Ok repoPath,
               mkState ({[ repoPath ]} ∪ fs s1)
                       (GitEvent (Clone url repoPath ["--bare"]) (Fulfilled out) :: history s1))
          | Rejected e =>
              (Throw ("Failed to clone repository " +:+ repoName +:+ ": " +:+ e),
               record (GitEvent (Clone url repoPath ["--bare"]) (Rejected e)) s1)
          end
      end
  end.
Proof.
  intros repoPath. unfold cloneRepository. fold repoPath.
  rewrite bind_run. destruct (ensureTempDir env this s) as [[[]|e] s0]; [|reflexivity].
  rewrite bind_run.
  assert (Hsweep : fst (try_catch (fs_access env repoPath ;; fs_rm env repoPath)
                                  (fun _ => ret tt) s0) = Ok tt).
  { unfold try_catch, bind.
    destruct (fs_access env repoPath s0) as [[[]|e] sa]; [|reflexivity].
    destruct (fs_rm env repoPath sa) as [[[]|e] sb]; reflexivity. }
  destruct (try_catch (fs_access env repoPath ;; fs_rm env repoPath) (fun _ => ret tt) s0)
    as [r s1]. cbn [fst snd] in *. subst r.
  rewrite bind_run. unfold addAuthToUrl.
  destruct (url_with_auth env cloneUrl username appPassword) as [url|]; [|reflexivity].
  unfold ret at 1. unfold try_catch, bind, git.
  destruct (git_run env s1 (Clone url repoPath ["--bare"])); reflexivity.
Qed.

End Workspace.

(** C2.  Whenever the clone has returned a path (a non-empty string, as
    [path.join] always gives), [mirrorRepository] ends by removing that
    path, after the push pipeline and whatever its outcome.  The result of [mirrorRepository] is the outcome of the
    pipeline in either case.  When the removal succeeds, the path and
    everything below it are gone from the file system; when it fails,
    the failure is written to the console as a warning and nothing is
    thrown.  [cleanupTempDir] behaves the same way on the base
    directory. *)
Theorem workspace_removed_on_every_outcome
        (env : Env) (this : GitManager)
        (bitbucketCloneUrl githubCloneUrl repoName : string)
        (bitbucketUsername bitbucketPassword githubToken githubUsername : string)
        (s s1 : State) (repoPath : string) :
  cloneRepository env this bitbucketCloneUrl repoName bitbucketUsername bitbucketPassword s
  = (Ok repoPath, s1) ->
  JsString.truthy repoPath = true ->
  exists primary s2 final,
    pushToGitHub env this repoPath githubCloneUrl githubToken githubUsername s1
    = (primary, s2) /\
    mirrorRepository env this bitbucketCloneUrl githubCloneUrl repoName
                     bitbucketUsername bitbucketPassword githubToken githubUsername s
    = (match primary with Ok _ => Ok true | Throw e => Throw e end, final) /\
    match fs_fault env s2 (Rm repoPath) with
    | None =>
        history final = FsEvent (Rm repoPath) None :: history s2 /\
        (forall q, within repoPath q = true -> q ∉ fs final) /\
        repoPath ∉ fs final
    | Some e =>
        history final
        = LogEvent ConsoleWarn
                   ("Warning: Failed to cleanup temp directory " +:+ repoPath +:+ ": " +:+ e)
                   :: FsEvent (Rm repoPath) (Some e) :: history s2 /\
        fs final = fs s2
    end /\
    (forall st,
        exists after,
          cleanupTempDir env this st = (Ok tt, after) /\
          match fs_fault env st (Rm (tempDir this)) with
          | None =>
              history after = FsEvent (Rm (tempDir this)) None :: history st /\
              (forall q, within (tempDir this) q = true -> q ∉ fs after)
          | Some e =>
              history after
              = LogEvent ConsoleWarn ("Warning: Failed to cleanup temp directory: " +:+ e)
                         :: FsEvent (Rm (tempDir this)) (Some e) :: history st /\
              fs after = fs st
          end).
Proof.
  intros Hclone Htruthy.
  destruct (pushToGitHub env this repoPath githubCloneUrl githubToken githubUsername s1)
    as [primary s2] eqn:Hpush.
  exists primary, s2. eexists. split; [reflexivity|]. split; [|split].
  - rewrite (mirrorRepository_after_clone env this _ _ _ _ _ _ _ _ _ _ Hclone).
    cbv zeta. rewrite Hpush. cbn [fst snd].
    rewrite removeWorkspace_run by exact Htruthy. reflexivity.
  - cbn [snd]. destruct (fs_fault env s2 (Rm repoPath)) as [e|].
    + split; reflexivity.
    + split; [reflexivity|]. cbn [fs]. split.
      * intros q Hq. apply removed_tree_is_gone. exact Hq.
      * apply removed_tree_is_gone. apply within_refl.
  - intros st. eexists. split; [apply cleanupTempDir_run|].
    destruct (fs_fault env st (Rm (tempDir this))) as [e|].
    + split; reflexivity.
    + split; [reflexivity|]. cbn [fs]. intros q Hq. apply removed_tree_is_gone. exact Hq.
Qed.

Lemma workspace_removed_on_every_outcome_witness :
  exists primary s2 final,
    pushToGitHub Worlds.busy Worlds.manager "temp/demo" Worlds.destination "token" "octocat"
                 (snd (Worlds.cloneDemo Worlds.busy Worlds.start))
    = (primary, s2) /\
    Worlds.mirrorDemo Worlds.busy Worlds.start
    = (match primary with Ok _ => Ok true | Throw e => Throw e end, final) /\
    match fs_fault Worlds.busy s2 (Rm "temp/demo") with
    | None =>
        history final = FsEvent (Rm "temp/demo") None :: history s2 /\
        (forall q, within "temp/demo" q = true -> q ∉ fs final) /\
        "temp/demo" ∉ fs final
    | Some e =>
        history final
        = LogEvent ConsoleWarn
                   ("Warning: Failed to cleanup temp directory " +:+ "temp/demo" +:+ ": " +:+ e)
                   :: FsEvent (Rm "temp/demo") (Some e) :: history s2 /\
        fs final = fs s2
    end /\
    (forall st,
        exists after,
          cleanupTempDir Worlds.busy Worlds.manager st = (Ok tt, after) /\
          match fs_fault Worlds.busy st (Rm (tempDir Worlds.manager)) with
          | None =>
              history after = FsEvent (Rm (tempDir Worlds.manager)) None :: history st /\
              (forall q, within (tempDir Worlds.manager) q = true -> q ∉ fs after)
          | Some e =>
              history after
              = LogEvent ConsoleWarn ("Warning: Failed to cleanup temp directory: " +:+ e)
                         :: FsEvent (Rm (tempDir Worlds.manager)) (Some e) :: history st /\
              fs after = fs st
          end).
Proof.
  apply (workspace_removed_on_every_outcome
           Worlds.busy Worlds.manager Worlds.source Worlds.destination "demo"
           "user" "app-password" "token" "octocat" Worlds.start).
  - reflexivity.
  - reflexivity.
Defined.

(** Two runs of the example job: where the disk works the workspace is
    gone afterwards, also when the push was refused; where nothing can be
    removed the mirror still succeeds and the failure is only logged. *)
Example workspace_examples :
  fst (Worlds.mirrorDemo Worlds.smooth Worlds.start) = Ok true /\
  ("temp/demo" ∉ fs (snd (Worlds.mirrorDemo Worlds.smooth Worlds.start))) /\
  ("temp/demo" ∉ fs (snd (Worlds.mirrorDemo Worlds.denied Worlds.start))) /\
  ("temp/demo" ∈ fs (snd (Worlds.cloneDemo Worlds.denied Worlds.start))) /\
  fst (Worlds.mirrorDemo Worlds.busy Worlds.start) = Ok true /\
  hd_error (history (snd (Worlds.mirrorDemo Worlds.busy Worlds.start)))
  = Some (LogEvent ConsoleWarn
                   "Warning: Failed to cleanup temp directory temp/demo: EBUSY: resource busy or locked").
Proof.
  split; [vm_compute; reflexivity|].
  split; [apply (bool_decide_eq_false_1 _ ); vm_compute; reflexivity|].
  split; [apply (bool_decide_eq_false_1 _ ); vm_compute; reflexivity|].
  split; [apply (bool_decide_eq_true_1 _ ); vm_compute; reflexivity|].
  split; vm_compute; reflexivity.
Qed.

Section Reuse.
Context (env : Env) (this : GitManager).
Context (cloneUrl repoName username appPassword url : string).

#[local] Abbreviation repoPath := (path_join env (tempDir this) repoName).
#[local] Abbreviation acquire :=
  (cloneRepository env this cloneUrl repoName username appPassword).
#[local] Abbreviation cloneCommand := (Clone url repoPath ["--bare"]).

Lemma ensureTempDir_clean s :
  (forall st, fs_fault env st (Mkdir (tempDir this)) = None) ->
  exists before s',
    ensureTempDir env this s = (Ok tt, s') /\
    history s' = before ++ history s /\
    Forall (isBaseDirEvent (tempDir this)) before /\
    (forall q, q ∈ fs s -> q ∈ fs s').
Proof.
  intros Hmkdir. unfold ensureTempDir, try_catch, fs_access, fs_mkdir.
  destruct (fs_fault env s (Access (tempDir this))) as [e|].
  - rewrite Hmkdir. eexists [_; _], _. split; [reflexivity|]. split; [reflexivity|].
    split; [repeat constructor|]. intros q Hq. cbn [fs record]. set_solver.
  - destruct (decide (tempDir this ∈ fs s)).
    + eexists [_], _. split; [reflexivity|]. split; [reflexivity|].
      split; [repeat constructor|]. intros q Hq. exact Hq.
    + rewrite Hmkdir. eexists [_; _], _. split; [reflexivity|]. split; [reflexivity|].
      split; [repeat constructor|]. intros q Hq. cbn [fs record]. set_solver.
Qed.

(** The guarded removal in front of the clone, where the path can be
    probed and removed: a path that exists is removed, a path that does
    not exist is left alone, and in both cases nothing is at the path
    afterwards. *)
Lemma sweep_clean p s :
  (forall st, fs_fault env st (Access p) = None) ->
  (forall st, fs_fault env st (Rm p) = None) ->
  exists sweep s',
    try_catch (fs_access env p ;; fs_rm env p) (fun _ => ret tt) s = (Ok tt, s') /\
    history s' = sweep ++ history s /\
    (p ∉ fs s') /\
    (p ∈ fs s -> sweep = [FsEvent (Rm p) None; FsEvent (Access p) None]).
Proof.
  intros Hprobe Hremove. unfold try_catch, bind, fs_access, fs_rm.
  rewrite Hprobe. destruct (decide (p ∈ fs s)) as [Hin|Hout].
  - cbn [record]. rewrite Hremove. eexists [_; _], _.
    split; [reflexivity|]. split; [reflexivity|].
    split; [apply removed_tree_is_gone, within_refl | intros _; reflexivity].
  - eexists [_], _. split; [reflexivity|]. split; [reflexivity|].
    split; [exact Hout | intros Hin; contradiction].
Qed.

(** The guarded removal where the path exists and cannot be removed: the
    rejection is swallowed and the path is still there. *)
Lemma sweep_refused p s e :
  fs_fault env s (Access p) = None ->
  p ∈ fs s ->
  fs_fault env (record (FsEvent (Access p) None) s) (Rm p) = Some e ->
  try_catch (fs_access env p ;; fs_rm env p) (fun _ => ret tt) s
  = (Ok tt, record (FsEvent (Rm p) (Some e)) (record (FsEvent (Access p) None) s)).
Proof.
  intros Hprobe Hin Hremove. unfold try_catch, bind, fs_access, fs_rm.
  rewrite Hprobe. destruct (decide (p ∈ fs s)) as [_|Hout]; [|contradiction].
  rewrite Hremove. reflexivity.
Qed.

Lemma acquire_clean s :
  (forall st, fs_fault env st (Mkdir (tempDir this)) = None) ->
  (forall st, fs_fault env st (Access repoPath) = None) ->
  (forall st, fs_fault env st (Rm repoPath) = None) ->
  url_with_auth env cloneUrl username appPassword = Some url ->
  (forall st, repoPath ∉ fs st -> exists out, git_run env st cloneCommand = Fulfilled out) ->
  exists out sweep before s',
    acquire s = (Ok repoPath, s') /\
    history s' = GitEvent cloneCommand (Fulfilled out) :: sweep ++ before ++ history s /\
    Forall (isBaseDirEvent (tempDir this)) before /\
    (repoPath ∈ fs s ->
     sweep = [FsEvent (Rm repoPath) None; FsEvent (Access repoPath) None]) /\
    repoPath ∈ fs s'.
Proof.
  intros Hmkdir Hprobe Hremove Hurl Hclone. unfold cloneRepository.
  destruct (ensureTempDir_clean s Hmkdir) as (before & sa & Hensure & Hbefore & Hbase & Hkeep).
  rewrite bind_run, Hensure. cbv zeta.
  destruct (sweep_clean repoPath sa Hprobe Hremove)
    as (sweep & sb & Hsweep & Hswept & Hfree & Hfound).
  rewrite bind_run, Hsweep.
  rewrite bind_run. unfold addAuthToUrl. rewrite Hurl. unfold ret at 1.
  rewrite try_catch_bind. unfold git.
  destruct (Hclone sb Hfree) as [out Hout]. rewrite Hout.
  exists out, sweep, before. eexists. split; [reflexivity|].
  cbn [history fs]. rewrite Hswept, Hbefore.
  split; [reflexivity|]. split; [exact Hbase|]. split.
  - intros Hin. apply Hfound, Hkeep, Hin.
  - set_solver.
Qed.

(** C9 (amended).  (1) Where the base directory can be created and the
    workspace path can be probed and removed, and with a toolchain that
    clones into any free target, [cloneRepository] called twice in a row
    for the same repository name returns the workspace path both times,
    whatever was on disk before the first call.  The second call finds
    the path left by the first, removes it with the forced recursive
    removal and only then clones, so the clone does not meet the stale
    directory.
    (2) Where the stale directory is found but its removal is rejected,
    the rejection is swallowed: the directory is still there when the
    clone is issued, and [cloneRepository] returns or throws as
    [git clone] answers for the occupied target. *)
Theorem workspace_reuse_does_not_fail (s : State) :
  url_with_auth env cloneUrl username appPassword = Some url ->
  ((forall st, fs_fault env st (Mkdir (tempDir this)) = None) ->
   (forall st, fs_fault env st (Access repoPath) = None) ->
   (forall st, fs_fault env st (Rm repoPath) = None) ->
   (forall st, repoPath ∉ fs st -> exists out, git_run env st cloneCommand = Fulfilled out) ->
   exists s1 s2 out before,
     acquire s = (Ok repoPath, s1) /\
     acquire s1 = (Ok repoPath, s2) /\
     history s2
     = GitEvent cloneCommand (Fulfilled out)
                :: FsEvent (Rm repoPath) None
                :: FsEvent (Access repoPath) None
                :: before ++ history s1 /\
     Forall (isBaseDirEvent (tempDir this)) before /\
     (repoPath ∈ fs s2)) /\
  (forall s0 e,
      ensureTempDir env this s = (Ok tt, s0) ->
      fs_fault env s0 (Access repoPath) = None ->
      repoPath ∈ fs s0 ->
      fs_fault env (record (FsEvent (Access repoPath) None) s0) (Rm repoPath) = Some e ->
      let stale := record (FsEvent (Rm repoPath) (Some e))
                          (record (FsEvent (Access repoPath) None) s0) in
      repoPath ∈ fs stale /\
      acquire s
      = match git_run env stale cloneCommand with
        | Fulfilled out =>
            (Ok repoPath,
             mkState ({[ repoPath ]} ∪ fs stale)
                     (GitEvent cloneCommand (Fulfilled out) :: history stale))
        | Rejected msg =>
            (Throw ("Failed to clone repository " +:+ repoName +:+ ": " +:+ msg),
             record (GitEvent cloneCommand (Rejected msg)) stale)
        end).
Proof.
  intros Hurl. split.
  - intros Hmkdir Hprobe Hremove Hclone.
    destruct (acquire_clean s Hmkdir Hprobe Hremove Hurl Hclone)
      as (out1 & sweep1 & before1 & s1 & Hfirst & _ & _ & _ & Hthere).
    destruct (acquire_clean s1 Hmkdir Hprobe Hremove Hurl Hclone)
      as (out2 & sweep2 & before2 & s2 & Hsecond & Hhistory & Hbase & Hsweep & Hthere2).
    exists s1, s2, out2, before2.
    split; [exact Hfirst|]. split; [exact Hsecond|].
    rewrite (Hsweep Hthere) in Hhistory.
    split; [exact Hhistory|]. split; [exact Hbase|exact Hthere2].
  - intros s0 e Hensure Hprobe Hin Hremove stale. split; [exact Hin|].
    rewrite cloneRepository_run. cbv zeta. rewrite Hensure.
    rewrite (sweep_refused repoPath s0 e Hprobe Hin Hremove). cbn [snd].
    rewrite Hurl. reflexivity.
Qed.

End Reuse.

Lemma workspace_reuse_does_not_fail_witness :
  exists s1 s2 out before,
    Worlds.cloneDemo Worlds.smooth Worlds.start = (Ok "temp/demo", s1) /\
    Worlds.cloneDemo Worlds.smooth s1 = (Ok "temp/demo", s2) /\
    history s2
    = GitEvent (Clone Worlds.source "temp/demo" ["--bare"]) (Fulfilled out)
               :: FsEvent (Rm "temp/demo") None
               :: FsEvent (Access "temp/demo") None
               :: before ++ history s1 /\
    Forall (isBaseDirEvent "temp") before /\
    ("temp/demo" ∈ fs s2).
Proof.
  destruct (workspace_reuse_does_not_fail
              Worlds.smooth Worlds.manager Worlds.source "demo" "user" "app-password"
              Worlds.source Worlds.start) as [Hreuse _].
  - reflexivity.
  - apply Hreuse.
    + intros st. reflexivity.
    + intros st. reflexivity.
    + intros st. reflexivity.
    + intros st Hfree. exists EmptyString.
      cbn [git_run Worlds.smooth Worlds.scripted].
      destruct (decide _) as [Hstale|_]; [exfalso; exact (Hfree Hstale)|reflexivity].
Defined.

(** C9, as worded.  Where nothing can be removed from disk the guarded
    removal fails silently, the clone meets the directory left by the
    first call and the second [cloneRepository] throws. *)
Lemma stale_workspace_fails_the_clone :
  fst (Worlds.cloneDemo Worlds.busy Worlds.start) = Ok "temp/demo" /\
  fst (Worlds.cloneDemo Worlds.busy (snd (Worlds.cloneDemo Worlds.busy Worlds.start)))
  = Throw ("Failed to clone repository demo: "
             +:+ "fatal: destination path already exists and is not an empty directory.") /\
  In (FsEvent (Rm "temp/demo") (Some "EBUSY: resource busy or locked"))
     (history (snd (Worlds.cloneDemo Worlds.busy
                                     (snd (Worlds.cloneDemo Worlds.busy Worlds.start))))).
Proof. split; [|split]; vm_compute; auto 10. Qed.

Section FsOnly.
Context (env : Env).

Lemma fs_access_adds_fs p : onlyAdds isFsEvent (fs_access env p).
Proof.
  intros s. unfold fs_access.
  destruct (fs_fault env s (Access p)); [|destruct (decide _)];
    eexists [_]; (split; [reflexivity|repeat constructor]).
Qed.

Lemma fs_mkdir_adds_fs p : onlyAdds isFsEvent (fs_mkdir env p).
Proof.
  intros s. unfold fs_mkdir.
  destruct (fs_fault env s (Mkdir p)); eexists [_]; (split; [reflexivity|repeat constructor]).
Qed.

Lemma fs_rm_adds_fs p : onlyAdds isFsEvent (fs_rm env p).
Proof.
  intros s. unfold fs_rm.
  destruct (fs_fault env s (Rm p)); eexists [_]; (split; [reflexivity|repeat constructor]).
Qed.

Lemma onlyAdds_bind_throw {A B} P e (k : A -> M B) : onlyAdds P (bind (throw e) k).
Proof. intros s. exists []. split; [reflexivity|constructor]. Qed.

End FsOnly.

(** * Further properties of the transfer engine *)

Section Outcomes.
Context (env : Env) (this : GitManager).

Lemma pushToGitHub_start repoPath githubCloneUrl githubToken githubUsername url s :
  url_with_auth env githubCloneUrl githubUsername githubToken = Some url ->
  pushToGitHub env this repoPath githubCloneUrl githubToken githubUsername s =
  match attemptPush env this repoPath url false s with
  | (Ok true, s3) => (Ok tt, s3)
  | (Ok false, s3) =>
      try_catch (pushToGitHub_recover env this repoPath url)
                (fun e => throw ("Failed to push to GitHub. Cleanup attempt failed: " +:+ e))
                (record (LogEvent (infoSink this)
                                  "Initial push failed, checking for large files...") s3)
  | (Throw e, s3) => (Throw e, s3)
  end.
Proof.
  intros Hurl. unfold pushToGitHub.
  rewrite bind_run. unfold addAuthToUrl. rewrite Hurl. unfold ret at 1.
  rewrite bind_run.
  destruct (attemptPush env this repoPath url false s) as [[[|]|e] s3]; try reflexivity.
  rewrite bind_run, log_run. reflexivity.
Qed.

Lemma attemptPush_answered repoPath url isRetry answer s :
  remoteAccepted env repoPath url ->
  pushAnswersBy env repoPath answer ->
  exists s3,
    steps (history s3) = PushStep :: steps (history s) /\
    attemptPush env this repoPath url isRetry s =
    match answer (steps (history s)) with
    | Fulfilled _ => (Ok true, s3)
    | Rejected e => attemptPush_catch this isRetry e s3
    end.
Proof.
  intros Hadd Hpush. rewrite attemptPush_run. cbv zeta.
  match goal with
  | |- context [git_run env ?st (AddRemote repoPath "github" url)] =>
      destruct (Hadd st) as [out ->]
  end.
  rewrite Hpush. cbn [history record steps classify].
  eexists. split; [|reflexivity]. reflexivity.
Qed.

Lemma rewritten_app l1 l2 : rewritten (l1 ++ l2) = rewritten l1 || rewritten l2.
Proof. unfold rewritten. apply existsb_app. Qed.

(** The recovery up to the retry: scan, rewrite and maintenance have run
    and the second push is what is left. *)
Lemma pushToGitHub_until_retry repoPath githubCloneUrl githubToken githubUsername url
      answer msg s :
  url_with_auth env githubCloneUrl githubUsername githubToken = Some url ->
  remoteAccepted env repoPath url ->
  pushAnswersBy env repoPath answer ->
  answer (steps (history s)) = Rejected msg ->
  isLargeFileError msg = true ->
  scanFinds env repoPath ->
  rewriteSucceeds env this repoPath ->
  exists between s6,
    Forall (fun st => st = FallbackStep \/ st = ExpireStep \/ st = GcStep) between /\
    steps (history s6) = between ++ RewriteStep :: ScanStep :: PushStep :: steps (history s) /\
    pushToGitHub env this repoPath githubCloneUrl githubToken githubUsername s =
    try_catch
      (retrySuccess <- attemptPush env this repoPath url true ;;
       if retrySuccess then
         log this "Successfully pushed after removing large files!" ;; ret tt
       else throw "Failed to push even after removing large files")
      (fun e => throw ("Failed to push to GitHub. Cleanup attempt failed: " +:+ e)) s6.
Proof.
  intros Hurl Hadd Hpush Hfirst Hlarge Hscan Hrewrite.
  rewrite (pushToGitHub_start _ _ _ _ url s Hurl).
  destruct (attemptPush_answered repoPath url false answer s Hadd Hpush)
    as (s3 & Hsteps1 & ->).
  rewrite Hfirst. rewrite attemptPush_catch_first by exact Hlarge.
  unfold pushToGitHub_recover. rewrite try_catch_bind.
  match goal with
  | |- context [findLargeFiles env repoPath defaultSizeLimit ?st] =>
      destruct (Hscan st) as (files & Hfiles & Hsome);
      pose proof (findLargeFiles_steps env repoPath defaultSizeLimit st) as Hfound;
      destruct (findLargeFiles env repoPath defaultSizeLimit st) as [r s4]
  end.
  cbn [fst snd] in Hfiles, Hfound. subst r.
  destruct files as [|file files]; [contradiction|]. cbn [length Nat.ltb Nat.leb].
  rewrite try_catch_bind, log_run. rewrite try_catch_bind, forEach_log_run.
  rewrite try_catch_bind.
  match goal with
  | |- context [removeLargeFiles env this repoPath (file :: files) ?st] =>
      destruct (Hrewrite st (file :: files)) as (b & Hb);
      destruct (removeLargeFiles_steps env this repoPath file files st)
        as (fallback & Hfallback & Hrewritten);
      destruct (removeLargeFiles env this repoPath (file :: files) st) as [r s5]
  end.
  cbn [fst snd] in Hb, Hrewritten. subst r.
  rewrite try_catch_bind.
  destruct (cleanupRepository_steps env this repoPath s5)
    as (Hclean & maintenance & Hmaintenance & Hcleaned).
  destruct (cleanupRepository env this repoPath s5) as [r s6].
  cbn [fst snd] in Hclean, Hcleaned. subst r.
  exists (maintenance ++ fallback), s6. split; [|split; [|reflexivity]].
  - apply Forall_app. split.
    + destruct Hmaintenance as [-> | ->];
        repeat (apply List.Forall_cons; [auto|]); apply List.Forall_nil.
    + destruct Hfallback as [-> | [-> | ->]];
        repeat (apply List.Forall_cons; [auto|]); apply List.Forall_nil.
  - rewrite Hcleaned, Hrewritten. cbn [history record].
    rewrite steps_app, (logs_no_steps _ (rendered_logs _ _ _)). cbn [app steps classify].
    rewrite Hfound. cbn [history record steps classify]. rewrite Hsteps1.
    rewrite <- !app_assoc. reflexivity.
Qed.

End Outcomes.

Section MoreOutcomes.
Context (env : Env) (this : GitManager).
Context (bitbucketCloneUrl githubCloneUrl repoName : string).
Context (bitbucketUsername bitbucketPassword githubToken githubUsername : string).

#[local] Abbreviation mirror :=
  (mirrorRepository env this bitbucketCloneUrl githubCloneUrl repoName
                    bitbucketUsername bitbucketPassword githubToken githubUsername).
#[local] Abbreviation clone :=
  (cloneRepository env this bitbucketCloneUrl repoName bitbucketUsername bitbucketPassword).
#[local] Abbreviation push :=
  (fun repoPath => pushToGitHub env this repoPath githubCloneUrl githubToken githubUsername).

Lemma removeWorkspace_keeps repoPath e s :
  In e (history s) -> In e (history (snd (removeWorkspace env repoPath s))).
Proof.
  intros Hin. destruct repoPath as [p|]; [|exact Hin].
  destruct (JsString.truthy p) eqn:Hp.
  - rewrite removeWorkspace_run by exact Hp. cbn [snd].
    destruct (fs_fault env s (Rm p)); cbn [history record]; auto using in_cons.
  - unfold removeWorkspace. rewrite Hp. exact Hin.
Qed.

(** What [mirrorRepository] makes of the push pipeline's completion. *)
Lemma mirror_of_push s repoPath s1 r s2 added :
  clone s = (Ok repoPath, s1) ->
  push repoPath s1 = (r, s2) ->
  steps (history s2) = added ++ steps (history s1) ->
  fst (mirror s) = match r with Ok _ => Ok true | Throw e => Throw e end /\
  steps (history (snd (mirror s))) = added ++ steps (history s) /\
  (forall e, In e (history s2) -> In e (history (snd (mirror s)))).
Proof.
  intros Hclone Hpush Hsteps.
  split; [|split].
  - rewrite (mirrorRepository_after_clone env this _ _ _ _ _ _ _ _ _ _ Hclone).
    cbv zeta. rewrite Hpush. reflexivity.
  - apply (mirrorRepository_steps_after_clone env this _ _ _ _ _ _ _ _ _ _ Hclone added).
    rewrite Hpush. exact Hsteps.
  - intros e Hin.
    rewrite (mirrorRepository_after_clone env this _ _ _ _ _ _ _ _ _ _ Hclone).
    cbv zeta. rewrite Hpush. cbn [snd]. apply removeWorkspace_keeps. exact Hin.
Qed.

(** X1. When the destination accepts the push, [mirrorRepository] returns
    [true] after that one push: no scan, no rewrite, no maintenance and no
    second push are started. *)
Theorem accepted_push_is_final (s s1 : State) (repoPath url : string) :
  clone s = (Ok repoPath, s1) ->
  url_with_auth env githubCloneUrl githubUsername githubToken = Some url ->
  remoteAccepted env repoPath url ->
  pushAccepted env repoPath ->
  fst (mirror s) = Ok true /\
  steps (history (snd (mirror s))) = PushStep :: steps (history s).
Proof.
  intros Hclone Hurl Hadd Hpush.
  assert (Hrun : exists s2, push repoPath s1 = (Ok tt, s2) /\
                            steps (history s2) = [PushStep] ++ steps (history s1)).
  { rewrite (pushToGitHub_start env this _ _ _ _ url s1 Hurl).
    rewrite attemptPush_run. cbv zeta.
    match goal with
    | |- context [git_run env ?st (AddRemote repoPath "github" url)] =>
        destruct (Hadd st) as [out ->]
    end.
    match goal with
    | |- context [git_run env ?st (pushCommand repoPath)] =>
        destruct (Hpush st) as [out' ->]
    end.
    eexists. split; reflexivity. }
  destruct Hrun as (s2 & Hrun & Hsteps).
  destruct (mirror_of_push s repoPath s1 _ s2 [PushStep] Hclone Hrun Hsteps) as (Hr & Hs & _).
  split; assumption.
Qed.

(** X2. The recovery at work: the first push is rejected as too large,
    the scan finds large files, the rewrite returns, and the destination
    accepts the push once the history has been rewritten.  Then
    [mirrorRepository] returns [true] after push, scan, rewrite and a
    second push, and the success of the retry has been logged. *)
Theorem recovery_succeeds_when_retry_is_accepted
        (s s1 : State) (repoPath url msg out : string) :
  clone s = (Ok repoPath, s1) ->
  url_with_auth env githubCloneUrl githubUsername githubToken = Some url ->
  remoteAccepted env repoPath url ->
  pushAnswersBy env repoPath (afterRewrite (Rejected msg) (Fulfilled out)) ->
  isLargeFileError msg = true ->
  rewritten (steps (history s)) = false ->
  scanFinds env repoPath ->
  rewriteSucceeds env this repoPath ->
  exists between,
    fst (mirror s) = Ok true /\
    steps (history (snd (mirror s)))
    = PushStep :: between ++ RewriteStep :: ScanStep :: PushStep :: steps (history s) /\
    Forall (fun st => st = FallbackStep \/ st = ExpireStep \/ st = GcStep) between /\
    In (LogEvent (infoSink this) "Successfully pushed after removing large files!")
       (history (snd (mirror s))).
Proof.
  intros Hclone Hurl Hadd Hpush Hlarge Hfresh Hscan Hrewrite.
  pose proof (cloneRepository_steps env this bitbucketCloneUrl repoName
                                    bitbucketUsername bitbucketPassword s) as Hc.
  rewrite Hclone in Hc. cbn [snd] in Hc.
  assert (Hfirst : afterRewrite (Rejected msg) (Fulfilled out) (steps (history s1))
                   = Rejected msg).
  { unfold afterRewrite. rewrite Hc, Hfresh. reflexivity. }
  destruct (pushToGitHub_until_retry env this repoPath githubCloneUrl githubToken
              githubUsername url _ msg s1 Hurl Hadd Hpush Hfirst Hlarge Hscan Hrewrite)
    as (between & s6 & Hbetween & Hsteps6 & Hrun).
  destruct (attemptPush_answered env this repoPath url true _ s6 Hadd Hpush)
    as (s7 & Hsteps7 & Hretry).
  assert (Hsecond : afterRewrite (Rejected msg) (Fulfilled out) (steps (history s6))
                    = Fulfilled out).
  { unfold afterRewrite. rewrite Hsteps6, rewritten_app. cbn [rewritten existsb].
    rewrite bool_decide_eq_true_2 by reflexivity. rewrite orb_true_r. reflexivity. }
  rewrite Hsecond in Hretry.
  rewrite try_catch_bind, Hretry in Hrun. cbv iota in Hrun.
  rewrite try_catch_bind, log_run in Hrun. unfold try_catch, ret in Hrun.
  match type of Hrun with
  | _ = (_, ?st) =>
      destruct (mirror_of_push s repoPath s1 _ st
                  (PushStep :: between ++ [RewriteStep; ScanStep; PushStep]) Hclone Hrun)
        as (Hr & Hs & Hin)
  end.
  { cbn [history record steps classify]. rewrite Hsteps7, Hsteps6.
    cbn [app]. rewrite <- !app_assoc. reflexivity. }
  exists between. split; [exact Hr|]. split; [|split; [exact Hbetween|]].
  - rewrite Hs. cbn [app]. rewrite <- !app_assoc. reflexivity.
  - apply Hin. left. reflexivity.
Qed.

(** X3. The retry can also fail for a reason that has nothing to do with
    large files.  [mirrorRepository] then fails with the push error of the
    retry inside the recovery error, after the same four steps; no further
    scan or rewrite is started. *)
Theorem retry_rejected_for_another_reason
        (s s1 : State) (repoPath url msg other : string) :
  clone s = (Ok repoPath, s1) ->
  url_with_auth env githubCloneUrl githubUsername githubToken = Some url ->
  remoteAccepted env repoPath url ->
  pushAnswersBy env repoPath (afterRewrite (Rejected msg) (Rejected other)) ->
  isLargeFileError msg = true ->
  isLargeFileError other = false ->
  rewritten (steps (history s)) = false ->
  scanFinds env repoPath ->
  rewriteSucceeds env this repoPath ->
  exists between,
    fst (mirror s)
    = Throw ("Failed to push to GitHub. Cleanup attempt failed: "
               +:+ "Failed to push to GitHub: " +:+ other) /\
    steps (history (snd (mirror s)))
    = PushStep :: between ++ RewriteStep :: ScanStep :: PushStep :: steps (history s) /\
    Forall (fun st => st = FallbackStep \/ st = ExpireStep \/ st = GcStep) between.
Proof.
  intros Hclone Hurl Hadd Hpush Hlarge Hother Hfresh Hscan Hrewrite.
  pose proof (cloneRepository_steps env this bitbucketCloneUrl repoName
                                    bitbucketUsername bitbucketPassword s) as Hc.
  rewrite Hclone in Hc. cbn [snd] in Hc.
  assert (Hfirst : afterRewrite (Rejected msg) (Rejected other) (steps (history s1))
                   = Rejected msg).
  { unfold afterRewrite. rewrite Hc, Hfresh. reflexivity. }
  destruct (pushToGitHub_until_retry env this repoPath githubCloneUrl githubToken
              githubUsername url _ msg s1 Hurl Hadd Hpush Hfirst Hlarge Hscan Hrewrite)
    as (between & s6 & Hbetween & Hsteps6 & Hrun).
  destruct (attemptPush_answered env this repoPath url true _ s6 Hadd Hpush)
    as (s7 & Hsteps7 & Hretry).
  assert (Hsecond : afterRewrite (Rejected msg) (Rejected other) (steps (history s6))
                    = Rejected other).
  { unfold afterRewrite. rewrite Hsteps6, rewritten_app. cbn [rewritten existsb].
    rewrite bool_decide_eq_true_2 by reflexivity. rewrite orb_true_r. reflexivity. }
  rewrite Hsecond in Hretry. rewrite attemptPush_catch_other in Hretry by exact Hother.
  rewrite try_catch_bind, Hretry in Hrun. unfold throw in Hrun.
  destruct (mirror_of_push s repoPath s1 _ s7
              (PushStep :: between ++ [RewriteStep; ScanStep; PushStep]) Hclone Hrun)
    as (Hr & Hs & _).
  { rewrite Hsteps7, Hsteps6. cbn [app]. rewrite <- !app_assoc. reflexivity. }
  exists between. split; [exact Hr|]. split; [|exact Hbetween].
  rewrite Hs. cbn [app]. rewrite <- !app_assoc. reflexivity.
Qed.

End MoreOutcomes.

Section RecoveryFailures.
Context (env : Env) (this : GitManager).
Context (bitbucketCloneUrl githubCloneUrl repoName : string).
Context (bitbucketUsername bitbucketPassword githubToken githubUsername : string).

#[local] Abbreviation mirror :=
  (mirrorRepository env this bitbucketCloneUrl githubCloneUrl repoName
                    bitbucketUsername bitbucketPassword githubToken githubUsername).
#[local] Abbreviation clone :=
  (cloneRepository env this bitbucketCloneUrl repoName bitbucketUsername bitbucketPassword).

(** The first push rejected as too large: the pipeline up to the scan. *)
Lemma pushToGitHub_enters_recovery repoPath url s :
  url_with_auth env githubCloneUrl githubUsername githubToken = Some url ->
  remoteAccepted env repoPath url ->
  pushRejected env repoPath (fun m => isLargeFileError m = true) ->
  exists s3,
    steps (history s3) = PushStep :: steps (history s) /\
    pushToGitHub env this repoPath githubCloneUrl githubToken githubUsername s =
    try_catch (pushToGitHub_recover env this repoPath url)
              (fun e => throw ("Failed to push to GitHub. Cleanup attempt failed: " +:+ e)) s3.
Proof.
  intros Hurl Hadd Hpush.
  rewrite (pushToGitHub_start env this _ _ _ _ url s Hurl).
  destruct (attemptPush_rejected env this repoPath url false _ s Hadd Hpush)
    as (m & s3 & Hm & -> & Hsteps).
  rewrite attemptPush_catch_first by exact Hm.
  eexists. split; [|reflexivity]. cbn [history record steps classify]. exact Hsteps.
Qed.

(** X4. When the first push is rejected as too large and the scan itself
    fails, [mirrorRepository] fails with the scan's error inside the
    recovery error, after one push and one scan: nothing is rewritten and
    no second push is made. *)
Theorem failed_scan_stops_recovery (s s1 : State) (repoPath url e : string) :
  clone s = (Ok repoPath, s1) ->
  url_with_auth env githubCloneUrl githubUsername githubToken = Some url ->
  remoteAccepted env repoPath url ->
  pushRejected env repoPath (fun m => isLargeFileError m = true) ->
  scanFails env repoPath e ->
  fst (mirror s) = Throw ("Failed to push to GitHub. Cleanup attempt failed: " +:+ e) /\
  steps (history (snd (mirror s))) = ScanStep :: PushStep :: steps (history s).
Proof.
  intros Hclone Hurl Hadd Hpush Hscan.
  destruct (pushToGitHub_enters_recovery repoPath url s1 Hurl Hadd Hpush)
    as (s3 & Hsteps & Hrun).
  unfold pushToGitHub_recover in Hrun. rewrite try_catch_bind in Hrun.
  pose proof (Hscan s3) as Hthrown.
  pose proof (findLargeFiles_steps env repoPath defaultSizeLimit s3) as Hfound.
  destruct (findLargeFiles env repoPath defaultSizeLimit s3) as [r s4].
  cbn [fst snd] in Hthrown, Hfound. subst r. unfold throw in Hrun.
  destruct (mirror_of_push env this _ githubCloneUrl _ _ _ githubToken githubUsername
              s repoPath s1 _ s4 [ScanStep; PushStep] Hclone Hrun) as (Hr & Hs & _).
  { rewrite Hfound, Hsteps. reflexivity. }
  split; assumption.
Qed.

(** X5. When the first push is rejected as too large, the scan finds
    large files and the rewrite fails, [mirrorRepository] fails with the
    rewrite's error inside the recovery error.  The rewrite only fails
    after its fallback has been started, once when the [filter-repo]
    process ended, twice when it could not be started, so the steps are
    push, scan, [filter-repo] and one or two [filter-branch]; no
    maintenance is run and no second push is made. *)
Theorem failed_rewrite_stops_recovery (s s1 : State) (repoPath url e : string) :
  clone s = (Ok repoPath, s1) ->
  url_with_auth env githubCloneUrl githubUsername githubToken = Some url ->
  remoteAccepted env repoPath url ->
  pushRejected env repoPath (fun m => isLargeFileError m = true) ->
  scanFinds env repoPath ->
  (forall st files, files <> [] ->
                    fst (removeLargeFiles env this repoPath files st) = Throw e) ->
  exists fallback,
    (fallback = [FallbackStep] \/ fallback = [FallbackStep; FallbackStep]) /\
    fst (mirror s) = Throw ("Failed to push to GitHub. Cleanup attempt failed: " +:+ e) /\
    steps (history (snd (mirror s)))
    = fallback ++ RewriteStep :: ScanStep :: PushStep :: steps (history s).
Proof.
  intros Hclone Hurl Hadd Hpush Hscan Hrewrite.
  destruct (pushToGitHub_enters_recovery repoPath url s1 Hurl Hadd Hpush)
    as (s3 & Hsteps & Hrun).
  unfold pushToGitHub_recover in Hrun. rewrite try_catch_bind in Hrun.
  destruct (Hscan s3) as (files & Hfiles & Hsome).
  pose proof (findLargeFiles_steps env repoPath defaultSizeLimit s3) as Hfound.
  destruct (findLargeFiles env repoPath defaultSizeLimit s3) as [r s4].
  cbn [fst snd] in Hfiles, Hfound. subst r.
  destruct files as [|file files]; [contradiction|]. cbn [length Nat.ltb Nat.leb] in Hrun.
  rewrite try_catch_bind, log_run in Hrun. rewrite try_catch_bind, forEach_log_run in Hrun.
  rewrite try_catch_bind in Hrun.
  match type of Hrun with
  | context [removeLargeFiles env this repoPath (file :: files) ?st] =>
      pose proof (Hrewrite st (file :: files) ltac:(discriminate)) as Hthrown;
      pose proof (removeLargeFiles_run env this repoPath file files st) as Hhow;
      cbv zeta in Hhow;
      pose proof (removeLargeFiles_steps_by_exit env this repoPath file files st)
        as Hrewritten;
      cbv zeta in Hrewritten;
      destruct (removeLargeFiles env this repoPath (file :: files) st) as [r s5]
  end.
  cbn [fst snd] in Hthrown, Hrewritten. subst r. unfold throw in Hrun.
  match type of Hrewritten with
  | context [fallbackRuns ?exit] =>
      assert (Hfell : fallbackRuns exit = [FallbackStep]
                      \/ fallbackRuns exit = [FallbackStep; FallbackStep]);
      [|set (fallback := fallbackRuns exit) in *]
  end.
  { destruct (spawn_run env _ "git" _ repoPath) as [x|[[| |]|] o1 o2];
      cbn [fallbackRuns]; auto. discriminate Hhow. }
  destruct (mirror_of_push env this _ githubCloneUrl _ _ _ githubToken githubUsername
              s repoPath s1 _ s5 (fallback ++ [RewriteStep; ScanStep; PushStep]) Hclone Hrun)
    as (Hr & Hs & _).
  { rewrite Hrewritten. cbn [history record].
    rewrite steps_app, (logs_no_steps _ (rendered_logs _ _ _)). cbn [app steps classify].
    rewrite Hfound, Hsteps. rewrite <- app_assoc. reflexivity. }
  exists fallback. split; [exact Hfell|]. split; [exact Hr|].
  rewrite Hs, <- app_assoc. reflexivity.
Qed.

End RecoveryFailures.

Section Failures.
Context (env : Env) (this : GitManager).

(** X6. In a workspace directory that exists ([simple-git] refuses any
    other before the fallback enters its [try]), [removeLargeFiles] on a
    non-empty list never returns [false]: it returns [true] or throws,
    and what it throws is the fallback's error around the message of
    what went wrong.  After [filter-repo] the fallback is started once
    when the process ended with a code other than 0 and twice when it
    could not be started; when it is not started the result is [true]. *)
Theorem rewrite_fails_only_through_fallback
        (repoPath : string) (file : LargeFile) (files : list LargeFile) (s : State) :
  repoPath ∈ fs s ->
  let largeFiles := file :: files in
  let args := ["filter-repo"; "--invert-paths"; "--force"]
                ++ flat_map (fun p => ["--path"; p]) (map path largeFiles) in
  let exit := spawn_run env
                        (record (LogEvent (infoSink this)
                                          ("Removing " +:+ JsString.ofNat (length largeFiles)
                                           +:+ " large files from repository history...")) s)
                        "git" args repoPath in
  (fst (removeLargeFiles env this repoPath largeFiles s) = Ok true \/
   exists cause,
     fst (removeLargeFiles env this repoPath largeFiles s)
     = Throw ("Failed to remove large files with filter-branch: " +:+ cause)) /\
  steps (history (snd (removeLargeFiles env this repoPath largeFiles s)))
  = fallbackRuns exit ++ RewriteStep :: steps (history s) /\
  (fallbackRuns exit = [] -> fst (removeLargeFiles env this repoPath largeFiles s) = Ok true).
Proof.
  intros _ largeFiles args exit.
  assert (Hexit : exit = exit) by reflexivity. unfold exit at 1 in Hexit.
  clearbody exit. subst args largeFiles.
  pose proof (removeLargeFiles_steps_by_exit env this repoPath file files s) as Hsteps.
  pose proof (removeLargeFiles_run env this repoPath file files s) as Hrun.
  cbv zeta in Hsteps, Hrun. rewrite Hexit in Hsteps, Hrun.
  split; [|split; [exact Hsteps|]].
  - destruct exit as [e|code out err].
    + destruct (removeLargeFiles_unspawned env this repoPath file files s e Hexit)
        as (fromError & fromClose & first & second & started & -> & _ & _ & He1 & He2 & _).
      apply (race_ends env fallbackCompletion); assumption.
    + rewrite Hrun.
      assert (Hfallback : forall st,
                 fallbackCompletion
                   (fst (removeLargeFilesWithFilterBranch
                           env this repoPath (map path (file :: files)) st))).
      { intros st.
        pose proof (removeLargeFilesWithFilterBranch_run
                      env this repoPath (map path (file :: files)) st) as Hfb.
        cbv zeta in Hfb.
        destruct (git_run env _ (filterBranchCommand repoPath _)) as [o|x].
        - destruct (git_run env _ (forEachRefCommand repoPath)) as [listing|x].
          + destruct Hfb as (outcomes & _ & ->). left. reflexivity.
          + rewrite Hfb. right. exists x. reflexivity.
        - rewrite Hfb. right. exists x. reflexivity. }
      destruct code as [[| |]|]; try apply Hfallback. left. reflexivity.
  - destruct exit as [e|[[| |]|] out err]; cbn [fallbackRuns]; try discriminate.
    intros _. rewrite Hrun. reflexivity.
Qed.

(** X7. When [git remote add] is rejected, [attemptPush] never issues the
    push: the rejection is handled like a rejected push, so a message
    without a large-object signature becomes a push error.  A rejected
    [git remote remove] before it is ignored. *)
Theorem rejected_remote_setup_prevents_push
        (repoPath url msg : string) (isRetry : bool) (s : State) :
  (forall st, git_run env st (AddRemote repoPath "github" url) = Rejected msg) ->
  isLargeFileError msg = false ->
  exists removal,
    fst (attemptPush env this repoPath url isRetry s)
    = Throw ("Failed to push to GitHub: " +:+ msg) /\
    history (snd (attemptPush env this repoPath url isRetry s))
    = GitEvent (AddRemote repoPath "github" url) (Rejected msg)
        :: GitEvent (RemoveRemote repoPath "github") removal :: history s /\
    steps (history (snd (attemptPush env this repoPath url isRetry s))) = steps (history s).
Proof.
  intros Hadd Hmsg. rewrite attemptPush_run. cbv zeta. rewrite Hadd.
  rewrite attemptPush_catch_other by exact Hmsg.
  eexists. split; [reflexivity|]. split; reflexivity.
Qed.

(** X8. A failed clone ends [mirrorRepository] where the clone ended: the
    error is rethrown unchanged, nothing is pushed, and the [finally]
    block, which only knows the workspace once the clone has returned,
    removes nothing.  [cloneRepository] fails for one of three reasons:
    the base directory could not be created, the source address could not
    be parsed (no clone is attempted then), or [git clone] was rejected,
    which is the last thing that happened. *)
Theorem failed_clone_aborts_mirror
        (bitbucketCloneUrl githubCloneUrl repoName : string)
        (bitbucketUsername bitbucketPassword githubToken githubUsername : string)
        (s : State) (e : string) :
  fst (cloneRepository env this bitbucketCloneUrl repoName
                       bitbucketUsername bitbucketPassword s) = Throw e ->
  mirrorRepository env this bitbucketCloneUrl githubCloneUrl repoName
                   bitbucketUsername bitbucketPassword githubToken githubUsername s
  = (Throw e, snd (cloneRepository env this bitbucketCloneUrl repoName
                                   bitbucketUsername bitbucketPassword s)) /\
  steps (history (snd (mirrorRepository env this bitbucketCloneUrl githubCloneUrl repoName
                                        bitbucketUsername bitbucketPassword
                                        githubToken githubUsername s)))
  = steps (history s) /\
  (fst (ensureTempDir env this s) = Throw e \/
   (url_with_auth env bitbucketCloneUrl bitbucketUsername bitbucketPassword = None /\
    e = "Invalid URL format: " +:+ bitbucketCloneUrl /\
    onlyAdds isFsEvent (cloneRepository env this bitbucketCloneUrl repoName
                                        bitbucketUsername bitbucketPassword)) \/
   (exists url msg rest,
       url_with_auth env bitbucketCloneUrl bitbucketUsername bitbucketPassword = Some url /\
       e = "Failed to clone repository " +:+ repoName +:+ ": " +:+ msg /\
       history (snd (cloneRepository env this bitbucketCloneUrl repoName
                                     bitbucketUsername bitbucketPassword s))
       = GitEvent (Clone url (path_join env (tempDir this) repoName) ["--bare"]) (Rejected msg)
           :: rest)).
Proof.
  intros Hthrown.
  assert (Hmirror :
            mirrorRepository env this bitbucketCloneUrl githubCloneUrl repoName
                             bitbucketUsername bitbucketPassword githubToken githubUsername s
            = (Throw e, snd (cloneRepository env this bitbucketCloneUrl repoName
                                             bitbucketUsername bitbucketPassword s))).
  { unfold mirrorRepository.
    destruct (cloneRepository env this bitbucketCloneUrl repoName
                              bitbucketUsername bitbucketPassword s) as [r s1].
    cbn [fst] in Hthrown. subst r. reflexivity. }
  split; [exact Hmirror|]. split.
  { rewrite Hmirror. cbn [snd]. apply cloneRepository_steps. }
  clear Hmirror. revert Hthrown. rewrite cloneRepository_run. cbv zeta.
  destruct (ensureTempDir env this s) as [[[]|e0] s0].
  - destruct (url_with_auth env bitbucketCloneUrl bitbucketUsername bitbucketPassword)
      as [url|] eqn:Hurl.
    + destruct (git_run env _ (Clone url _ ["--bare"])) as [out|msg]; [discriminate|].
      cbn [fst snd]. intros [= <-]. right. right. exists url, msg. eexists.
      split; [reflexivity|]. split; reflexivity.
    + cbn [fst]. intros [= <-]. right. left. split; [reflexivity|]. split; [reflexivity|].
      unfold cloneRepository, ensureTempDir, addAuthToUrl. rewrite Hurl.
      repeat first
             [ apply onlyAdds_bind_throw
             | apply onlyAdds_bind; [|intros ?]
             | apply onlyAdds_catch; [|intros ?]
             | apply fs_access_adds_fs
             | apply fs_mkdir_adds_fs
             | apply fs_rm_adds_fs
             | apply onlyAdds_ret
             | apply onlyAdds_throw ].
  - cbn [fst]. intros [= <-]. left. reflexivity.
Qed.

End Failures.

Lemma accepted_push_is_final_witness :
  fst (Worlds.mirrorDemo Worlds.smooth Worlds.start) = Ok true /\
  steps (history (snd (Worlds.mirrorDemo Worlds.smooth Worlds.start))) = [PushStep].
Proof.
  apply (accepted_push_is_final
           Worlds.smooth Worlds.manager Worlds.source Worlds.destination "demo"
           "user" "app-password" "token" "octocat"
           Worlds.start (snd (Worlds.cloneDemo Worlds.smooth Worlds.start))
           "temp/demo" Worlds.destination).
  - reflexivity.
  - reflexivity.
  - intros st. eexists. reflexivity.
  - intros st. eexists. reflexivity.
Defined.

Lemma recovery_succeeds_when_retry_is_accepted_witness :
  exists between,
    fst (Worlds.mirrorDemo MoreWorlds.recovering Worlds.start) = Ok true /\
    steps (history (snd (Worlds.mirrorDemo MoreWorlds.recovering Worlds.start)))
    = PushStep :: between ++ [RewriteStep; ScanStep; PushStep] /\
    Forall (fun st => st = FallbackStep \/ st = ExpireStep \/ st = GcStep) between /\
    In (LogEvent (infoSink Worlds.manager) "Successfully pushed after removing large files!")
       (history (snd (Worlds.mirrorDemo MoreWorlds.recovering Worlds.start))).
Proof.
  apply (recovery_succeeds_when_retry_is_accepted
           MoreWorlds.recovering Worlds.manager Worlds.source Worlds.destination "demo"
           "user" "app-password" "token" "octocat"
           Worlds.start (snd (Worlds.cloneDemo MoreWorlds.recovering Worlds.start))
           "temp/demo" Worlds.destination Worlds.githubRejection EmptyString).
  - reflexivity.
  - reflexivity.
  - intros st. eexists. reflexivity.
  - intros st. reflexivity.
  - vm_compute. reflexivity.
  - reflexivity.
  - intros st. eexists. split; [vm_compute; reflexivity|discriminate].
  - intros st [|file files]; eexists; vm_compute; reflexivity.
Defined.

Lemma retry_rejected_for_another_reason_witness :
  exists between,
    fst (Worlds.mirrorDemo MoreWorlds.revoked Worlds.start)
    = Throw ("Failed to push to GitHub. Cleanup attempt failed: "
               +:+ "Failed to push to GitHub: " +:+ "remote: Invalid username or token.") /\
    steps (history (snd (Worlds.mirrorDemo MoreWorlds.revoked Worlds.start)))
    = PushStep :: between ++ [RewriteStep; ScanStep; PushStep] /\
    Forall (fun st => st = FallbackStep \/ st = ExpireStep \/ st = GcStep) between.
Proof.
  apply (retry_rejected_for_another_reason
           MoreWorlds.revoked Worlds.manager Worlds.source Worlds.destination "demo"
           "user" "app-password" "token" "octocat"
           Worlds.start (snd (Worlds.cloneDemo MoreWorlds.revoked Worlds.start))
           "temp/demo" Worlds.destination Worlds.githubRejection
           "remote: Invalid username or token.").
  - reflexivity.
  - reflexivity.
  - intros st. eexists. reflexivity.
  - intros st. reflexivity.
  - vm_compute. reflexivity.
  - vm_compute. reflexivity.
  - reflexivity.
  - intros st. eexists. split; [vm_compute; reflexivity|discriminate].
  - intros st [|file files]; eexists; vm_compute; reflexivity.
Defined.

Lemma failed_scan_stops_recovery_witness :
  fst (Worlds.mirrorDemo MoreWorlds.unreadable Worlds.start)
  = Throw ("Failed to push to GitHub. Cleanup attempt failed: "
             +:+ "Failed to list git objects") /\
  steps (history (snd (Worlds.mirrorDemo MoreWorlds.unreadable Worlds.start)))
  = [ScanStep; PushStep].
Proof.
  apply (failed_scan_stops_recovery
           MoreWorlds.unreadable Worlds.manager Worlds.source Worlds.destination "demo"
           "user" "app-password" "token" "octocat"
           Worlds.start (snd (Worlds.cloneDemo MoreWorlds.unreadable Worlds.start))
           "temp/demo" Worlds.destination "Failed to list git objects").
  - reflexivity.
  - reflexivity.
  - intros st. eexists. reflexivity.
  - intros st. eexists. split; reflexivity.
  - intros st. reflexivity.
Defined.

Lemma failed_rewrite_stops_recovery_witness :
  fst (Worlds.mirrorDemo MoreWorlds.noRewriter Worlds.start)
  = Throw ("Failed to push to GitHub. Cleanup attempt failed: "
             +:+ "Failed to remove large files with filter-branch: "
             +:+ "fatal: filter-branch is not available") /\
  steps (history (snd (Worlds.mirrorDemo MoreWorlds.noRewriter Worlds.start)))
  = [FallbackStep; FallbackStep; RewriteStep; ScanStep; PushStep].
Proof.
  destruct (failed_rewrite_stops_recovery
              MoreWorlds.noRewriter Worlds.manager Worlds.source Worlds.destination "demo"
              "user" "app-password" "token" "octocat"
              Worlds.start (snd (Worlds.cloneDemo MoreWorlds.noRewriter Worlds.start))
              "temp/demo" Worlds.destination
              ("Failed to remove large files with filter-branch: "
                 +:+ "fatal: filter-branch is not available"))
    as (fallback & Hfallback & Hthrown & Hsteps).
  - reflexivity.
  - reflexivity.
  - intros st. eexists. reflexivity.
  - intros st. eexists. split; reflexivity.
  - intros st. eexists. split; [vm_compute; reflexivity|discriminate].
  - intros st [|file files] Hsome; [contradiction|]. reflexivity.
  - split; [exact Hthrown|].
    assert (Hrun : steps (history (snd (Worlds.mirrorDemo MoreWorlds.noRewriter Worlds.start)))
                   = [FallbackStep; FallbackStep; RewriteStep; ScanStep; PushStep])
      by (vm_compute; reflexivity).
    unfold Worlds.mirrorDemo in *. rewrite Hsteps in Hrun |- *.
    destruct Hfallback as [-> | ->]; [discriminate Hrun|reflexivity].
Defined.

Lemma rewrite_fails_only_through_fallback_witness :
  let s := snd (Worlds.cloneDemo MoreWorlds.noRewriter Worlds.start) in
  let largeFiles := [mkLargeFile "assets/video.mp4" 157286400 "aaa1"] in
  (fst (removeLargeFiles MoreWorlds.noRewriter Worlds.manager "temp/demo" largeFiles s)
   = Ok true \/
   exists cause,
     fst (removeLargeFiles MoreWorlds.noRewriter Worlds.manager "temp/demo" largeFiles s)
     = Throw ("Failed to remove large files with filter-branch: " +:+ cause)) /\
  steps (history (snd (removeLargeFiles MoreWorlds.noRewriter Worlds.manager "temp/demo"
                                        largeFiles s)))
  = [FallbackStep; FallbackStep; RewriteStep].
Proof.
  intros s largeFiles.
  destruct (rewrite_fails_only_through_fallback
              MoreWorlds.noRewriter Worlds.manager "temp/demo"
              (mkLargeFile "assets/video.mp4" 157286400 "aaa1") [] s)
    as (Hcompletion & Hsteps & _).
  - apply (bool_decide_eq_true_1 _). vm_compute. reflexivity.
  - split; [exact Hcompletion|]. subst largeFiles. rewrite Hsteps. reflexivity.
Defined.

Lemma rejected_remote_setup_prevents_push_witness :
  exists removal,
    fst (attemptPush MoreWorlds.remoteLocked Worlds.manager "temp/demo" Worlds.destination
                     false Worlds.start)
    = Throw "Failed to push to GitHub: error: could not lock config file config" /\
    history (snd (attemptPush MoreWorlds.remoteLocked Worlds.manager "temp/demo"
                              Worlds.destination false Worlds.start))
    = [GitEvent (AddRemote "temp/demo" "github" Worlds.destination)
                (Rejected "error: could not lock config file config");
       GitEvent (RemoveRemote "temp/demo" "github") removal] /\
    steps (history (snd (attemptPush MoreWorlds.remoteLocked Worlds.manager "temp/demo"
                                     Worlds.destination false Worlds.start))) = [].
Proof.
  apply (rejected_remote_setup_prevents_push
           MoreWorlds.remoteLocked Worlds.manager "temp/demo" Worlds.destination
           "error: could not lock config file config" false Worlds.start).
  - intros st. reflexivity.
  - vm_compute. reflexivity.
Defined.

Lemma failed_clone_aborts_mirror_witness :
  Worlds.mirrorDemo MoreWorlds.unreachable Worlds.start
  = (Throw "Failed to clone repository demo: fatal: unable to access the repository",
     snd (Worlds.cloneDemo MoreWorlds.unreachable Worlds.start)) /\
  steps (history (snd (Worlds.mirrorDemo MoreWorlds.unreachable Worlds.start))) = [].
Proof.
  destruct (failed_clone_aborts_mirror
              MoreWorlds.unreachable Worlds.manager Worlds.source Worlds.destination "demo"
              "user" "app-password" "token" "octocat" Worlds.start
              "Failed to clone repository demo: fatal: unable to access the repository")
    as (Hmirror & Hsteps & _).
  - reflexivity.
  - split; [exact Hmirror|exact Hsteps].
Defined.

(** The two ways of X8 that stop before or at the clone, run: an address
    that cannot be parsed, where only the file system has been touched,
    and a source that cannot be reached. *)
Example failed_clone_examples :
  Worlds.mirrorDemo MoreWorlds.badAddress Worlds.start
  = (Throw "Invalid URL format: https://bitbucket.org/team/demo.git",
     mkState {[ "temp" ]}
             [FsEvent (Access "temp/demo")
                      (Some "ENOENT: no such file or directory, access temp/demo");
              FsEvent (Mkdir "temp") None;
              FsEvent (Access "temp") (Some "ENOENT: no such file or directory, access temp")]) /\
  history (snd (Worlds.mirrorDemo MoreWorlds.unreachable Worlds.start))
  = [GitEvent (Clone Worlds.source "temp/demo" ["--bare"])
              (Rejected "fatal: unable to access the repository");
     FsEvent (Access "temp/demo")
             (Some "ENOENT: no such file or directory, access temp/demo");
     FsEvent (Mkdir "temp") None;
     FsEvent (Access "temp") (Some "ENOENT: no such file or directory, access temp")].
Proof. split; vm_compute; reflexivity. Qed.

(** * Parsing the toolchain's output *)

Section Parsing.
Import JsString.

Lemma split_nonempty sep s : exists piece pieces, split sep s = piece :: pieces.
Proof.
  induction s as [|c s IH]; cbn [split]; [eauto|].
  destruct (Ascii.eqb c sep); [eauto|].
  destruct IH as (p & ps & ->). eauto.
Qed.

(** Splitting at a character and joining with it gives the string back. *)
Lemma join_split sep s : join (String sep EmptyString) (split sep s) = s.
Proof.
  induction s as [|c s IH]; [reflexivity|]. cbn [split].
  destruct (Ascii.eqb_spec c sep) as [->|Hne].
  - destruct (split_nonempty sep s) as (p & ps & Hs). rewrite Hs in IH |- *.
    rewrite <- IH. reflexivity.
  - destruct (split_nonempty sep s) as (p & ps & Hs). rewrite Hs in IH |- *.
    rewrite <- IH. destruct ps; reflexivity.
Qed.

Lemma includes_char_cons sep c s :
  includes (String sep EmptyString) (String c s)
  = Ascii.eqb sep c || includes (String sep EmptyString) s.
Proof.
  cbn [includes startsWith]. rewrite andb_true_r. reflexivity.
Qed.

(** The first piece of a split is free of the separator. *)
Lemma split_head_free sep s :
  forall piece pieces,
    split sep s = piece :: pieces -> includes (String sep EmptyString) piece = false.
Proof.
  induction s as [|c s IH]; intros piece pieces; cbn [split].
  - intros [= <- <-]. reflexivity.
  - destruct (Ascii.eqb_spec c sep) as [->|Hne].
    + intros [= <- <-]. reflexivity.
    + destruct (split_nonempty sep s) as (p & ps & Hs). rewrite Hs.
      intros [= <- <-]. rewrite includes_char_cons, (IH p ps Hs), orb_false_r.
      apply Ascii.eqb_neq. congruence.
Qed.

Lemma split_at_separator sep h rest :
  includes (String sep EmptyString) h = false ->
  split sep (h +:+ String sep rest) = h :: split sep rest.
Proof.
  induction h as [|c h IH]; intros Hfree.
  - simpl. rewrite Ascii.eqb_refl. reflexivity.
  - rewrite includes_char_cons in Hfree. apply orb_false_elim in Hfree as [Hc Hh].
    change (String c h +:+ String sep rest) with (String c (h +:+ String sep rest)).
    cbn [split]. rewrite Ascii.eqb_sym, Hc, (IH Hh). reflexivity.
Qed.

(** X9. The scanner splits an enumerated line at its first space: the
    object name is what stands before it and the path is everything
    after it, further spaces included.  So [entry] gives [(hash, filePath)]
    exactly for the line [hash filePath] with a [hash] free of spaces, and
    a line without a space carries no path. *)
Theorem entry_splits_at_first_space (line hash filePath : string) :
  entry line = Some (hash, filePath) <->
  line = hash +:+ " " +:+ filePath /\ includes " " hash = false.
Proof.
  unfold entry. split.
  - pose proof (join_split SP line) as Hjoin.
    pose proof (split_head_free SP line) as Hfree.
    destruct (split SP line) as [|h [|part parts]]; try discriminate.
    intros [= <- <-]. split; [|exact (Hfree h _ eq_refl)].
    rewrite <- Hjoin. reflexivity.
  - intros [-> Hfree].
    change (hash +:+ " " +:+ filePath) with (hash +:+ String SP filePath).
    rewrite (split_at_separator SP hash filePath Hfree).
    pose proof (join_split SP filePath) as Hjoin.
    destruct (split_nonempty SP filePath) as (p & ps & Hs). rewrite Hs in Hjoin |- *.
    change " " with (String SP EmptyString). rewrite Hjoin. reflexivity.
Qed.

(** *** Lines *)

Lemma split_printedLines lines :
  Forall isLine lines ->
  split LF (printedLines lines) = lines ++ [EmptyString].
Proof.
  induction 1 as [|line lines [_ Hfree] _ IH]; [reflexivity|].
  cbn [printedLines]. rewrite (split_at_separator LF line _ Hfree), IH. reflexivity.
Qed.

Lemma filter_lines (keep : string -> bool) lines :
  keep EmptyString = false ->
  Forall (fun line => keep line = true) lines ->
  List.filter keep (lines ++ [EmptyString]) = lines.
Proof.
  intros Hblank Hkeep. rewrite List.filter_app. cbn [List.filter]. rewrite Hblank, app_nil_r.
  induction Hkeep as [|line lines Hline _ IH]; [reflexivity|].
  cbn [List.filter]. rewrite Hline, IH. reflexivity.
Qed.

(** Both line parsers give back the lines that were printed. *)
Lemma printedLines_parsed lines :
  Forall isLine lines ->
  originalRefs (printedLines lines) = lines /\ objectLines (printedLines lines) = lines.
Proof.
  intros Hlines. unfold originalRefs, objectLines.
  rewrite (split_printedLines lines Hlines). split; apply filter_lines; try reflexivity.
  - eapply Forall_impl; [exact Hlines|]. intros line [Hkept _]. cbv beta.
    destruct (String.eqb_spec (trim line) EmptyString); [contradiction|reflexivity].
  - eapply Forall_impl; [exact Hlines|]. intros line [Hkept _]. cbv beta.
    destruct (trim line); [contradiction|reflexivity].
Qed.

End Parsing.

(** X10. When [filter-branch] is fulfilled and [for-each-ref] prints the
    backup references one per line, the fallback returns [true] after
    issuing [update-ref -d] for exactly the printed references, each once
    and in the printed order. *)
Theorem printed_backup_refs_are_deleted
        (env : Env) (this : GitManager) (repoPath : string) (filePaths refs : list string)
        (s : State) :
  (forall st, exists out,
      git_run env st (filterBranchCommand repoPath filePaths) = Fulfilled out) ->
  (forall st, git_run env st (forEachRefCommand repoPath) = Fulfilled (printedLines refs)) ->
  Forall isLine refs ->
  exists new,
    history (snd (removeLargeFilesWithFilterBranch env this repoPath filePaths s))
    = new ++ history s /\
    fst (removeLargeFilesWithFilterBranch env this repoPath filePaths s) = Ok true /\
    map fst (rev (deletions new)) = refs.
Proof.
  intros Hfb Hlisting Hrefs.
  pose proof (removeLargeFilesWithFilterBranch_run env this repoPath filePaths s) as Hrun.
  cbv zeta in Hrun.
  match type of Hrun with
  | context [git_run env ?st (filterBranchCommand repoPath filePaths)] =>
      destruct (Hfb st) as [out Hout]; rewrite Hout in Hrun
  end.
  rewrite Hlisting in Hrun. destruct Hrun as (outcomes & Hlen & Hrun).
  rewrite (proj1 (printedLines_parsed refs Hrefs)) in Hrun, Hlen.
  rewrite Hrun. cbn [fst snd history record].
  eexists (_ :: deleteTraces this repoPath (zip refs outcomes) ++ [_; _; _; _]).
  split; [cbn [app]; rewrite <- app_assoc; reflexivity|]. split; [reflexivity|].
  cbn [deletions deletion]. rewrite deletions_app. cbn [deletions deletion].
  replace (deletions [GitEvent (forEachRefCommand repoPath) (Fulfilled (printedLines refs));
                      LogEvent (infoSink this)
                               "Finished filter-branch. Now cleaning up refs/original/.";
                      GitEvent (filterBranchCommand repoPath filePaths) (Fulfilled out);
                      LogEvent (infoSink this)
                               "Starting large file removal with git-filter-branch..."])
    with (@nil (string * Outcome)) by reflexivity.
  rewrite app_nil_r, deleteTraces_deletions.
  apply fst_zip. lia.
Qed.

Lemma printed_backup_refs_are_deleted_witness :
  exists new,
    history (snd (removeLargeFilesWithFilterBranch Worlds.fallbackOnly Worlds.manager
                    "temp/demo" ["assets/video.mp4"] Worlds.start))
    = new ++ [] /\
    fst (removeLargeFilesWithFilterBranch Worlds.fallbackOnly Worlds.manager
           "temp/demo" ["assets/video.mp4"] Worlds.start) = Ok true /\
    map fst (rev (deletions new))
    = ["refs/original/refs/heads/main"; "refs/original/refs/tags/v1"].
Proof.
  apply (printed_backup_refs_are_deleted
           Worlds.fallbackOnly Worlds.manager "temp/demo" ["assets/video.mp4"]
           ["refs/original/refs/heads/main"; "refs/original/refs/tags/v1"] Worlds.start).
  - intros st. eexists. reflexivity.
  - intros st. reflexivity.
  - repeat (apply List.Forall_cons; [split; [vm_compute; discriminate|vm_compute; reflexivity]|]).
    apply List.Forall_nil.
Defined.

(** * Sizes *)

Section Sizes.
Import JsString.

Lemma to_uint_not_nil n : Nat.to_uint n <> Decimal.Nil.
Proof.
  intros Hnil. pose proof (Unsigned.of_to n) as Hn. rewrite Hnil in Hn.
  cbn in Hn. subst n. discriminate Hnil.
Qed.

(** Reading back the digits of a decimal numeral. *)
Lemma read_digits_uint d :
  forall a, read_digits 10 (Some (Z.of_nat a)) (NilEmpty.string_of_uint d)
            = Some (Z.of_nat (Nat.of_uint_acc d a)).
Proof.
  induction d; intros a; cbn [NilEmpty.string_of_uint Nat.of_uint_acc]; [reflexivity|..];
    cbn [read_digits];
    match goal with
    | |- context [digit_in 10 ?c] =>
        let v := eval vm_compute in (digit_in 10 c) in
        change (digit_in 10 c) with v
    end;
    cbv iota; rewrite <- IHd; f_equal; f_equal; rewrite Nat.tail_mul_spec; lia.
Qed.

Lemma read_digits_start d :
  d <> Decimal.Nil ->
  read_digits 10 None (NilEmpty.string_of_uint d)
  = read_digits 10 (Some 0) (NilEmpty.string_of_uint d).
Proof. destruct d; [contradiction|..]; intros _; reflexivity. Qed.

(** A byte below 128 that is no white space stops [trimStart]. *)
Lemma trimStart_plain c s :
  (nat_of_ascii c < 128)%nat -> is_space c = false ->
  trimStart (String c s) = String c s.
Proof.
  intros Hc Hs. cbn [trimStart]. rewrite Hs.
  assert (H2 : forall c1, is_space2 c c1 = false).
  { intros c1. unfold is_space2.
    destruct (Nat.eqb_spec (nat_of_ascii c) 194); [lia|reflexivity]. }
  assert (H3 : forall c1 c2, is_space3 c c1 c2 = false).
  { intros c1 c2. unfold is_space3. cbv zeta.
    destruct (Nat.eqb_spec (nat_of_ascii c) 225); [lia|].
    destruct (Nat.eqb_spec (nat_of_ascii c) 226); [lia|].
    destruct (Nat.eqb_spec (nat_of_ascii c) 227); [lia|].
    destruct (Nat.eqb_spec (nat_of_ascii c) 239); [lia|]. reflexivity. }
  destruct s as [|c1 [|c2 s3]]; rewrite ?H2, ?H3; reflexivity.
Qed.

Lemma trimStart_uint d rest :
  d <> Decimal.Nil ->
  trimStart (NilEmpty.string_of_uint d +:+ rest) = NilEmpty.string_of_uint d +:+ rest.
Proof.
  destruct d; [contradiction|..]; intros _; cbn [NilEmpty.string_of_uint];
    match goal with
    | |- trimStart (String ?c ?s +:+ ?t) = _ =>
        change (String c s +:+ t) with (String c (s +:+ t))
    end;
    (apply trimStart_plain; [vm_compute; lia|reflexivity]).
Qed.

Lemma trimStart_digits d :
  d <> Decimal.Nil ->
  trimStart (NilEmpty.string_of_uint d) = NilEmpty.string_of_uint d.
Proof.
  destruct d; [contradiction|..]; intros _; cbn [NilEmpty.string_of_uint];
    (apply trimStart_plain; [vm_compute; lia|reflexivity]).
Qed.

Lemma trimEnd_uint d :
  trimEnd (NilEmpty.string_of_uint d +:+ String LF EmptyString) = NilEmpty.string_of_uint d.
Proof.
  induction d; [reflexivity|..];
    cbn [NilEmpty.string_of_uint];
    match goal with
    | |- trimEnd (String ?c ?s +:+ ?t) = _ =>
        change (String c s +:+ t) with (String c (s +:+ t))
    end;
    cbn [trimEnd];
    (rewrite trimStart_plain; [|vm_compute; lia|reflexivity]);
    cbn [truthy]; rewrite IHd; reflexivity.
Qed.

Lemma strip_uint d :
  d <> Decimal.Nil ->
  strip_sign (NilEmpty.string_of_uint d) = (1, NilEmpty.string_of_uint d) /\
  strip_radix (NilEmpty.string_of_uint d) = (10, NilEmpty.string_of_uint d).
Proof.
  destruct d; [contradiction|..]; intros _; (split; [reflexivity|]);
    try reflexivity; destruct d; reflexivity.
Qed.

(** [parseInt] reads back what the template literal of a number prints,
    also when a line feed follows, as a double. *)
Lemma parseInt_ofNat n :
  parseInt (trim (ofNat n +:+ String LF EmptyString)) = Some (toDouble (Z.of_nat n)).
Proof.
  unfold ofNat, trim.
  pose proof (to_uint_not_nil n) as Hd.
  rewrite (trimStart_uint _ _ Hd), trimEnd_uint.
  unfold parseInt.
  rewrite (trimStart_digits _ Hd).
  destruct (strip_uint _ Hd) as [-> ->].
  rewrite (read_digits_start _ Hd).
  pose proof (read_digits_uint (Nat.to_uint n) 0) as Hread.
  change (Z.of_nat 0) with 0 in Hread. rewrite Hread.
  fold (Nat.of_uint (Nat.to_uint n)). rewrite Unsigned.of_to.
  f_equal. apply Z.mul_1_l.
Qed.

(** Up to 2^53 every integer is a double. *)
Lemma toDouble_exact v : 0 <= v <= 2 ^ 53 -> toDouble v = v.
Proof.
  intros [Hlow Hhigh]. unfold toDouble.
  destruct (Z.eq_dec v (2 ^ 53)) as [-> | Hne]; [vm_compute; reflexivity|].
  destruct (Z.leb_spec (Z.log2 v + 1) 53) as [_|Hbits]; [reflexivity|].
  exfalso. destruct (Z.eq_dec v 0) as [-> | Hpos]; [cbn in Hbits; lia|].
  assert (Hlog : Z.log2 v < 53) by (apply Z.log2_lt_pow2; lia). lia.
Qed.

End Sizes.

(** X11. [getObjectSize] reads the size as [git cat-file -s] prints it: a
    decimal number followed by a line feed.  When the process exits with
    code 0 after printing [n] this way, [n] of at most 20 digits, the
    size returned is the double nearest to [n], which up to 2^53 is [n]
    itself. *)
Theorem getObjectSize_reads_decimal
        (env : Env) (repoPath hash err : string) (n : nat) (s : State) :
  spawn_run env s "git" ["cat-file"; "-s"; hash] repoPath
  = Close (Some 0) (JsString.ofNat n +:+ String JsString.LF EmptyString) err ->
  (Z.of_nat n < 10 ^ 20 ->
   fst (getObjectSize env repoPath hash s) = Ok (JsString.toDouble (Z.of_nat n))) /\
  (Z.of_nat n <= 2 ^ 53 -> fst (getObjectSize env repoPath hash s) = Ok (Z.of_nat n)).
Proof.
  intros Hexit. rewrite getObjectSize_run. cbv zeta. rewrite Hexit.
  cbn [fst sizeOfExit]. rewrite parseInt_ofNat. split; [reflexivity|].
  intros Hbound. rewrite toDouble_exact by lia. reflexivity.
Qed.

Lemma getObjectSize_reads_decimal_witness :
  fst (getObjectSize Worlds.stubborn "temp/demo" "bbb2" Worlds.start) = Ok 1024 /\
  fst (getObjectSize Worlds.stubborn "temp/demo" "bbb2" Worlds.start)
  = Ok (JsString.toDouble 1024).
Proof.
  destruct (getObjectSize_reads_decimal
              Worlds.stubborn "temp/demo" "bbb2" EmptyString 1024 Worlds.start)
    as [Hnearest Hexact].
  - reflexivity.
  - split; [apply Hexact; vm_compute; discriminate|apply Hnearest; reflexivity].
Defined.

(** Above 2^53 not every integer is a double: the size printed as
    2^53 + 1 is read as 2^53, and the one printed as 2^53 + 3 as
    2^53 + 4. *)
Example sizes_are_doubles :
  JsString.parseInt "9007199254740993" = Some 9007199254740992 /\
  JsString.parseInt "9007199254740995" = Some 9007199254740996 /\
  JsString.parseInt "9007199254740992" = Some 9007199254740992.
Proof. vm_compute. repeat split. Qed.

(** X12. Every record [findLargeFiles] returns has a size of at least
    the limit it was called with: an object below the limit is never
    reported, whatever the enumeration and the lookups answer. *)
Theorem scanner_respects_the_limit
        (env : Env) (repoPath : string) (sizeLimit : Z) (s : State) (files : list LargeFile) :
  fst (findLargeFiles env repoPath sizeLimit s) = Ok files ->
  Forall (fun f => sizeLimit <= size f) files.
Proof.
  intros Hfound.
  pose proof (findLargeFiles_run env repoPath sizeLimit s) as Hrun. cbv zeta in Hrun.
  destruct (spawn_run env s "git" ["rev-list"; "--objects"; "--all"] repoPath)
    as [e|[[| |]|] output err]; try (rewrite Hrun in Hfound; discriminate Hfound).
  destruct Hrun as (exits & _ & Hrun). rewrite Hrun in Hfound. injection Hfound as <-.
  apply List.Forall_forall. intros f Hin.
  destruct (slots_origin sizeLimit _ exits f Hin) as (i & obj & exit & _ & _ & Hslot).
  unfold slotOf in Hslot.
  destruct (Z.leb_spec sizeLimit (sizeOfExit exit)) as [Hle|]; [|discriminate].
  injection Hslot as <-. exact Hle.
Qed.

Lemma scanner_respects_the_limit_witness :
  Forall (fun f => defaultSizeLimit <= size f)
         [mkLargeFile "assets/video.mp4" 157286400 "aaa1"].
Proof.
  apply (scanner_respects_the_limit Worlds.stubborn "temp/demo" defaultSizeLimit Worlds.start).
  vm_compute. reflexivity.
Defined.

(** * The file names in a rejection *)

Section Matches.
Import FilePattern.

Lemma append_assoc_string (a b c : string) : (a +:+ b) +:+ c = a +:+ (b +:+ c).
Proof.
  induction a as [|x a IH]; [reflexivity|].
  change (String x ((a +:+ b) +:+ c) = String x (a +:+ (b +:+ c))). rewrite IH. reflexivity.
Qed.

Lemma length_append (a b : string) :
  String.length (a +:+ b) = (String.length a + String.length b)%nat.
Proof.
  induction a as [|x a IH]; [reflexivity|].
  change (S (String.length (a +:+ b)) = S (String.length a + String.length b)).
  rewrite IH. reflexivity.
Qed.

Lemma substring_prefix (a b : string) : substring 0 (String.length a) (a +:+ b) = a.
Proof.
  induction a as [|x a IH]; [destruct b; reflexivity|].
  change (String x (substring 0 (String.length a) (a +:+ b)) = String x a).
  rewrite IH. reflexivity.
Qed.

Lemma literal_spec p : forall s rest, literal p s = Some rest -> s = p +:+ rest.
Proof.
  induction p as [|a p IH]; intros s rest; cbn [literal].
  - intros [= ->]. reflexivity.
  - destruct s as [|b s]; [discriminate|].
    destruct (Ascii.eqb_spec a b) as [->|]; [|discriminate].
    intros H. rewrite (IH s rest H). reflexivity.
Qed.

Lemma skip_digits_spec s :
  exists d, s = d +:+ skip_digits s /\ allChars is_digit d = true.
Proof.
  induction s as [|c s (d & Hs & Hd)]; [exists EmptyString; split; reflexivity|].
  cbn [skip_digits]. destruct (is_digit c) eqn:Hc.
  - exists (String c d). split; [exact (f_equal (String c) Hs)|].
    cbn [allChars]. rewrite Hc, Hd. reflexivity.
  - exists EmptyString. split; reflexivity.
Qed.

Lemma digits_spec s rest :
  digits s = Some rest -> exists d, isNumeral d /\ s = d +:+ rest.
Proof.
  unfold digits. destruct s as [|c s]; [discriminate|].
  destruct (is_digit c) eqn:Hc; [|discriminate]. intros [= <-].
  destruct (skip_digits_spec s) as (d & Hs & Hd).
  exists (String c d). split; [split; [discriminate|]|].
  - cbn [allChars]. rewrite Hc, Hd. reflexivity.
  - exact (f_equal (String c) Hs).
Qed.

Lemma size_suffix_spec s rest :
  size_suffix s = Some rest ->
  exists whole fraction,
    isNumeral whole /\ isNumeral fraction /\
    s = " is " +:+ whole +:+ "." +:+ fraction +:+ " MB" +:+ rest.
Proof.
  unfold size_suffix, and_then.
  destruct (literal " is " s) as [s1|] eqn:H1; [|discriminate].
  destruct (digits s1) as [s2|] eqn:H2; [|discriminate].
  destruct (literal "." s2) as [s3|] eqn:H3; [|discriminate].
  destruct (digits s3) as [s4|] eqn:H4; [|discriminate].
  intros H5.
  apply literal_spec in H1, H3, H5.
  destruct (digits_spec _ _ H2) as (whole & Hwhole & Hs1).
  destruct (digits_spec _ _ H4) as (fraction & Hfraction & Hs3).
  exists whole, fraction. split; [exact Hwhole|]. split; [exact Hfraction|].
  subst s s1 s2 s3 s4. reflexivity.
Qed.

Lemma line_terminator_ahead_prefix a b :
  a <> EmptyString ->
  line_terminator_ahead (a +:+ b) = false -> line_terminator_ahead a = false.
Proof.
  destruct a as [|c a]; [contradiction|]. intros _.
  change (String c a +:+ b) with (String c (a +:+ b)). cbn [line_terminator_ahead].
  destruct (is_line_terminator c); [discriminate|]. cbn [orb].
  destruct a as [|c1 [|c2 a]]; try (intros _; reflexivity).
  change (String c1 (String c2 a) +:+ b) with (String c1 (String c2 (a +:+ b))).
  intros H. exact H.
Qed.

Lemma lazy_name_spec s :
  forall rest,
    lazy_name s = Some rest ->
    exists name whole fraction,
      name <> EmptyString /\
      noLineTerminator name = true /\
      isNumeral whole /\ isNumeral fraction /\
      s = name +:+ " is " +:+ whole +:+ "." +:+ fraction +:+ " MB" +:+ rest.
Proof.
  induction s as [|c s IH]; intros rest; cbn [lazy_name]; [discriminate|].
  destruct (line_terminator_ahead (String c s)) eqn:Hc; [discriminate|].
  destruct (size_suffix s) as [rest'|] eqn:Hsuffix.
  - intros [= <-]. destruct (size_suffix_spec _ _ Hsuffix) as (whole & fraction & Hw & Hf & ->).
    exists (String c EmptyString), whole, fraction.
    split; [discriminate|]. split.
    + cbn [noLineTerminator].
      rewrite (line_terminator_ahead_prefix (String c EmptyString) _ ltac:(discriminate) Hc).
      reflexivity.
    + split; [exact Hw|]. split; [exact Hf|]. reflexivity.
  - intros Hlater.
    destruct (IH rest Hlater) as (name & whole & fraction & _ & Hname & Hw & Hf & ->).
    exists (String c name), whole, fraction.
    split; [discriminate|]. split.
    + cbn [noLineTerminator]. rewrite Hname.
      rewrite (line_terminator_ahead_prefix (String c name) _ ltac:(discriminate) Hc).
      reflexivity.
    + split; [exact Hw|]. split; [exact Hf|]. reflexivity.
Qed.

Lemma match_here_spec s m :
  match_here s = Some m -> reportedFile m /\ exists rest, s = m +:+ rest.
Proof.
  unfold match_here, and_then.
  destruct (literal "File " s) as [s1|] eqn:H1; [|discriminate].
  destruct (lazy_name s1) as [rest|] eqn:H2; [|discriminate].
  intros [= <-]. apply literal_spec in H1.
  destruct (lazy_name_spec _ _ H2) as (name & whole & fraction & Hn & Hname & Hw & Hf & Hs1).
  set (m := "File " +:+ name +:+ " is " +:+ whole +:+ "." +:+ fraction +:+ " MB").
  assert (Hs : s = m +:+ rest).
  { subst m s s1. rewrite !append_assoc_string. reflexivity. }
  rewrite Hs, length_append, Nat.add_sub, substring_prefix.
  split; [|exists rest; reflexivity].
  exists name, whole, fraction. repeat split; try assumption; apply Hw || apply Hf.
Qed.

Lemma scan_spec s :
  forall skip m, In m (scan skip s) -> reportedFile m /\ occursIn m s.
Proof.
  induction s as [|c s IH]; intros skip m; cbn [scan]; [contradiction|].
  assert (Hlater : forall k, In m (scan k s) -> reportedFile m /\ occursIn m (String c s)).
  { intros k Hin. destruct (IH k m Hin) as (Hm & pre & post & ->).
    split; [exact Hm|]. exists (String c pre), post. reflexivity. }
  destruct skip as [|k]; [|apply Hlater].
  destruct (match_here (String c s)) as [m0|] eqn:Hhere; [|apply Hlater].
  intros [<- | Hin]; [|exact (Hlater _ Hin)].
  destruct (match_here_spec _ _ Hhere) as (Hm & rest & Hrest).
  split; [exact Hm|]. exists EmptyString, rest. exact Hrest.
Qed.

End Matches.

(** X13. What [attemptPush] extracts from the error of a failed retry
    with the pattern [/File (.+?) is \d+\.\d+ MB/g]: every match occurs in
    the error message and reads [File <name> is <digits>.<digits> MB],
    with a name of at least one character and within one line.  A retry
    that failed with a large-object error logs one warning
    [Still problematic: <match>] for each match, in the order of the
    message; any other error logs nothing. *)
Theorem reported_files_come_from_the_message
        (this : GitManager) (errorMessage : string) (s : State) :
  Forall (fun m => reportedFile m /\ occursIn m errorMessage)
         (FilePattern.fileMatches errorMessage) /\
  history (snd (attemptPush_catch this true errorMessage s))
  = if isLargeFileError errorMessage
    then rev (map (fun m => LogEvent (warnSink this) ("Still problematic: " +:+ m))
                  (FilePattern.fileMatches errorMessage))
             ++ LogEvent (warnSink this)
                  "Large file error persists after cleanup. Extracting file names..."
             :: history s
    else history s.
Proof.
  split.
  - apply List.Forall_forall. intros m Hin. exact (scan_spec errorMessage 0 m Hin).
  - destruct (isLargeFileError errorMessage) eqn:Hlarge.
    + rewrite attemptPush_catch_retry by exact Hlarge. reflexivity.
    + rewrite attemptPush_catch_other by exact Hlarge. reflexivity.
Qed.

(** GitHub's rejection text of the examples names one file. *)
Example reported_files_example :
  FilePattern.fileMatches Worlds.githubRejection = ["File assets/video.mp4 is 150.00 MB"].
Proof. vm_compute. reflexivity. Qed.

(** A name does not run over U+2028: the match has to start behind it. *)
Example line_separator_example :
  let separator := String (ascii_of_nat 226)
                     (String (ascii_of_nat 128) (String (ascii_of_nat 168) EmptyString)) in
  FilePattern.fileMatches ("File a" +:+ separator +:+ "b is 1.00 MB") = [] /\
  FilePattern.fileMatches ("File a" +:+ separator +:+ "File c is 1.00 MB")
  = ["File c is 1.00 MB"].
Proof. vm_compute. split; reflexivity. Qed.

(** * The earlier revision of the rewriter *)

Section EarlierRewriter.
Context (env : Env) (this : GitManager) (branchNames : string -> list string).










(** *** Counting the [filter-branch] runs *)






End EarlierRewriter.




(** * The driver *)

(** Running the plumbing of the driver's monad. *)
Ltac drive_steps :=
  cbv beta iota delta
      [Migrator.bind Migrator.try_catch Migrator.ask
       Migrator.logger Migrator.separator Migrator.summary Migrator.spinner
       Migrator.setStats Migrator.onDisk Migrator.ret Migrator.throw Migrator.exit
       Migrator.note Migrator.countSuccess Migrator.countFailed Migrator.setTotal
       Migrator.announceDryRun negb];
  cbn [Migrator.disk Migrator.stats Migrator.journal
       Migrator.total Migrator.success Migrator.failed Migrator.skipped fst snd].

Ltac drive := unfold Migrator.migrateRepository; drive_steps.

Ltac ask_github :=
  match goal with
  | |- context [Migrator.github_getRepository ?clients ?st ?n] =>
      destruct (Migrator.github_getRepository clients st n) as [gh|e]
  | |- context [Migrator.github_createRepository ?clients ?st ?r] =>
      destruct (Migrator.github_createRepository clients st r) as [gh|e]
  end.

Ltac run_mirror :=
  match goal with
  | |- context [mirrorRepository ?a ?b ?c ?d ?e ?f ?g ?h ?i ?st] =>
      destruct (mirrorRepository a b c d e f g h i st) as [[b0|e0] s']
  end.

Section Driver.
Context (env : Env) (clients : Migrator.Clients) (this : Migrator.BitToHubMigrator).

#[local] Abbreviation migrateRepository := (Migrator.migrateRepository env clients this).

(** What one call of [migrateRepository] can do: it returns or throws,
    asks GitHub once whether the repository exists, and leaves the
    counters alone unless it skips. *)
Lemma migrateRepository_effect repo w :
  exists c w' new,
    migrateRepository repo w = (c, w') /\
    (c = Migrator.Returned tt \/ exists e, c = Migrator.Thrown e) /\
    Migrator.journal w' = new ++ Migrator.journal w /\
    existsCalls new = [Bitbucket.name repo] /\
    (Migrator.stats w' = Migrator.stats w \/
     (c = Migrator.Returned tt /\
      Migrator.stats w'
      = Migrator.mkStats (Migrator.total (Migrator.stats w))
                         (Migrator.success (Migrator.stats w))
                         (Migrator.failed (Migrator.stats w))
                         (S (Migrator.skipped (Migrator.stats w))))).
Proof.
  drive.
  destruct (Migrator.github_repositoryExists clients w (Bitbucket.name repo)) as [exists_|e].
  2:{ eexists _, _, [_]. split; [reflexivity|]. split; [right; eauto|].
      split; [reflexivity|]. split; [reflexivity|left; reflexivity]. }
  destruct (Migrator.skipExisting this && exists_) eqn:Hskip; drive_steps.
  { eexists _, _, [_; _]. split; [reflexivity|]. split; [left; reflexivity|].
    split; [reflexivity|]. split; [reflexivity|]. right. split; reflexivity. }
  destruct (Migrator.dryRun this); drive_steps.
  { eexists _, _, [_; _; _; _; _]. split; [reflexivity|]. split; [left; reflexivity|].
    split; [reflexivity|]. split; [reflexivity|left; reflexivity]. }
  destruct exists_; drive_steps; ask_github; drive_steps;
    try run_mirror; drive_steps;
    eexists _, _, _;
    (split; [reflexivity|]);
    (split; [first [left; reflexivity | right; eexists; reflexivity]|]);
    (split; [rewrite <- (app_nil_l (Migrator.journal w)) at 1;
             rewrite !app_comm_cons; reflexivity|]);
    (split; [reflexivity|left; reflexivity]).
Qed.

(** In a dry run, and for a repository that is skipped, nothing is done
    on disk and nothing is created. *)
Lemma migrateRepository_untouched repo w :
  Migrator.dryRun this = true \/
  (Migrator.skipExisting this = true /\
   forall w0 repoName, Migrator.github_repositoryExists clients w0 repoName = Ok true) ->
  exists new,
    Migrator.journal (snd (migrateRepository repo w)) = new ++ Migrator.journal w /\
    createCalls new = [] /\
    Migrator.disk (snd (migrateRepository repo w)) = Migrator.disk w.
Proof.
  intros Hmode. drive.
  destruct (Migrator.github_repositoryExists clients w (Bitbucket.name repo))
    as [exists_|e] eqn:Hexists.
  2:{ eexists [_]. repeat split. }
  destruct (Migrator.skipExisting this && exists_) eqn:Hskip; drive_steps.
  { eexists [_; _]. repeat split. }
  destruct Hmode as [-> | [Hon Hall]].
  - drive_steps. eexists [_; _; _; _; _]. repeat split.
  - rewrite Hall in Hexists. injection Hexists as <-. rewrite Hon in Hskip. discriminate.
Qed.

(** A skipped repository: the call returns and only the skip counter
    moves. *)
Lemma migrateRepository_skips repo w :
  Migrator.skipExisting this = true ->
  Migrator.github_repositoryExists clients w (Bitbucket.name repo) = Ok true ->
  fst (migrateRepository repo w) = Migrator.Returned tt /\
  Migrator.stats (snd (migrateRepository repo w))
  = Migrator.mkStats (Migrator.total (Migrator.stats w))
                     (Migrator.success (Migrator.stats w))
                     (Migrator.failed (Migrator.stats w))
                     (S (Migrator.skipped (Migrator.stats w))).
Proof.
  intros Hon Hexists. drive. rewrite Hexists, Hon. drive_steps. split; reflexivity.
Qed.

Lemma existsCalls_app j1 j2 : existsCalls (j1 ++ j2) = existsCalls j1 ++ existsCalls j2.
Proof. apply omap_app. Qed.

Lemma createCalls_app j1 j2 : createCalls (j1 ++ j2) = createCalls j1 ++ createCalls j2.
Proof. apply omap_app. Qed.

(** The modes in which the driver must not change anything. *)
#[local] Abbreviation untouching :=
  (Migrator.dryRun this = true \/
   (Migrator.skipExisting this = true /\
    forall w0 repoName, Migrator.github_repositoryExists clients w0 repoName = Ok true)).

#[local] Abbreviation skippingAll :=
  (Migrator.skipExisting this = true /\
   forall w0 repoName, Migrator.github_repositoryExists clients w0 repoName = Ok true).

(** The loop of [migrateAll]: every repository is taken up, whatever
    happened to the ones before it, and counted as a success or as a
    failure. *)
Lemma migrateEach_run count repositories :
  forall i w,
  exists w' new,
    Migrator.migrateEach env clients this count i repositories w = (Migrator.Returned tt, w') /\
    Migrator.journal w' = new ++ Migrator.journal w /\
    existsCalls new = rev (map Bitbucket.name repositories) /\
    Migrator.total (Migrator.stats w') = Migrator.total (Migrator.stats w) /\
    (Migrator.success (Migrator.stats w') + Migrator.failed (Migrator.stats w')
     = Migrator.success (Migrator.stats w) + Migrator.failed (Migrator.stats w)
       + length repositories)%nat /\
    (Migrator.skipped (Migrator.stats w') + Migrator.success (Migrator.stats w)
     <= Migrator.success (Migrator.stats w') + Migrator.skipped (Migrator.stats w))%nat /\
    (untouching ->
     Migrator.disk w' = Migrator.disk w /\ createCalls new = []) /\
    (skippingAll ->
     Migrator.skipped (Migrator.stats w')
     = (Migrator.skipped (Migrator.stats w) + length repositories)%nat /\
     Migrator.failed (Migrator.stats w') = Migrator.failed (Migrator.stats w)).
Proof.
  induction repositories as [|repo rest IH]; intros i w.
  - exists w, []. cbn [length]. repeat split; try reflexivity; lia.
  - cbn [Migrator.migrateEach]. drive_steps.
    match goal with
    | |- context [Migrator.migrateRepository env clients this repo ?st] =>
        destruct (migrateRepository_effect repo st) as (c & w2 & new & Hrun & Hc & Hj & He & Hs);
        pose proof (migrateRepository_untouched repo st) as Hun;
        pose proof (migrateRepository_skips repo st) as Hsk;
        rewrite Hrun in Hun, Hsk |- *
    end.
    cbn [fst snd Migrator.journal Migrator.stats Migrator.disk] in Hj, Hs, Hun, Hsk.
    destruct Hc as [-> | [e ->]]; drive_steps;
      match goal with
      | |- context [Migrator.migrateEach env clients this count (S i) rest ?st] =>
          destruct (IH (S i) st) as (w' & new' & Hrest & Hj' & He' & Ht & Hsum & Hle & Hun' & Hsk');
          rewrite Hrest
      end;
      cbn [Migrator.journal Migrator.stats Migrator.disk Migrator.total Migrator.success
           Migrator.failed Migrator.skipped] in Hj', Ht, Hsum, Hle, Hun', Hsk'.
    + exists w', (new' ++ Migrator.Separator :: new ++ [Migrator.Logged Migrator.Progress
                   ("[" +:+ JsString.ofNat (i + 1) +:+ "/" +:+ JsString.ofNat count
                    +:+ "] Processing: " +:+ Bitbucket.name repo)]).
      split; [reflexivity|]. split.
      { rewrite Hj', Hj. rewrite <- !app_assoc. cbn [app]. rewrite <- app_assoc. reflexivity. }
      split.
      { rewrite existsCalls_app, He'. cbn [existsCalls omap list_omap].
        change (omap _ (new ++ ?l)) with (existsCalls (new ++ l)).
        rewrite existsCalls_app, He. reflexivity. }
      cbn [length].
      destruct Hs as [Hs | [_ Hs]]; rewrite Hs in Ht, Hsum, Hle, Hsk';
        cbn [Migrator.total Migrator.success Migrator.failed Migrator.skipped]
          in Ht, Hsum, Hle, Hsk'.
      * split; [exact Ht|]. split; [lia|]. split; [lia|]. split.
        { intros Hmode. destruct (Hun Hmode) as (new0 & Hj0 & Hc0 & Hd0).
          destruct (Hun' Hmode) as [Hd' Hc']. split; [congruence|].
          rewrite createCalls_app, Hc'. cbn [createCalls omap list_omap].
          change (omap _ (new ++ ?l)) with (createCalls (new ++ l)).
          rewrite createCalls_app. rewrite Hj in Hj0. apply app_inv_tail in Hj0. subst new0.
          rewrite Hc0. reflexivity. }
        intros Hmode. destruct Hmode as [Hon Hall].
        destruct (Hsk Hon (Hall _ _)) as [_ Hskipped]. rewrite Hs in Hskipped.
        apply (f_equal Migrator.skipped) in Hskipped. cbn [Migrator.skipped] in Hskipped. lia.
      * split; [exact Ht|]. split; [lia|]. split; [lia|]. split.
        { intros Hmode. destruct (Hun Hmode) as (new0 & Hj0 & Hc0 & Hd0).
          destruct (Hun' Hmode) as [Hd' Hc']. split; [congruence|].
          rewrite createCalls_app, Hc'. cbn [createCalls omap list_omap].
          change (omap _ (new ++ ?l)) with (createCalls (new ++ l)).
          rewrite createCalls_app. rewrite Hj in Hj0. apply app_inv_tail in Hj0. subst new0.
          rewrite Hc0. reflexivity. }
        intros Hmode. destruct (Hsk' Hmode) as [Hk Hf]. split; lia.
    + exists w', (new' ++ Migrator.Separator
                    :: Migrator.Logged Migrator.Error
                         ("Failed to migrate " +:+ Bitbucket.name repo +:+ ": " +:+ e)
                    :: new ++ [Migrator.Logged Migrator.Progress
                   ("[" +:+ JsString.ofNat (i + 1) +:+ "/" +:+ JsString.ofNat count
                    +:+ "] Processing: " +:+ Bitbucket.name repo)]).
      split; [reflexivity|]. split.
      { rewrite Hj', Hj. cbn [app]. rewrite <- !app_assoc. cbn [app].
        rewrite <- app_assoc. reflexivity. }
      split.
      { rewrite existsCalls_app, He'. cbn [existsCalls omap list_omap].
        change (omap _ (new ++ ?l)) with (existsCalls (new ++ l)).
        rewrite existsCalls_app, He. reflexivity. }
      cbn [length].
      destruct Hs as [Hs | [Hr _]]; [|discriminate Hr].
      rewrite Hs in Ht, Hsum, Hle, Hsk';
        cbn [Migrator.total Migrator.success Migrator.failed Migrator.skipped]
          in Ht, Hsum, Hle, Hsk'.
      split; [exact Ht|]. split; [lia|]. split; [lia|]. split.
      { intros Hmode. destruct (Hun Hmode) as (new0 & Hj0 & Hc0 & Hd0).
        destruct (Hun' Hmode) as [Hd' Hc']. split; [congruence|].
        rewrite createCalls_app, Hc'. cbn [createCalls omap list_omap].
        change (omap _ (new ++ ?l)) with (createCalls (new ++ l)).
        rewrite createCalls_app. rewrite Hj in Hj0. apply app_inv_tail in Hj0. subst new0.
        rewrite Hc0. reflexivity. }
      intros Hmode. destruct Hmode as [Hon Hall].
      destruct (Hsk Hon (Hall _ _)) as [Hr _]. discriminate Hr.
Qed.

(** The loop of [migrateSpecific]. *)
Lemma migrateNamed_run repoNames :
  forall w,
  exists w',
    Migrator.migrateNamed env clients this repoNames w = (Migrator.Returned tt, w') /\
    Migrator.total (Migrator.stats w') = Migrator.total (Migrator.stats w) /\
    (Migrator.success (Migrator.stats w') + Migrator.failed (Migrator.stats w')
     = Migrator.success (Migrator.stats w) + Migrator.failed (Migrator.stats w)
       + length repoNames)%nat /\
    ((forall w0 repoName, exists e,
         Migrator.bitbucket_getRepository clients w0 repoName = Throw e) ->
     Migrator.failed (Migrator.stats w')
     = (Migrator.failed (Migrator.stats w) + length repoNames)%nat /\
     Migrator.disk w' = Migrator.disk w /\
     existsCalls (Migrator.journal w') = existsCalls (Migrator.journal w)).
Proof.
  induction repoNames as [|repoName rest IH]; intros w.
  - exists w. cbn [length]. repeat split; try reflexivity; lia.
  - cbn [Migrator.migrateNamed]. drive_steps.
    match goal with
    | |- context [Migrator.bitbucket_getRepository clients ?st repoName] =>
        destruct (Migrator.bitbucket_getRepository clients st repoName) as [repo|e] eqn:Hget
    end; drive_steps.
    + match goal with
      | |- context [Migrator.migrateRepository env clients this repo ?st] =>
          destruct (migrateRepository_effect repo st)
            as (c & w2 & new & Hrun & Hc & Hj & He & Hs);
          rewrite Hrun
      end.
      cbn [Migrator.journal Migrator.stats Migrator.disk] in Hj, Hs.
      destruct Hc as [-> | [e ->]]; drive_steps;
        match goal with
        | |- context [Migrator.migrateNamed env clients this rest ?st] =>
            destruct (IH st) as (w' & Hrest & Ht & Hsum & Hunknown); rewrite Hrest
        end;
        cbn [Migrator.journal Migrator.stats Migrator.disk Migrator.total Migrator.success
             Migrator.failed Migrator.skipped] in Ht, Hsum;
        exists w'; (split; [reflexivity|]); cbn [length];
        (destruct Hs as [Hs | [Hr Hs]]; [|try discriminate Hr]);
        rewrite Hs in Ht, Hsum;
        cbn [Migrator.total Migrator.success Migrator.failed Migrator.skipped] in Ht, Hsum;
        (split; [exact Ht|]); (split; [lia|]);
        intros Hnone; destruct (Hnone w repoName) as [e' He'];
        match type of Hget with
        | Migrator.bitbucket_getRepository clients ?st _ = _ =>
            destruct (Hnone st repoName) as [e'' He'']; rewrite He'' in Hget; discriminate Hget
        end.
    + match goal with
      | |- context [Migrator.migrateNamed env clients this rest ?st] =>
          destruct (IH st) as (w' & Hrest & Ht & Hsum & Hunknown); rewrite Hrest
      end.
      cbn [Migrator.journal Migrator.stats Migrator.disk Migrator.total Migrator.success
           Migrator.failed Migrator.skipped] in Ht, Hsum, Hunknown.
      exists w'. split; [reflexivity|]. cbn [length]. split; [exact Ht|]. split; [lia|].
      intros Hnone. destruct (Hunknown Hnone) as (Hf & Hd & Hcalls).
      split; [lia|]. split; [exact Hd|exact Hcalls].
Qed.

(** [migrateAll] after a listing that returned: the loop, the removal of
    the base directory, the summary. *)
Lemma migrateListed_run repositories w :
  exists w2 new,
    Migrator.migrateListed env clients this repositories w
    = (Migrator.Returned tt,
       Migrator.mkWorld (snd (cleanupTempDir env (Migrator.git this) (Migrator.disk w2)))
                        (Migrator.stats w2)
                        (Migrator.Summary (Migrator.stats w2) :: Migrator.journal w2)) /\
    Migrator.journal w2
    = new ++ Migrator.Spinner Migrator.Succeed
               ("Found " +:+ JsString.ofNat (length repositories)
                +:+ " repositories in Bitbucket workspace") :: Migrator.journal w /\
    existsCalls new = rev (map Bitbucket.name repositories) /\
    Migrator.total (Migrator.stats w2) = length repositories /\
    (Migrator.success (Migrator.stats w2) + Migrator.failed (Migrator.stats w2)
     = Migrator.success (Migrator.stats w) + Migrator.failed (Migrator.stats w)
       + length repositories)%nat /\
    (Migrator.skipped (Migrator.stats w2) + Migrator.success (Migrator.stats w)
     <= Migrator.success (Migrator.stats w2) + Migrator.skipped (Migrator.stats w))%nat /\
    (untouching ->
     Migrator.disk w2 = Migrator.disk w /\ createCalls new = []) /\
    (skippingAll ->
     Migrator.skipped (Migrator.stats w2)
     = (Migrator.skipped (Migrator.stats w) + length repositories)%nat /\
     Migrator.failed (Migrator.stats w2) = Migrator.failed (Migrator.stats w)).
Proof.
  unfold Migrator.migrateListed. drive_steps.
  match goal with
  | |- context [Migrator.migrateEach env clients this ?n 0 repositories ?st] =>
      destruct (migrateEach_run n repositories 0%nat st)
        as (w2 & new & Hloop & Hj & He & Ht & Hsum & Hle & Hun & Hsk); rewrite Hloop
  end.
  cbn [Migrator.journal Migrator.stats Migrator.disk Migrator.total Migrator.success
       Migrator.failed Migrator.skipped] in Hj, Ht, Hsum, Hle, Hun, Hsk.
  rewrite cleanupTempDir_run. exists w2, new.
  split; [rewrite cleanupTempDir_run; reflexivity|].
  repeat split; try assumption; try (apply Hun; assumption); try (apply Hsk; assumption).
Qed.

End Driver.

(** X17. [migrateAll] takes up every repository Bitbucket listed, in
    listing order and whatever happened to the ones before it: it returns
    normally, GitHub has been asked about each repository once, and each
    has been counted as a success or as a failure, so that the two
    counters grow by the number of repositories, which is what [total] is
    set to.  A skipped repository is counted as a success as well.  The
    last thing done is the summary of these counters. *)
Theorem migrateAll_accounts_for_every_repository
        (env : Env) (clients : Migrator.Clients) (this : Migrator.BitToHubMigrator)
        (repositories : list Bitbucket.Repository) (w : Migrator.World) :
  (forall w0, Migrator.bitbucket_getAllRepositories clients w0 = Ok repositories) ->
  exists w',
    Migrator.migrateAll env clients this w = (Migrator.Returned tt, w') /\
    Migrator.total (Migrator.stats w') = length repositories /\
    (Migrator.success (Migrator.stats w') + Migrator.failed (Migrator.stats w')
     = Migrator.success (Migrator.stats w) + Migrator.failed (Migrator.stats w)
       + length repositories)%nat /\
    (Migrator.skipped (Migrator.stats w') + Migrator.success (Migrator.stats w)
     <= Migrator.success (Migrator.stats w') + Migrator.skipped (Migrator.stats w))%nat /\
    existsCalls (Migrator.journal w')
    = rev (map Bitbucket.name repositories) ++ existsCalls (Migrator.journal w) /\
    head (Migrator.journal w') = Some (Migrator.Summary (Migrator.stats w')).
Proof.
  intros Hlisting. unfold Migrator.migrateAll. drive_steps.
  destruct (Migrator.dryRun this); drive_steps; rewrite Hlisting;
    match goal with
    | |- context [Migrator.migrateListed env clients this repositories ?st] =>
        destruct (migrateListed_run env clients this repositories st)
          as (w2 & new & Hrun & Hj & He & Ht & Hsum & Hle & _); rewrite Hrun
    end;
    cbn [Migrator.journal Migrator.stats Migrator.disk] in Hj, Hsum, Hle;
    eexists; (split; [reflexivity|]);
    cbn [Migrator.journal Migrator.stats Migrator.disk head];
    (split; [exact Ht|]); (split; [exact Hsum|]); (split; [exact Hle|]);
    (split; [|reflexivity]);
    cbn [existsCalls omap list_omap]; fold (existsCalls (Migrator.journal w2));
    rewrite Hj, existsCalls_app, He; reflexivity.
Qed.

(** X18. When the listing of the workspace fails, [migrateAll] ends the
    process with exit code 1 after reporting the error: no repository is
    taken up, the counters and the disk are as they were, the base
    directory is not removed and no summary is written. *)
Theorem failed_listing_ends_the_process
        (env : Env) (clients : Migrator.Clients) (this : Migrator.BitToHubMigrator)
        (e : string) (w : Migrator.World) :
  (forall w0, Migrator.bitbucket_getAllRepositories clients w0 = Throw e) ->
  exists w' before,
    Migrator.migrateAll env clients this w = (Migrator.Exited 1, w') /\
    Migrator.stats w' = Migrator.stats w /\
    Migrator.disk w' = Migrator.disk w /\
    Migrator.journal w'
    = Migrator.Logged Migrator.Error e
        :: Migrator.Spinner Migrator.Fail "Failed to fetch repositories from Bitbucket"
        :: Migrator.Asked Migrator.BitbucketGetAllRepositories
        :: Migrator.Spinner Migrator.Start "Fetching repositories from Bitbucket..."
        :: before ++ Migrator.journal w /\
    Forall (fun entry => match entry with
                         | Migrator.Logged _ _ | Migrator.Separator => True
                         | _ => False
                         end) before.
Proof.
  intros Hlisting. unfold Migrator.migrateAll. drive_steps.
  destruct (Migrator.dryRun this); drive_steps; rewrite Hlisting; drive_steps.
  - eexists _, [_; _; _; _]. repeat split. repeat constructor.
  - eexists _, [_; _]. repeat split. repeat constructor.
Qed.

(** X19. In a dry run [migrateAll] creates nothing on GitHub and runs no
    [git] command: no repository is cloned or pushed.  The disk is as it
    was, except that after a listing that returned the base directory is
    removed, as at the end of every run. *)
Theorem dry_run_creates_and_mirrors_nothing
        (env : Env) (clients : Migrator.Clients) (this : Migrator.BitToHubMigrator)
        (w : Migrator.World) :
  Migrator.dryRun this = true ->
  createCalls (Migrator.journal (snd (Migrator.migrateAll env clients this w)))
  = createCalls (Migrator.journal w) /\
  (Migrator.disk (snd (Migrator.migrateAll env clients this w)) = Migrator.disk w \/
   Migrator.disk (snd (Migrator.migrateAll env clients this w))
   = snd (cleanupTempDir env (Migrator.git this) (Migrator.disk w))).
Proof.
  intros Hdry. unfold Migrator.migrateAll. drive_steps. rewrite Hdry. drive_steps.
  match goal with
  | |- context [Migrator.bitbucket_getAllRepositories clients ?st] =>
      destruct (Migrator.bitbucket_getAllRepositories clients st) as [repositories|e]
  end; drive_steps.
  - match goal with
    | |- context [Migrator.migrateListed env clients this repositories ?st] =>
        destruct (migrateListed_run env clients this repositories st)
          as (w2 & new & Hrun & Hj & _ & _ & _ & _ & Hun & _); rewrite Hrun
    end.
    destruct (Hun (or_introl Hdry)) as [Hd Hc].
    cbn [Migrator.journal Migrator.stats Migrator.disk snd] in Hj, Hd |- *.
    split; [|right; rewrite Hd; reflexivity].
    cbn [createCalls omap list_omap]. fold (createCalls (Migrator.journal w2)).
    rewrite Hj, createCalls_app, Hc. reflexivity.
  - split; [reflexivity|left; reflexivity].
Qed.

(** X20. With [skipExisting] on and every listed repository already on
    GitHub, [migrateAll] skips them all: nothing is created, cloned or
    pushed, and the summary counts every repository both as skipped and
    as successfully migrated, none as failed. *)
Theorem skipped_repositories_count_as_successes
        (env : Env) (clients : Migrator.Clients) (this : Migrator.BitToHubMigrator)
        (repositories : list Bitbucket.Repository) (w : Migrator.World) :
  Migrator.skipExisting this = true ->
  (forall w0 repoName, Migrator.github_repositoryExists clients w0 repoName = Ok true) ->
  (forall w0, Migrator.bitbucket_getAllRepositories clients w0 = Ok repositories) ->
  exists w',
    Migrator.migrateAll env clients this w = (Migrator.Returned tt, w') /\
    Migrator.stats w'
    = Migrator.mkStats (length repositories)
                       (Migrator.success (Migrator.stats w) + length repositories)
                       (Migrator.failed (Migrator.stats w))
                       (Migrator.skipped (Migrator.stats w) + length repositories) /\
    head (Migrator.journal w') = Some (Migrator.Summary (Migrator.stats w')) /\
    createCalls (Migrator.journal w') = createCalls (Migrator.journal w) /\
    Migrator.disk w' = snd (cleanupTempDir env (Migrator.git this) (Migrator.disk w)).
Proof.
  intros Hon Hall Hlisting. unfold Migrator.migrateAll. drive_steps.
  destruct (Migrator.dryRun this); drive_steps; rewrite Hlisting;
    match goal with
    | |- context [Migrator.migrateListed env clients this repositories ?st] =>
        destruct (migrateListed_run env clients this repositories st)
          as (w2 & new & Hrun & Hj & _ & Ht & Hsum & _ & Hun & Hsk); rewrite Hrun
    end;
    destruct (Hun (or_intror (conj Hon Hall))) as [Hd Hc];
    destruct (Hsk (conj Hon Hall)) as [Hk Hf];
    cbn [Migrator.journal Migrator.stats Migrator.disk] in Hj, Hsum, Hd, Hk, Hf;
    eexists; (split; [reflexivity|]);
    cbn [Migrator.journal Migrator.stats Migrator.disk head];
    (split; [destruct (Migrator.stats w2) as [t s f k];
             cbn [Migrator.total Migrator.success Migrator.failed Migrator.skipped] in *;
             f_equal; lia|]);
    (split; [reflexivity|]);
    (split; [|rewrite Hd; reflexivity]);
    cbn [createCalls omap list_omap]; fold (createCalls (Migrator.journal w2));
    rewrite Hj, createCalls_app, Hc; reflexivity.
Qed.

(** X21. A repository that is neither skipped nor in a dry run is
    mirrored once the GitHub side is known: [migrateRepository] asks for
    its creation when GitHub does not have it and for its description when
    it does, then runs [mirrorRepository] from the Bitbucket clone address
    to the GitHub one with the credentials of the environment.  What
    happens on disk is what that one call does, its error is rethrown
    unchanged, and the counters are left to the caller. *)
Theorem migrateRepository_mirrors_once
        (env : Env) (clients : Migrator.Clients) (this : Migrator.BitToHubMigrator)
        (repo : Bitbucket.Repository) (onGitHub : bool) (githubRepo : GitHub.Repository)
        (w : Migrator.World) :
  Migrator.dryRun this = false ->
  Migrator.skipExisting this && onGitHub = false ->
  (forall w0, Migrator.github_repositoryExists clients w0 (Bitbucket.name repo) = Ok onGitHub) ->
  (forall w0,
      (if onGitHub
       then Migrator.github_getRepository clients w0 (Bitbucket.name repo)
       else Migrator.github_createRepository clients w0 repo) = Ok githubRepo) ->
  let mirrored :=
    mirrorRepository env (Migrator.git this)
      (Bitbucket.cloneUrl repo) (GitHub.cloneUrl githubRepo) (Bitbucket.name repo)
      (Migrator.envText (Migrator.processEnv this) "BITBUCKET_USERNAME")
      (Migrator.envText (Migrator.processEnv this) "BITBUCKET_APP_PASSWORD")
      (Migrator.envText (Migrator.processEnv this) "GITHUB_TOKEN")
      (Migrator.envText (Migrator.processEnv this) "GITHUB_USERNAME")
      (Migrator.disk w) in
  fst (Migrator.migrateRepository env clients this repo w)
  = match fst mirrored with
    | Ok _ => Migrator.Returned tt
    | Throw e => Migrator.Thrown e
    end /\
  Migrator.disk (snd (Migrator.migrateRepository env clients this repo w)) = snd mirrored /\
  Migrator.stats (snd (Migrator.migrateRepository env clients this repo w))
  = Migrator.stats w /\
  exists new,
    Migrator.journal (snd (Migrator.migrateRepository env clients this repo w))
    = new ++ Migrator.journal w /\
    createCalls new = if onGitHub then [] else [repo].
Proof.
  intros Hwet Hskip Hexists Hknown mirrored. subst mirrored. drive.
  rewrite Hexists, Hskip, Hwet. drive_steps.
  destruct onGitHub; drive_steps.
  - match goal with
    | |- context [Migrator.github_getRepository clients ?st ?n] =>
        rewrite (Hknown st)
    end.
    drive_steps. run_mirror; drive_steps.
    + repeat split. eexists [_; _; _; _; _; _]. split; reflexivity.
    + repeat split. eexists [_; _; _; _; _]. split; reflexivity.
  - match goal with
    | |- context [Migrator.github_createRepository clients ?st ?r] =>
        rewrite (Hknown st)
    end.
    drive_steps. run_mirror; drive_steps.
    + repeat split. eexists [_; _; _; _; _; _; _]. split; reflexivity.
    + repeat split. eexists [_; _; _; _; _; _]. split; reflexivity.
Qed.

(** X22. The constructor lets the program go on only with all five
    credentials: it ends the process with exit code 1 exactly when one of
    the required environment variables is unset or empty, after logging
    the unset ones in the order of the list; otherwise it returns the
    migrator without having logged anything.  It never throws. *)
Theorem constructor_requires_the_credentials
        (options : Migrator.Options) (processEnv : gmap string string) (w : Migrator.World) :
  match fst (Migrator.constructor options processEnv w) with
  | Migrator.Returned this =>
      (forall key, In key Migrator.required ->
                   exists value, processEnv !! key = Some value /\ value <> EmptyString) /\
      Migrator.processEnv this = processEnv /\
      snd (Migrator.constructor options processEnv w) = w
  | Migrator.Exited code =>
      code = 1 /\
      (exists key, In key Migrator.required /\
                   (processEnv !! key = None \/ processEnv !! key = Some EmptyString)) /\
      Migrator.journal (snd (Migrator.constructor options processEnv w))
      = Migrator.Logged Migrator.Info
          "Please check your .env file and ensure all variables are set."
          :: Migrator.Logged Migrator.Error
               ("Missing required environment variables: "
                  +:+ JsString.join ", "
                        (List.filter (Migrator.unset processEnv) Migrator.required))
          :: Migrator.journal w
  | Migrator.Thrown _ => False
  end.
Proof.
  unfold Migrator.constructor, Migrator.validateEnvironment.
  assert (Hunset : forall key,
             Migrator.unset processEnv key = true <->
             processEnv !! key = None \/ processEnv !! key = Some EmptyString).
  { intros key. unfold Migrator.unset.
    destruct (processEnv !! key) as [[|c value]|]; cbn; split; auto;
      intros H; try discriminate; destruct H as [H|H]; discriminate H. }
  destruct (List.filter (Migrator.unset processEnv) Migrator.required) as [|key missing] eqn:Hmissing.
  - drive_steps. split; [|split; [reflexivity|destruct w; reflexivity]].
    intros key Hkey.
    destruct (Migrator.unset processEnv key) eqn:Hkeyset.
    + assert (Hin : In key (List.filter (Migrator.unset processEnv) Migrator.required))
        by (apply List.filter_In; split; assumption).
      rewrite Hmissing in Hin. contradiction.
    + unfold Migrator.unset in Hkeyset.
      destruct (processEnv !! key) as [[|c value]|]; try discriminate.
      eexists. split; [reflexivity|discriminate].
  - cbn [length Nat.ltb Nat.leb]. drive_steps. split; [reflexivity|]. split; [|reflexivity].
    exists key.
    assert (Hin : In key (List.filter (Migrator.unset processEnv) Migrator.required))
      by (rewrite Hmissing; left; reflexivity).
    apply List.filter_In in Hin as [Hreq Hun]. split; [exact Hreq|].
    apply Hunset. exact Hun.
Qed.

(** X23. [migrateSpecific] always returns, also when Bitbucket or GitHub
    cannot be reached: every name is counted as a success or as a
    failure, [total] is the number of names, and the summary of the
    counters is the last thing written. *)
Theorem migrateSpecific_accounts_for_every_name
        (env : Env) (clients : Migrator.Clients) (this : Migrator.BitToHubMigrator)
        (repoNames : list string) (w : Migrator.World) :
  exists w',
    Migrator.migrateSpecific env clients this repoNames w = (Migrator.Returned tt, w') /\
    Migrator.total (Migrator.stats w') = length repoNames /\
    (Migrator.success (Migrator.stats w') + Migrator.failed (Migrator.stats w')
     = Migrator.success (Migrator.stats w) + Migrator.failed (Migrator.stats w)
       + length repoNames)%nat /\
    head (Migrator.journal w') = Some (Migrator.Summary (Migrator.stats w')).
Proof.
  unfold Migrator.migrateSpecific. drive_steps.
  destruct (Migrator.dryRun this); drive_steps;
    match goal with
    | |- context [Migrator.migrateNamed env clients this repoNames ?st] =>
        destruct (migrateNamed_run env clients this repoNames st)
          as (w2 & Hrun & Ht & Hsum & _); rewrite Hrun
    end;
    cbn [Migrator.journal Migrator.stats Migrator.disk Migrator.total Migrator.success
         Migrator.failed Migrator.skipped] in Ht, Hsum;
    rewrite cleanupTempDir_run; eexists; (split; [reflexivity|]);
    cbn [Migrator.journal Migrator.stats Migrator.disk head];
    (split; [exact Ht|]); (split; [exact Hsum|reflexivity]).
Qed.

(** X24. A name Bitbucket cannot describe is a failure of its own: when
    no requested repository can be fetched, [migrateSpecific] counts each
    name as failed, GitHub is never asked, and nothing happens on disk
    but the removal of the base directory at the end. *)
Theorem unknown_names_are_counted_as_failed
        (env : Env) (clients : Migrator.Clients) (this : Migrator.BitToHubMigrator)
        (repoNames : list string) (w : Migrator.World) :
  (forall w0 repoName, exists e,
      Migrator.bitbucket_getRepository clients w0 repoName = Throw e) ->
  exists w',
    Migrator.migrateSpecific env clients this repoNames w = (Migrator.Returned tt, w') /\
    Migrator.failed (Migrator.stats w')
    = (Migrator.failed (Migrator.stats w) + length repoNames)%nat /\
    Migrator.success (Migrator.stats w') = Migrator.success (Migrator.stats w) /\
    existsCalls (Migrator.journal w') = existsCalls (Migrator.journal w) /\
    Migrator.disk w' = snd (cleanupTempDir env (Migrator.git this) (Migrator.disk w)).
Proof.
  intros Hnone. unfold Migrator.migrateSpecific. drive_steps.
  destruct (Migrator.dryRun this); drive_steps;
    match goal with
    | |- context [Migrator.migrateNamed env clients this repoNames ?st] =>
        destruct (migrateNamed_run env clients this repoNames st)
          as (w2 & Hrun & Ht & Hsum & Hunknown); rewrite Hrun
    end;
    destruct (Hunknown Hnone) as (Hf & Hd & Hcalls);
    cbn [Migrator.journal Migrator.stats Migrator.disk Migrator.total Migrator.success
         Migrator.failed Migrator.skipped] in Ht, Hsum, Hf, Hd, Hcalls;
    rewrite Hd, cleanupTempDir_run;
    eexists; (split; [reflexivity|]);
    cbn [Migrator.journal Migrator.stats Migrator.disk snd];
    (split; [exact Hf|]); (split; [lia|]);
    (split; [|reflexivity]);
    cbn [existsCalls omap list_omap]; fold (existsCalls (Migrator.journal w2));
    rewrite Hcalls; reflexivity.
Qed.

Lemma migrateAll_accounts_for_every_repository_witness :
  exists w',
    Migrator.migrateAll Worlds.smooth
      (Workspaces.clients (Ok Workspaces.twoRepositories) (fun _ => false))
      Workspaces.migrator Workspaces.start = (Migrator.Returned tt, w') /\
    Migrator.total (Migrator.stats w') = 2%nat /\
    (Migrator.success (Migrator.stats w') + Migrator.failed (Migrator.stats w')
     = 0 + 0 + 2)%nat /\
    (Migrator.skipped (Migrator.stats w') + 0 <= Migrator.success (Migrator.stats w') + 0)%nat /\
    existsCalls (Migrator.journal w') = ["docs"; "demo"] ++ [] /\
    head (Migrator.journal w') = Some (Migrator.Summary (Migrator.stats w')).
Proof.
  apply (migrateAll_accounts_for_every_repository
           Worlds.smooth (Workspaces.clients (Ok Workspaces.twoRepositories) (fun _ => false))
           Workspaces.migrator Workspaces.twoRepositories Workspaces.start).
  intros w0. reflexivity.
Defined.

Lemma failed_listing_ends_the_process_witness :
  exists w' before,
    Migrator.migrateAll Worlds.smooth
      (Workspaces.clients (Throw "Failed to fetch repositories from Bitbucket: timeout")
                          (fun _ => false))
      Workspaces.migrator Workspaces.start = (Migrator.Exited 1, w') /\
    Migrator.stats w' = Migrator.mkStats 0 0 0 0 /\
    Migrator.disk w' = Worlds.start /\
    Migrator.journal w'
    = Migrator.Logged Migrator.Error "Failed to fetch repositories from Bitbucket: timeout"
        :: Migrator.Spinner Migrator.Fail "Failed to fetch repositories from Bitbucket"
        :: Migrator.Asked Migrator.BitbucketGetAllRepositories
        :: Migrator.Spinner Migrator.Start "Fetching repositories from Bitbucket..."
        :: before ++ [] /\
    Forall (fun entry => match entry with
                         | Migrator.Logged _ _ | Migrator.Separator => True
                         | _ => False
                         end) before.
Proof.
  apply (failed_listing_ends_the_process
           Worlds.smooth
           (Workspaces.clients (Throw "Failed to fetch repositories from Bitbucket: timeout")
                               (fun _ => false))
           Workspaces.migrator "Failed to fetch repositories from Bitbucket: timeout"
           Workspaces.start).
  intros w0. reflexivity.
Defined.

Lemma dry_run_creates_and_mirrors_nothing_witness :
  createCalls (Migrator.journal
                 (snd (Migrator.migrateAll Worlds.smooth
                         (Workspaces.clients (Ok Workspaces.twoRepositories) (fun _ => false))
                         Workspaces.rehearsal Workspaces.start)))
  = [] /\
  (Migrator.disk (snd (Migrator.migrateAll Worlds.smooth
                         (Workspaces.clients (Ok Workspaces.twoRepositories) (fun _ => false))
                         Workspaces.rehearsal Workspaces.start))
   = Worlds.start \/
   Migrator.disk (snd (Migrator.migrateAll Worlds.smooth
                         (Workspaces.clients (Ok Workspaces.twoRepositories) (fun _ => false))
                         Workspaces.rehearsal Workspaces.start))
   = snd (cleanupTempDir Worlds.smooth (Migrator.git Workspaces.rehearsal) Worlds.start)).
Proof.
  apply (dry_run_creates_and_mirrors_nothing
           Worlds.smooth (Workspaces.clients (Ok Workspaces.twoRepositories) (fun _ => false))
           Workspaces.rehearsal Workspaces.start).
  reflexivity.
Defined.

Lemma skipped_repositories_count_as_successes_witness :
  exists w',
    Migrator.migrateAll Worlds.smooth
      (Workspaces.clients (Ok Workspaces.twoRepositories) (fun _ => true))
      Workspaces.migrator Workspaces.start = (Migrator.Returned tt, w') /\
    Migrator.stats w' = Migrator.mkStats 2 (0 + 2) 0 (0 + 2) /\
    head (Migrator.journal w') = Some (Migrator.Summary (Migrator.stats w')) /\
    createCalls (Migrator.journal w') = [] /\
    Migrator.disk w'
    = snd (cleanupTempDir Worlds.smooth (Migrator.git Workspaces.migrator) Worlds.start).
Proof.
  apply (skipped_repositories_count_as_successes
           Worlds.smooth (Workspaces.clients (Ok Workspaces.twoRepositories) (fun _ => true))
           Workspaces.migrator Workspaces.twoRepositories Workspaces.start).
  - reflexivity.
  - intros w0 repoName. reflexivity.
  - intros w0. reflexivity.
Defined.

Lemma migrateRepository_mirrors_once_witness :
  fst (Migrator.migrateRepository Worlds.smooth
         (Workspaces.clients (Ok Workspaces.twoRepositories) (fun _ => false))
         Workspaces.migrator (Workspaces.bitbucketRepo "demo") Workspaces.start)
  = Migrator.Returned tt /\
  steps (history (Migrator.disk
                    (snd (Migrator.migrateRepository Worlds.smooth
                            (Workspaces.clients (Ok Workspaces.twoRepositories) (fun _ => false))
                            Workspaces.migrator (Workspaces.bitbucketRepo "demo")
                            Workspaces.start))))
  = [PushStep].
Proof.
  destruct (migrateRepository_mirrors_once
              Worlds.smooth (Workspaces.clients (Ok Workspaces.twoRepositories) (fun _ => false))
              Workspaces.migrator (Workspaces.bitbucketRepo "demo") false
              (Workspaces.githubRepo "demo") Workspaces.start)
    as (Hresult & Hdisk & _).
  - reflexivity.
  - reflexivity.
  - intros w0. reflexivity.
  - intros w0. reflexivity.
  - rewrite Hresult, Hdisk. split; vm_compute; reflexivity.
Defined.

Lemma unknown_names_are_counted_as_failed_witness :
  exists w',
    Migrator.migrateSpecific Worlds.smooth Workspaces.unknown Workspaces.migrator
                             ["demo"; "docs"] Workspaces.start
    = (Migrator.Returned tt, w') /\
    Migrator.failed (Migrator.stats w') = (0 + 2)%nat /\
    Migrator.success (Migrator.stats w') = 0%nat /\
    existsCalls (Migrator.journal w') = [] /\
    Migrator.disk w'
    = snd (cleanupTempDir Worlds.smooth (Migrator.git Workspaces.migrator) Worlds.start).
Proof.
  apply (unknown_names_are_counted_as_failed
           Worlds.smooth Workspaces.unknown Workspaces.migrator ["demo"; "docs"]
           Workspaces.start).
  intros w0 repoName. eexists. reflexivity.
Defined.

(** A run of the driver: of two repositories one is already on GitHub
    and is skipped, the other is created and mirrored.  Both count as
    successes. *)
Example migrateAll_example :
  let run := Migrator.migrateAll Worlds.smooth
               (Workspaces.clients (Ok Workspaces.twoRepositories)
                                   (fun repoName => String.eqb repoName "docs"))
               Workspaces.migrator Workspaces.start in
  fst run = Migrator.Returned tt /\
  Migrator.stats (snd run) = Migrator.mkStats 2 2 0 1 /\
  createCalls (Migrator.journal (snd run)) = [Workspaces.bitbucketRepo "demo"] /\
  steps (history (Migrator.disk (snd run))) = [PushStep].
Proof. vm_compute. repeat split. Qed.

(** The constructor without a GitHub token. *)
Example constructor_example :
  fst (Migrator.constructor (Migrator.mkOptions false (Some true) None)
                            (delete "GITHUB_TOKEN" Workspaces.credentials)
                            Workspaces.start)
  = Migrator.Exited 1 /\
  head (rev (Migrator.journal
               (snd (Migrator.constructor (Migrator.mkOptions false (Some true) None)
                                          (delete "GITHUB_TOKEN" Workspaces.credentials)
                                          Workspaces.start))))
  = Some (Migrator.Logged Migrator.Error
                          "Missing required environment variables: GITHUB_TOKEN").
Proof. vm_compute. split; reflexivity. Qed.

(** * The listings of the API clients *)

Section GitHubListing.
Context (server : GitHubAPI.Server) (this : GitHubAPI.GitHubAPI).

Lemma github_fetchPages_run pages :
  forall bound page collected log,
    Forall (fun data => data <> []) pages ->
    (forall log0 i data,
        pages !! i = Some data ->
        GitHubAPI.get_many server log0 (GitHubAPI.pageUrl this (page + i))
        = Axios.Responded data) ->
    (forall log0,
        GitHubAPI.get_many server log0 (GitHubAPI.pageUrl this (page + length pages))
        = Axios.Responded []) ->
    GitHubAPI.fetchPages server this bound page collected log
    = if (length pages <? bound)%nat
      then Some (Ok (collected ++ concat (map (map GitHubAPI.listed) pages)),
                 rev (map (GitHubAPI.pageUrl this) (seq page (S (length pages)))) ++ log)
      else None.
Proof.
  induction pages as [|data pages IH]; intros bound page collected log Hfull Hpages Hend.
  - destruct bound as [|bound]; [reflexivity|]. cbn [GitHubAPI.fetchPages length Nat.ltb Nat.leb].
    cbn [length] in Hend. rewrite Nat.add_0_r in Hend. rewrite Hend.
    cbn [length Nat.eqb concat map seq rev app]. rewrite app_nil_r. reflexivity.
  - destruct bound as [|bound]; [reflexivity|]. cbn [GitHubAPI.fetchPages].
    pose proof (Hpages log 0%nat data eq_refl) as Hfirst. rewrite Nat.add_0_r in Hfirst.
    rewrite Hfirst. inversion Hfull as [|? ? Hdata Hrest]; subst.
    destruct data as [|repo data]; [contradiction|]. cbn [length Nat.eqb].
    rewrite (IH bound (S page) _ _ Hrest).
    + change (S (length pages) <? S bound)%nat with (length pages <? bound)%nat.
      destruct (length pages <? bound)%nat; [|reflexivity].
      f_equal. f_equal.
      * cbn [map concat]. rewrite <- app_assoc. reflexivity.
      * rewrite <- (cons_seq (S (length pages)) page), map_cons.
        change (rev (?a :: ?l)) with (rev l ++ [a]). rewrite <- app_assoc. reflexivity.
    + intros log0 i d Hd. replace (S page + i)%nat with (page + S i)%nat by lia.
      apply Hpages. exact Hd.
    + intros log0. replace (S page + length pages)%nat with (page + S (length pages))%nat by lia.
      apply Hend.
Qed.

End GitHubListing.

(** X25. [GitHubAPI.getAllRepositories] asks for the pages 1, 2, ... of
    a hundred repositories until a page comes back empty and returns the
    repositories of all pages before it, in the order they were served.
    When the pages [1 .. n] are not empty and page [n + 1] is, it needs
    [n + 1] requests; with fewer allowed the loop is still running. *)
Theorem github_listing_collects_all_pages
        (server : GitHubAPI.Server) (this : GitHubAPI.GitHubAPI)
        (pages : list (list GitHubAPI.RepoData)) (bound : nat) (log : GitHubAPI.Log) :
  Forall (fun data => data <> []) pages ->
  (forall log0 i data,
      pages !! i = Some data ->
      GitHubAPI.get_many server log0 (GitHubAPI.pageUrl this (S i)) = Axios.Responded data) ->
  (forall log0,
      GitHubAPI.get_many server log0 (GitHubAPI.pageUrl this (S (length pages)))
      = Axios.Responded []) ->
  GitHubAPI.getAllRepositories server this bound log
  = if (length pages <? bound)%nat
    then Some (Ok (concat (map (map GitHubAPI.listed) pages)),
               rev (map (GitHubAPI.pageUrl this) (seq 1 (S (length pages)))) ++ log)
    else None.
Proof.
  intros Hfull Hpages Hend. unfold GitHubAPI.getAllRepositories.
  rewrite (github_fetchPages_run server this pages bound 1 [] log Hfull); auto.
Qed.

Lemma github_listing_collects_all_pages_witness :
  GitHubAPI.getAllRepositories Services.github Services.githubClient 3 []
  = Some (Ok (map GitHubAPI.listed
                  [Services.hosted "demo"; Services.hosted "docs"; Services.hosted "tools"]),
          ["/orgs/org/repos?per_page=100&page=3";
           "/orgs/org/repos?per_page=100&page=2";
           "/orgs/org/repos?per_page=100&page=1"]).
Proof.
  apply (github_listing_collects_all_pages
           Services.github Services.githubClient
           [[Services.hosted "demo"; Services.hosted "docs"]; [Services.hosted "tools"]]
           3 []).
  - repeat (apply List.Forall_cons; [discriminate|]). apply List.Forall_nil.
  - intros log0 [|[|i]] data Hdata; try discriminate Hdata;
      injection Hdata as <-; reflexivity.
  - intros log0. reflexivity.
Defined.

Section BitbucketListing.
Context (server : BitbucketAPI.Server) (this : BitbucketAPI.BitbucketAPI).

Lemma bitbucket_fetchPages_done bound repositories log :
  BitbucketAPI.fetchPages server bound EmptyString repositories log
  = Some (match BitbucketAPI.describeAll repositories with
          | Some result => Ok result
          | None => Throw (BitbucketAPI.failure (BitbucketAPI.typeError server))
          end, log).
Proof.
  destruct bound; cbn [BitbucketAPI.fetchPages JsString.truthy];
    destruct (BitbucketAPI.describeAll repositories); reflexivity.
Qed.

Lemma bitbucket_fetchPages_step bound url repositories log :
  JsString.truthy url = true ->
  BitbucketAPI.fetchPages server (S bound) url repositories log
  = match BitbucketAPI.get_page server log (BitbucketAPI.address url) with
    | Axios.Responded data =>
        match BitbucketAPI.next data with
        | Some link =>
            if JsString.truthy link then
              match BitbucketAPI.pathAndSearch server link with
              | Some following =>
                  BitbucketAPI.fetchPages server bound following
                                          (repositories ++ BitbucketAPI.values data)
                                          (BitbucketAPI.address url :: log)
              | None =>
                  Some (Throw (BitbucketAPI.failure (BitbucketAPI.invalidUrl server)),
                        BitbucketAPI.address url :: log)
              end
            else BitbucketAPI.fetchPages server bound EmptyString
                                         (repositories ++ BitbucketAPI.values data)
                                         (BitbucketAPI.address url :: log)
        | None => BitbucketAPI.fetchPages server bound EmptyString
                                          (repositories ++ BitbucketAPI.values data)
                                          (BitbucketAPI.address url :: log)
        end
    | Axios.Failed error =>
        Some (Throw (BitbucketAPI.failure (Axios.message error)),
              BitbucketAPI.address url :: log)
    end.
Proof. intros Hurl. cbn [BitbucketAPI.fetchPages]. rewrite Hurl. reflexivity. Qed.

(** An address that starts with one slash is put behind the base. *)
Lemma address_below_base c rest :
  nat_of_ascii c <> 47%nat ->
  BitbucketAPI.address ("/" +:+ String c rest)
  = BitbucketAPI.baseURL +:+ "/" +:+ String c rest.
Proof.
  intros Hslash.
  assert (Hc : Ascii.eqb "/"%char c = false).
  { apply Ascii.eqb_neq. intros <-. apply Hslash. reflexivity. }
  change ("/" +:+ String c rest) with (String "/"%char (String c rest)).
  assert (Habsolute : Axios.isAbsoluteURL (String "/"%char (String c rest)) = false).
  { unfold Axios.isAbsoluteURL.
    change (JsString.startsWith "//" (String "/"%char (String c rest)))
      with (Ascii.eqb "/"%char "/"%char && (Ascii.eqb "/"%char c && true)).
    rewrite Hc. reflexivity. }
  unfold BitbucketAPI.address, Axios.buildFullPath. rewrite Habsolute.
  change (JsString.truthy BitbucketAPI.baseURL && negb false) with true. cbv iota.
  unfold Axios.combineURLs. change (JsString.truthy (String "/"%char (String c rest))) with true.
  cbv iota.
  change (Axios.dropFinalSlashes BitbucketAPI.baseURL) with BitbucketAPI.baseURL.
  change (Axios.dropLeadingSlashes (String "/"%char (String c rest)))
    with (if (nat_of_ascii c =? 47)%nat then Axios.dropLeadingSlashes rest
          else String c rest).
  apply Nat.eqb_neq in Hslash. rewrite Hslash. reflexivity.
Qed.

Lemma first_address :
  BitbucketAPI.address ("/repositories/" +:+ BitbucketAPI.workspace this +:+ "?pagelen=100")
  = BitbucketAPI.baseURL +:+ "/repositories/" +:+ BitbucketAPI.workspace this
                         +:+ "?pagelen=100".
Proof.
  exact (address_below_base
           "r"%char ("epositories/" +:+ BitbucketAPI.workspace this +:+ "?pagelen=100")
           ltac:(discriminate)).
Qed.

End BitbucketListing.

(** X26. [BitbucketAPI.getAllRepositories] asks for the next page at the
    path and query of the [next] link, through the client whose base
    address already ends in the version [/2.0].  A link below that base
    has a path that starts with [/2.0] again, so the second request goes
    to an address with the version twice, not to the address of the
    link.  Where the service has nothing there, the listing fails with
    the error of that request, and the repositories of the first page
    are lost with it. *)
Theorem next_page_is_requested_below_a_doubled_prefix
        (server : BitbucketAPI.Server) (this : BitbucketAPI.BitbucketAPI)
        (repositories : list BitbucketAPI.RepoData) (rest : string) (error : Axios.Error)
        (bound : nat) (log : BitbucketAPI.Log) :
  let first := BitbucketAPI.baseURL +:+ "/repositories/" +:+ BitbucketAPI.workspace this
                                    +:+ "?pagelen=100" in
  let link := BitbucketAPI.baseURL +:+ "/repositories/" +:+ rest in
  let doubled := BitbucketAPI.baseURL +:+ "/2.0/repositories/" +:+ rest in
  (forall log0, BitbucketAPI.get_page server log0 first
                = Axios.Responded (BitbucketAPI.mkPage repositories (Some link))) ->
  BitbucketAPI.pathAndSearch server link = Some ("/2.0/repositories/" +:+ rest) ->
  (forall log0, BitbucketAPI.get_page server log0 doubled = Axios.Failed error) ->
  BitbucketAPI.address ("/2.0/repositories/" +:+ rest) = doubled /\
  doubled <> link /\
  BitbucketAPI.getAllRepositories server this (S (S bound)) log
  = Some (Throw ("Failed to fetch repositories from Bitbucket: " +:+ Axios.message error),
          doubled :: first :: log).
Proof.
  intros first link doubled Hfirst Hlink Hdoubled.
  assert (Haddress : BitbucketAPI.address ("/2.0/repositories/" +:+ rest) = doubled).
  { exact (address_below_base "2"%char (".0/repositories/" +:+ rest)
                              ltac:(discriminate)). }
  split; [exact Haddress|]. split.
  { subst doubled link. intros Heq. discriminate Heq. }
  unfold BitbucketAPI.getAllRepositories.
  rewrite bitbucket_fetchPages_step by reflexivity.
  rewrite (first_address this). fold first. rewrite Hfirst.
  cbn [BitbucketAPI.next BitbucketAPI.values]. change (JsString.truthy link) with true.
  cbv iota. rewrite Hlink.
  rewrite bitbucket_fetchPages_step by reflexivity.
  rewrite Haddress, Hdoubled. reflexivity.
Qed.

(** X29. A workspace that fits on one page: when the first page carries
    no link to a next one, [BitbucketAPI.getAllRepositories] makes one
    request, to the listing of the workspace below the base address, and
    returns a descriptor for each repository of the page, in the order
    served; if one of them cannot be described, it fails instead. *)
Theorem single_page_listing
        (server : BitbucketAPI.Server) (this : BitbucketAPI.BitbucketAPI)
        (repositories : list BitbucketAPI.RepoData) (next : option string)
        (bound : nat) (log : BitbucketAPI.Log) :
  let first := BitbucketAPI.baseURL +:+ "/repositories/" +:+ BitbucketAPI.workspace this
                                    +:+ "?pagelen=100" in
  BitbucketAPI.get_page server log first
  = Axios.Responded (BitbucketAPI.mkPage repositories next) ->
  BitbucketAPI.textOr next EmptyString = EmptyString ->
  BitbucketAPI.getAllRepositories server this (S bound) log
  = Some (match BitbucketAPI.describeAll repositories with
          | Some result => Ok result
          | None => Throw ("Failed to fetch repositories from Bitbucket: "
                             +:+ BitbucketAPI.typeError server)
          end,
          first :: log).
Proof.
  intros first Hfirst Hnext.
  unfold BitbucketAPI.getAllRepositories.
  rewrite bitbucket_fetchPages_step by reflexivity.
  rewrite (first_address this). fold first. rewrite Hfirst.
  cbn [BitbucketAPI.next BitbucketAPI.values app].
  destruct next as [link|]; [|apply bitbucket_fetchPages_done].
  unfold BitbucketAPI.textOr in Hnext.
  destruct (JsString.truthy link) eqn:Hlink; [|apply bitbucket_fetchPages_done].
  subst link. discriminate Hlink.
Qed.

(** X27. The descriptors of a listing: each repository is described by
    the address of its first clone link named [https], with an empty
    description and the language [Unknown] where Bitbucket gives none.  A
    single repository without such a link makes the whole listing fail,
    whatever the other repositories are. *)
Theorem listing_needs_an_https_link_everywhere
        (repositories : list BitbucketAPI.RepoData) :
  match BitbucketAPI.describeAll repositories with
  | Some result =>
      Forall2 (fun repo listed =>
                 exists link,
                   List.find (fun l => String.eqb (BitbucketAPI.link_name l) "https")
                             (BitbucketAPI.links_clone repo) = Some link /\
                   Bitbucket.cloneUrl listed = BitbucketAPI.href link /\
                   Bitbucket.name listed = BitbucketAPI.name repo /\
                   Bitbucket.description listed
                   = BitbucketAPI.textOr (BitbucketAPI.description repo) EmptyString /\
                   Bitbucket.language listed
                   = BitbucketAPI.textOr (BitbucketAPI.language repo) "Unknown")
              repositories result
  | None =>
      Exists (fun repo =>
                Forall (fun l => BitbucketAPI.link_name l <> "https")
                       (BitbucketAPI.links_clone repo))
             repositories
  end.
Proof.
  induction repositories as [|repo rest IH]; cbn [BitbucketAPI.describeAll]; [constructor|].
  unfold BitbucketAPI.described.
  destruct (List.find _ (BitbucketAPI.links_clone repo)) as [link|] eqn:Hfind.
  - destruct (BitbucketAPI.describeAll rest) as [others|].
    + constructor; [|exact IH]. exists link. split; [exact Hfind|]. repeat split.
    + apply Exists_cons_tl. exact IH.
  - apply Exists_cons_hd. apply List.Forall_forall. intros l Hl Hname.
    apply (List.find_none _ _ Hfind) in Hl. cbv beta in Hl. rewrite Hname in Hl.
    discriminate Hl.
Qed.

Lemma next_page_is_requested_below_a_doubled_prefix_witness :
  BitbucketAPI.getAllRepositories
    (Services.bitbucket [Services.kept "docs" (Services.bothLinks "docs")])
    Services.bitbucketClient 2 []
  = Some (Throw "Failed to fetch repositories from Bitbucket: Request failed with status code 404",
          ["https://api.bitbucket.org/2.0/2.0/repositories/team?pagelen=100&page=2";
           "https://api.bitbucket.org/2.0/repositories/team?pagelen=100"]).
Proof.
  destruct (next_page_is_requested_below_a_doubled_prefix
              (Services.bitbucket [Services.kept "docs" (Services.bothLinks "docs")])
              Services.bitbucketClient
              [Services.kept "demo" (Services.bothLinks "demo")]
              "team?pagelen=100&page=2" Services.notFound 0 [])
    as (_ & _ & Hlisting).
  - intros log0. reflexivity.
  - reflexivity.
  - intros log0. reflexivity.
  - exact Hlisting.
Defined.

Lemma single_page_listing_witness :
  BitbucketAPI.getAllRepositories
    (Services.bitbucketSmall [Services.kept "demo" (Services.bothLinks "demo");
                              Services.kept "docs" (Services.bothLinks "docs")])
    Services.bitbucketClient 1 []
  = Some (Ok [Workspaces.bitbucketRepo "demo"; Workspaces.bitbucketRepo "docs"],
          ["https://api.bitbucket.org/2.0/repositories/team?pagelen=100"]).
Proof.
  apply (single_page_listing
           (Services.bitbucketSmall [Services.kept "demo" (Services.bothLinks "demo");
                                     Services.kept "docs" (Services.bothLinks "docs")])
           Services.bitbucketClient
           [Services.kept "demo" (Services.bothLinks "demo");
            Services.kept "docs" (Services.bothLinks "docs")]
           None 0 []).
  - reflexivity.
  - reflexivity.
Defined.

(** A repository that only offers [ssh]: the page is requested and the
    listing fails. *)
Example listing_without_https_example :
  BitbucketAPI.getAllRepositories
    (Services.bitbucketSmall
       [Services.kept "demo" (Services.bothLinks "demo");
        Services.kept "docs" [BitbucketAPI.mkLink "ssh" "git@bitbucket.org:team/docs.git"]])
    Services.bitbucketClient 1 []
  = Some (Throw ("Failed to fetch repositories from Bitbucket: "
                   +:+ "Cannot read properties of undefined (reading 'href')"),
          ["https://api.bitbucket.org/2.0/repositories/team?pagelen=100"]).
Proof. vm_compute. reflexivity. Qed.

(** * The base directory *)

(** X28. When [ensureTempDir] returns, the base directory exists and
    nothing that was on disk has been removed; it throws only when the
    directory could not be created, with the error of [mkdir]. *)
Theorem ensureTempDir_leaves_the_directory
        (env : Env) (this : GitManager) (s : State) :
  match fst (ensureTempDir env this s) with
  | Ok _ =>
      tempDir this ∈ fs (snd (ensureTempDir env this s)) /\
      fs s ⊆ fs (snd (ensureTempDir env this s))
  | Throw e =>
      fs (snd (ensureTempDir env this s)) = fs s /\
      head (history (snd (ensureTempDir env this s)))
      = Some (FsEvent (Mkdir (tempDir this)) (Some e))
  end.
Proof.
  unfold ensureTempDir, try_catch, fs_access.
  destruct (fs_fault env s (Access (tempDir this))) as [e|].
  - unfold fs_mkdir. cbn [record fs history].
    destruct (fs_fault env _ (Mkdir (tempDir this))) as [e'|]; cbn [fst snd fs history record].
    + split; reflexivity.
    + split; set_solver.
  - destruct (decide (tempDir this ∈ fs s)) as [Hin|Hout]; cbn [fst snd fs record].
    + split; [exact Hin|set_solver].
    + unfold fs_mkdir. cbn [record fs history].
      destruct (fs_fault env _ (Mkdir (tempDir this))) as [e'|]; cbn [fst snd fs history record].
      * split; reflexivity.
      * split; set_solver.
Qed.
